(** * sleeper_stats: fetch, normalisation, the matchups table and its queries

    A shallow embedding of [src/sleeper_stats.py].

    - JSON numbers (points, per-player scores) are rationals [Q]: every
      finite binary64 value is one. The engine's SUM and AVG round to
      binary64 after each operation ([b64]); results beyond the range of a
      DOUBLE are outside the model.
    - Python dicts that are only looked up ([users], [rosters],
      [players_points], a user's [metadata]) are [gmap]s; dicts whose
      iteration order is observed ([matchups_by_week], [player_scores]) are
      insertion-ordered association lists ([PyDict]).
    - A dict key that may be missing is an [option] field; [None] is the
      missing key, and [d.get(k, dflt)] is [default dflt (d !! k)]. The
      values of the keys that are present have their JSON types.
    - Exceptions are explicit ([res]); the object's state and the console
      are threaded through a small state-and-exception monad.
    - The engine is not part of the repository. Its relational operators
      are written out as far as the SQL of the repository uses them. Where
      the engine fixes no order (rows that tie under an ORDER BY, the
      values of a STRING_AGG) the model has the order of the sort used
      here, which is one of the orders the engine can give.
      Its parser is a parameter of the ad-hoc gate.
    - A character of a [string] is a code point below 256.
    - [fetch_league_info] is left out. *)

From Stdlib Require Import QArith Qminmax Qround Qabs Qpower Lqa.
From Stdlib Require Import Ascii.
From stdpp Require Import gmap strings list sorting pretty.

Local Open Scope string_scope.
Local Open Scope list_scope.
Local Open Scope Z_scope.

(** ** Insertion-ordered dictionaries *)

Module PyDict.
Section Ops.
Context {K V : Type} `{EqDecision K}.

Definition t := list (K * V).

(** [d.get(k)] *)
Fixpoint get (k : K) (d : t) : option V :=
  match d with
  | [] => None
  | (k', v) :: d' => if decide (k = k') then Some v else get k d'
  end.

(** [d[k] = v]: an existing key keeps its place, a new key goes last. *)
Fixpoint set (k : K) (v : V) (d : t) : t :=
  match d with
  | [] => [(k, v)]
  | (k', v') :: d' =>
      if decide (k = k') then (k, v) :: d' else (k', v') :: set k v d'
  end.

(** [d.update(other)] *)
Definition update (d other : t) : t :=
  foldl (λ acc kv, set kv.1 kv.2 acc) d other.

(** iteration over the dict: its keys, in insertion order *)
Definition keys (d : t) : list K := d.*1.
End Ops.
Global Arguments t : clear implicits.
End PyDict.

(** ** Data model *)

(** A user object: [metadata] may be missing; it maps names to strings. *)
Record user := { metadata : option (gmap string string) }.

(** A roster object: [owner_id] may be missing. *)
Record roster := { owner_id : option string }.

(** A raw matchup entry of one week. *)
Module Entry.
Record t := {
  roster_id : Z;
  matchup_id : option Z;        (* a required key; [None] is a null value *)
  points : option Q;
  players : option (list string);
  players_points : option (gmap string Q)
}.
End Entry.

(** A normalised record: one row of [matchups_raw]. *)
Record matchup_record := {
  week : Z;
  roster_id : Z;
  team_name : string;
  matchup_id : option Z;
  points : Q;
  top_player_id : option string;
  top_player_score : Q;
  players_json : PyDict.t string Q                (* the mapping that json.dumps writes out *)
}.

(** ** The normaliser (the loop body of [build_database]) *)

Definition Qltb (a b : Q) : bool := negb (Qle_bool b a).

(** [max(d, key=d.get)]: the first key, in iteration order, whose value is
    the largest. *)
Fixpoint max_from {K} (key : K → Q) (best : K) (l : list K) : K :=
  match l with
  | [] => best
  | k :: l' => max_from key (if Qltb (key best) (key k) then k else best) l'
  end.

Definition py_max {K} (key : K → Q) (l : list K) : option K :=
  match l with
  | [] => None
  | k :: l' => Some (max_from key k l')
  end.

Section Normalizer.
Variable users : gmap string user.
Variable rosters : gmap Z roster.

Definition resolve_team_name (rid : Z) : string :=
  let roster := default {| owner_id := None |} (rosters !! rid) in
  let owner := owner_id roster in
  let user := default {| metadata := None |} (owner ≫= (users !!.)) in
  default ("Team_" +:+ pretty rid) (default ∅ (metadata user) !! "team_name").

(** [matchup.get('players_points', {}).get(player_id, 0)] *)
Definition player_score (m : Entry.t) (player_id : string) : Q :=
  default 0%Q (default ∅ (Entry.players_points m) !! player_id).

(** One turn of [for player_id in players]. *)
Definition add_player_score (m : Entry.t)
    (player_scores : PyDict.t string Q) (player_id : string)
  : PyDict.t string Q :=
  let score := player_score m player_id in
  if Qltb 0 score then PyDict.set player_id score player_scores
  else player_scores.

Definition collect_player_scores (m : Entry.t) : PyDict.t string Q :=
  foldl (add_player_score m) [] (default [] (Entry.players m)).

Definition normalize (wk : Z) (m : Entry.t) : matchup_record :=
  let rid := Entry.roster_id m in
  let player_scores := collect_player_scores m in
  let top := py_max (λ k, default 0%Q (PyDict.get k player_scores))
                    (PyDict.keys player_scores) in
  {| week := wk;
     roster_id := rid;
     team_name := resolve_team_name rid;
     matchup_id := Entry.matchup_id m;
     points := default 0%Q (Entry.points m);
     top_player_id := top;
     top_player_score :=
       match top with
       | Some p => default 0%Q (PyDict.get p player_scores)
       | None => 0%Q
       end;
     players_json := player_scores |}.

(** The two nested loops that fill [matchup_records]. *)
Definition matchup_records (matchups : PyDict.t Z (list Entry.t))
  : list matchup_record :=
  mbind (λ wm : Z * list Entry.t, normalize wm.1 <$> wm.2) matchups.
End Normalizer.

(** The score an entry has for a player: the value under the player's id
    in its [players_points]. *)
Definition has_score (m : Entry.t) (p : string) (s : Q) : Prop :=
  ∃ pp, Entry.players_points m = Some pp ∧ pp !! p = Some s.

(** The players that make it into the score mapping of an entry: those it
    lists that have a score above 0. *)
Definition included (m : Entry.t) (p : string) : Prop :=
  p ∈ default [] (Entry.players m) ∧ ∃ s, has_score m p s ∧ (0 < s)%Q.

(** A team name from the metadata: the roster has a record, its owner is a
    user, and that user's metadata has a [team_name]. *)
Definition metadata_team_name (users : gmap string user)
    (rosters : gmap Z roster) (rid : Z) (name : string) : Prop :=
  ∃ r o u md,
    rosters !! rid = Some r ∧ owner_id r = Some o ∧ users !! o = Some u
    ∧ metadata u = Some md ∧ md !! "team_name" = Some name.

(** ** Relational operators of the engine, as far as the queries use them *)

Global Instance Qle_rel_dec : RelDecision Qle :=
  λ a b, decide (Qnum a * QDen b ≤ Qnum b * QDen a).

Section Relational.
Context {A : Type}.

(** [ORDER BY f DESC] and [ORDER BY f ASC] on a numeric column *)
Definition desc_by (f : A → Q) : relation A := λ a b, (f b <= f a)%Q.
Definition asc_by (f : A → Q) : relation A := λ a b, (f a <= f b)%Q.

Global Instance desc_by_dec f : RelDecision (desc_by f) :=
  λ a b, decide (f b <= f a)%Q.
Global Instance asc_by_dec f : RelDecision (asc_by f) :=
  λ a b, decide (f a <= f b)%Q.

(** [ROW_NUMBER()] over rows that are already in window order *)
Fixpoint number_from (n : Z) (l : list A) : list (A * Z) :=
  match l with
  | [] => []
  | a :: l' => (a, n) :: number_from (n + 1) l'
  end.

Definition row_number (l : list A) : list (A * Z) := number_from 1 l.

(** [LIMIT n] *)
Definition limit (n : nat) (l : list A) : list A := take n l.

Context {K : Type} `{EqDecision K}.

(** [PARTITION BY key] / [GROUP BY key]: the groups, each with its key *)
Definition group_by (key : A → K) (l : list A) : list (K * list A) :=
  (λ k, (k, filter (λ a, key a = k) l)) <$> remove_dups (key <$> l).

(** [ROW_NUMBER() OVER (PARTITION BY key ORDER BY R)] *)
Definition row_number_over (key : A → K) (R : relation A)
    `{!RelDecision R} (l : list A) : list (A * Z) :=
  mbind (λ g : K * list A, row_number (merge_sort R g.2)) (group_by key l).
End Relational.

(** ** The engine's DOUBLE *)

(** The largest [k] with [2 ^ k <= q], for a positive [q]. *)
Definition Qlog2 (q : Q) : Z :=
  let k := Z.log2 (Qnum q) - Z.log2 (Z.pos (Qden q)) in
  if Qle_bool (2 ^ k) q then k else k - 1.

(** The nearest integer, the even one of two that are equally near. *)
Definition round_half_even (q : Q) : Z :=
  let f := Qfloor q in
  match (q - inject_Z f ?= 1 # 2)%Q with
  | Lt => f
  | Gt => f + 1
  | Eq => if Z.even f then f else f + 1
  end.

(** The binary64 value nearest to [q]: 53 significant bits, and no bit
    below [2 ^ -1074]. *)
Definition b64 (q : Q) : Q :=
  if Qeq_bool q 0 then 0%Q
  else
    let e := Z.max (Qlog2 (Qabs q) - 52) (-1074) in
    (inject_Z (round_half_even (q / 2 ^ e)) * 2 ^ e)%Q.

(** The sum and the mean of the numbers themselves; the engine does not
    compute them. *)
Definition exact_sum (l : list Q) : Q := foldr Qplus 0%Q l.

Definition exact_mean (l : list Q) : Q :=
  (exact_sum l / inject_Z (Z.of_nat (length l)))%Q.

(** Aggregates; each is NULL on no rows. The sum of a DOUBLE column is
    kept in a DOUBLE, row after row; the average divides it by the count. *)
Definition sql_sum (l : list Q) : Q := foldl (λ acc x, b64 (acc + x)) 0%Q l.

Definition sql_avg (l : list Q) : option Q :=
  match l with
  | [] => None
  | _ => Some (b64 (sql_sum l / inject_Z (Z.of_nat (length l))))
  end.

(** How far the rounding of the sum and of the division can take the
    average of [n] numbers between [lo] and [hi] out of their range. *)
Definition rounding_margin (n : Z) (lo hi : Q) : Q :=
  (inject_Z (n + 1) * Qmax (Qabs lo) (Qabs hi) * 2 ^ (-52) + 2 ^ (-1073))%Q.

(** The sum of [n] numbers between [lo] and [hi] stays within the finite
    DOUBLEs, and the count is one a DOUBLE holds. *)
Definition in_double_range (n : Z) (lo hi : Q) : Prop :=
  n ≤ 2 ^ 52
  ∧ (inject_Z (n + 1) * Qmax (Qabs lo) (Qabs hi) <= 2 ^ 1023)%Q.

Definition sql_min (l : list Q) : option Q :=
  match l with
  | [] => None
  | x :: l' => Some (foldl Qmin x l')
  end.

Definition sql_max (l : list Q) : option Q :=
  match l with
  | [] => None
  | x :: l' => Some (foldl Qmax x l')
  end.

Fixpoint join (sep : string) (l : list string) : string :=
  match l with
  | [] => ""
  | [s] => s
  | s :: l' => s +:+ sep +:+ join sep l'
  end.

(** [STRING_AGG(CAST(week AS VARCHAR), ', ')]; the query gives the
    aggregate no order, here the weeks come in the order of the rows. *)
Definition string_agg_weeks (ws : list Z) : string := join ", " (pretty <$> ws).

(** ** The analytical store *)

(** A row of the [matchups] table: the eight columns of [matchups_raw],
    then [won] and [rank_in_matchup]. *)
Record matchups_row := {
  rec :> matchup_record;
  won : Z;
  rank_in_matchup : Z
}.

(** [PARTITION BY week, matchup_id]; the rows of a week whose [matchup_id]
    is NULL make one partition. *)
Definition partition_key (r : matchup_record) : Z * option Z :=
  (week r, matchup_id r).

(** The CTE [ranked_matchups]. *)
Definition ranked_matchups (raw : list matchup_record)
  : list (matchup_record * Z) :=
  row_number_over partition_key (desc_by points) raw.

(** [CASE WHEN rank_in_matchup = 1 THEN 1 ELSE 0 END as won] *)
Definition with_rank (rr : matchup_record * Z) : matchups_row :=
  {| rec := rr.1;
     won := if bool_decide (rr.2 = 1) then 1 else 0;
     rank_in_matchup := rr.2 |}.

(** The SELECT of [CREATE TABLE matchups AS ...]. *)
Definition matchups_table (raw : list matchup_record) : list matchups_row :=
  with_rank <$> ranked_matchups raw.

(** The tables the connection holds; [None] is a table that does not
    exist. *)
Record database := {
  matchups_raw : option (list matchup_record);
  matchups : option (list matchups_row)
}.

(** ** The query library, each query as a function of the table *)

Record ranked_score := {
  rs_team_name : string;
  rs_week : Z;
  rs_points : Q;
  rs_rank : Z
}.

Record count_row := {
  cr_team_name : string;
  cr_count : Z;
  cr_weeks : string
}.

Record count_avg_row := {
  ca_team_name : string;
  ca_count : Z;
  ca_avg_points : option Q;
  ca_weeks : string
}.

Record avg_row := {
  ar_team_name : string;
  ar_count : Z;
  ar_avg : option Q;
  ar_min : option Q;
  ar_max : option Q
}.

Definition count_desc {A} (f : A → Z) : relation A := λ a b, f b ≤ f a.
Global Instance count_desc_dec {A} (f : A → Z) : RelDecision (count_desc f) :=
  λ a b, decide (f b ≤ f a).

(** NULLs sort last (the engine's default), then by value, descending. *)
Definition oavg_desc {A} (f : A → option Q) : relation A := λ a b,
  match f a, f b with
  | Some x, Some y => (y <= x)%Q
  | Some _, None => True
  | None, Some _ => False
  | None, None => True
  end.
Global Instance oavg_desc_dec {A} (f : A → option Q) : RelDecision (oavg_desc f).
Proof.
  intros a b. unfold oavg_desc.
  destruct (f a), (f b); [apply Qle_rel_dec|left|right|left]; auto.
Defined.

Definition count_weeks (g : string * list matchup_record) : count_row :=
  {| cr_team_name := g.1;
     cr_count := Z.of_nat (length g.2);
     cr_weeks := string_agg_weeks (week <$> g.2) |}.

(** The rows ranked first in their week under [R]; of the rows of a week
    that tie for the first place, the engine may take any. *)
Definition first_of_week (R : relation matchup_record) `{!RelDecision R}
    (t : list matchups_row) : list matchup_record :=
  fst <$> filter (λ rr : matchup_record * Z, rr.2 = 1)
                 (row_number_over week R (rec <$> t)).

Definition stat_1_query (t : list matchups_row) : list count_row :=
  merge_sort (count_desc cr_count)
    (count_weeks <$> group_by team_name (first_of_week (desc_by points) t)).

Definition to_ranked_score (rr : matchups_row * Z) : ranked_score :=
  {| rs_team_name := team_name rr.1;
     rs_week := week rr.1;
     rs_points := points rr.1;
     rs_rank := rr.2 |}.

(** [ROW_NUMBER() OVER (ORDER BY points DESC) ... ORDER BY points DESC
    LIMIT 10]; among rows with the same points the engine orders the window
    and the result each in its own way, here both have the order of one
    sort. *)
Definition stat_2_query (t : list matchups_row) : list ranked_score :=
  limit 10 (to_ranked_score <$> row_number (merge_sort (desc_by (λ r : matchups_row, points r)) t)).

Definition stat_3_query (t : list matchups_row) : list count_row :=
  merge_sort (count_desc cr_count)
    (count_weeks <$> group_by team_name (first_of_week (asc_by points) t)).

Definition stat_3b_query (t : list matchups_row) : list ranked_score :=
  limit 10 (to_ranked_score <$> row_number (merge_sort (asc_by (λ r : matchups_row, points r)) t)).

(** [MIN(points) ... GROUP BY week] and [MAX(points) ... GROUP BY week] *)
Definition weekly (agg : list Q → option Q) (t : list matchups_row)
  : list (Z * option Q) :=
  (λ g : Z * list matchups_row, (g.1, agg ((λ r : matchups_row, points r) <$> g.2)))
    <$> group_by (λ r : matchups_row, week r) t.

(** [matchups m JOIN weekly w ON m.week = w.week WHERE m.points = w.score
    AND m.won = flag] *)
Definition join_weekly (flag : Z) (wk : list (Z * option Q))
    (t : list matchups_row) : list matchups_row :=
  mbind (λ m : matchups_row,
    mbind (λ w : Z * option Q,
      if bool_decide (week m = w.1)
         && from_option (Qeq_bool (points m)) false w.2
         && bool_decide (won m = flag)
      then [m] else []) wk) t.

Definition count_avg_weeks (g : string * list matchups_row) : count_avg_row :=
  {| ca_team_name := g.1;
     ca_count := Z.of_nat (length g.2);
     ca_avg_points := sql_avg ((λ r : matchups_row, points r) <$> g.2);
     ca_weeks := string_agg_weeks ((λ r : matchups_row, week r) <$> g.2) |}.

Definition stat_4_query (t : list matchups_row) : list count_avg_row :=
  merge_sort (count_desc ca_count)
    (count_avg_weeks
       <$> group_by (λ r : matchups_row, team_name r)
             (join_weekly 1 (weekly sql_min t) t)).

Definition stat_5_query (t : list matchups_row) : list count_avg_row :=
  merge_sort (count_desc ca_count)
    (count_avg_weeks
       <$> group_by (λ r : matchups_row, team_name r)
             (join_weekly 0 (weekly sql_max t) t)).

Definition aggregate_points (g : string * list matchups_row) : avg_row :=
  let pts := (λ r : matchups_row, points r) <$> g.2 in
  {| ar_team_name := g.1;
     ar_count := Z.of_nat (length g.2);
     ar_avg := sql_avg pts;
     ar_min := sql_min pts;
     ar_max := sql_max pts |}.

(** The count and the AVG, MIN and MAX of [points] over the rows with
    [won = flag], [GROUP BY team_name], [ORDER BY] the average [DESC]. *)
Definition avg_points_where_won (flag : Z) (t : list matchups_row)
  : list avg_row :=
  merge_sort (oavg_desc ar_avg)
    (aggregate_points
       <$> group_by (λ r : matchups_row, team_name r)
             (filter (λ r, won r = flag) t)).

Definition stat_6_query : list matchups_row → list avg_row :=
  avg_points_where_won 1.

Definition stat_7_query : list matchups_row → list avg_row :=
  avg_points_where_won 0.

(** ** Exceptions, console and object state *)

(** What a call can raise: an [Exception] (with its message), or the
    [KeyboardInterrupt] that [except Exception] does not catch. *)
Inductive exn :=
  | Exception (msg : string)
  | KeyboardInterrupt.

Inductive res (A : Type) :=
  | Ret (a : A)
  | Raise (e : exn).
Global Arguments Ret {A} a.
Global Arguments Raise {A} e.

Inductive value :=
  | VInt (z : Z)
  | VNum (q : Q)
  | VStr (s : string)
  | VNull.

(** A result table as [.df()] returns it. *)
Record dataframe := {
  columns : list string;
  rows : list (list value)
}.

(** One [print] call: a text, or a result table. *)
Inductive out :=
  | Text (s : string)
  | Frame (df : dataframe).

(** The [SleeperStats] object, the console and the requests sent so far. *)
Record world := {
  self_users : gmap string user;
  self_rosters : gmap Z roster;
  self_matchups : PyDict.t Z (list Entry.t);
  self_db : database;
  console : list out;
  requested : list Z
}.

Definition print (o : out) (w : world) : world :=
  {| self_users := self_users w; self_rosters := self_rosters w;
     self_matchups := self_matchups w; self_db := self_db w;
     console := console w ++ [o]; requested := requested w |}.

Definition request (wk : Z) (w : world) : world :=
  {| self_users := self_users w; self_rosters := self_rosters w;
     self_matchups := self_matchups w; self_db := self_db w;
     console := console w; requested := requested w ++ [wk] |}.

Definition set_matchups (m : PyDict.t Z (list Entry.t)) (w : world) : world :=
  {| self_users := self_users w; self_rosters := self_rosters w;
     self_matchups := m; self_db := self_db w;
     console := console w; requested := requested w |}.

Definition set_db (d : database) (w : world) : world :=
  {| self_users := self_users w; self_rosters := self_rosters w;
     self_matchups := self_matchups w; self_db := d;
     console := console w; requested := requested w |}.

(** A computation on the object: it returns or raises, and leaves a state
    behind either way. *)
Definition M (A : Type) : Type := world → res A * world.

Definition ret {A} (a : A) : M A := λ w, (Ret a, w).
Definition raise {A} (e : exn) : M A := λ w, (Raise e, w).
Definition bind {A B} (c : M A) (k : A → M B) : M B := λ w,
  match c w with
  | (Ret a, w') => k a w'
  | (Raise e, w') => (Raise e, w')
  end.
Definition say (o : out) : M unit := λ w, (Ret tt, print o w).

(** [try: body / except Exception as e: handler] *)
Definition try_except {A} (body : M A) (handler : string → M A) : M A := λ w,
  match body w with
  | (Raise (Exception msg), w') => handler msg w'
  | r => r
  end.

Declare Scope py_scope.
Delimit Scope py_scope with py.
Notation "x <~ c ;; k" := (bind c (λ x, k))
  (at level 100, c at next level, right associativity) : py_scope.
Notation "c ;;; k" := (bind c (λ _, k))
  (at level 100, right associativity) : py_scope.

Definition nl : string := String (ascii_of_nat 10) "".

(** ** The league data client: weekly matchups *)

(** The body of a 200 response under [.json()]: it parses to the week's
    entries, or the parse raises. *)
Inductive body :=
  | Json (entries : list Entry.t)
  | BadJson (msg : string).

(** What [requests.get] does for a week's URL: it raises, or it returns a
    response. *)
Inductive outcome :=
  | Raises (msg : string)
  | Returns (status_code : Z) (b : body).

(** The answers on which the loop leaves: the request raised, or the body
    of a 200 response did not parse. *)
Definition stops (o : outcome) : bool :=
  match o with
  | Raises _ => true
  | Returns status_code (BadJson _) => bool_decide (status_code = 200)
  | Returns _ (Json _) => false
  end.

(** The entries an answer puts under its week: those of a 200 response. *)
Definition delivered (o : outcome) : option (list Entry.t) :=
  match o with
  | Returns status_code (Json entries) =>
      if bool_decide (status_code = 200) then Some entries else None
  | _ => None
  end.

(** The dict after a turn that goes on: the delivered entries, if any, are
    stored under the week. *)
Definition stored (network : Z → outcome) (wk : Z)
    (acc : PyDict.t Z (list Entry.t)) : PyDict.t Z (list Entry.t) :=
  from_option (λ entries, PyDict.set wk entries acc) acc
              (delivered (network wk)).

(** [range(a, b)] *)
Definition range (a b : Z) : list Z := seqZ a (b - a).

Section Client.
Variable network : Z → outcome.

Fixpoint fetch_matchups_loop (weeks : list Z)
    (matchups_by_week : PyDict.t Z (list Entry.t)) (w : world)
  : PyDict.t Z (list Entry.t) * world :=
  match weeks with
  | [] => (matchups_by_week, w)
  | wk :: weeks' =>
      let w := request wk w in
      let failed msg :=
        print (Text ("  Week " +:+ pretty wk +:+ ": Error or no data - " +:+ msg)) w in
      match network wk with
      | Raises msg => (matchups_by_week, failed msg)
      | Returns status_code b =>
          if bool_decide (status_code = 200) then
            match b with
            | BadJson msg => (matchups_by_week, failed msg)
            | Json entries =>
                fetch_matchups_loop weeks'
                  (PyDict.set wk entries matchups_by_week)
                  (print (Text ("  Week " +:+ pretty wk +:+ ": "
                                +:+ pretty (length entries) +:+ " matchups")) w)
            end
          else fetch_matchups_loop weeks' matchups_by_week w
      end
  end.

Definition fetch_matchups (w : world) : world :=
  let w := print (Text "Fetching matchups for all weeks...") w in
  let '(matchups_by_week, w) := fetch_matchups_loop (range 1 18) [] w in
  set_matchups matchups_by_week w.

Fixpoint fetch_playoff_loop (weeks : list Z)
    (playoff_weeks : PyDict.t Z (list Entry.t)) (w : world)
  : PyDict.t Z (list Entry.t) * world :=
  match weeks with
  | [] => (playoff_weeks, w)
  | wk :: weeks' =>
      let w := request (wk + 17) w in
      match network (wk + 17) with
      | Raises _ => (playoff_weeks, w)
      | Returns status_code b =>
          if bool_decide (status_code = 200) then
            match b with
            | BadJson _ => (playoff_weeks, w)
            | Json entries =>
                fetch_playoff_loop weeks'
                  (PyDict.set (wk + 17) entries playoff_weeks)
                  (print (Text ("  Playoff week " +:+ pretty wk +:+ ": "
                                +:+ pretty (length entries) +:+ " matchups")) w)
            end
          else fetch_playoff_loop weeks' playoff_weeks w
      end
  end.

Definition fetch_playoff_matchups (w : world) : world :=
  let w := print (Text "Fetching playoff matchups...") w in
  let '(playoff_weeks, w) := fetch_playoff_loop (range 1 5) [] w in
  set_matchups (PyDict.update (self_matchups w) playoff_weeks) w.
End Client.

(** ** The engine *)

(** A statement the engine has parsed: a query only reads the tables; a
    command (CREATE, INSERT, UPDATE, DELETE, DROP) may replace them. Both
    can fail, and both hand back a result table. *)
Inductive statement :=
  | Query (q : database → res dataframe)
  | Command (c : database → res (database * dataframe)).

(** [self.db.execute(stmt).df()] *)
Definition execute (s : statement) : M dataframe := λ w,
  match s with
  | Query q => (q (self_db w), w)
  | Command c =>
      match c (self_db w) with
      | Ret (d, df) => (Ret df, set_db d w)
      | Raise e => (Raise e, w)
      end
  end.

Definition no_table (name : string) : exn :=
  Exception ("Catalog Error: Table with name " +:+ name +:+ " does not exist!").

(** A SELECT whose only source is the [matchups] table. *)
Definition select_from_matchups (f : list matchups_row → dataframe)
  : statement :=
  Query (λ d, match matchups d with
              | Some t => Ret (f t)
              | None => Raise (no_table "matchups")
              end).

Definition count_frame (n : Z) : dataframe :=
  {| columns := ["count_star()"]; rows := [[VInt n]] |}.

(** [CREATE TABLE matchups AS WITH ranked_matchups AS (...) SELECT ...]: it
    needs the registered frame, and no table of that name yet. *)
Definition create_matchups : statement :=
  Command (λ d,
    match matchups_raw d with
    | None => Raise (no_table "matchups_raw")
    | Some raw =>
        match matchups d with
        | Some _ => Raise (Exception "Catalog Error: Table with name matchups already exists!")
        | None =>
            let t := matchups_table raw in
            Ret ({| matchups_raw := Some raw; matchups := Some t |},
                 count_frame (Z.of_nat (length t)))
        end
    end).

(** The row count of [matchups], under any column alias. *)
Definition count_matchups : statement :=
  select_from_matchups (λ t, count_frame (Z.of_nat (length t))).

(** [.fetchall()[0][0]] of a count *)
Definition first_count (df : dataframe) : Z :=
  match rows df with
  | (VInt n :: _) :: _ => n
  | _ => 0
  end.

(** [self.db.register('matchups_raw', matchups_df)]; a frame made from no
    record has no column: the engine refuses it and registers nothing. *)
Definition register_matchups_raw (records : list matchup_record) : M unit :=
  λ w,
  match records with
  | [] =>
      (Raise (Exception
                "Invalid Input Error: Need a DataFrame with at least one column"),
       w)
  | _ =>
      (Ret tt, set_db {| matchups_raw := Some records;
                         matchups := matchups (self_db w) |} w)
  end.

Local Open Scope py_scope.

Definition build_database : M unit := λ w,
  (say (Text (nl +:+ "Building DuckDB database...")) ;;;
   register_matchups_raw
     (matchup_records (self_users w) (self_rosters w) (self_matchups w)) ;;;
   _ <~ execute create_matchups ;;
   say (Text "Database built successfully!") ;;;
   _ <~ execute count_matchups ;;
   n <~ execute count_matchups ;;
   say (Text ("Loaded " +:+ pretty (first_count n) +:+ " matchup records"))) w.

(** ** The query library as methods *)

Definition onum (o : option Q) : value := from_option VNum VNull o.

Definition count_rows_frame (count_name : string) (l : list count_row)
  : dataframe :=
  {| columns := ["team_name"; count_name; "weeks"];
     rows := (λ r, [VStr (cr_team_name r); VInt (cr_count r); VStr (cr_weeks r)]) <$> l |}.

Definition ranked_scores_frame (l : list ranked_score) : dataframe :=
  {| columns := ["team_name"; "week"; "points"; "rank"];
     rows := (λ r, [VStr (rs_team_name r); VInt (rs_week r);
                    VNum (rs_points r); VInt (rs_rank r)]) <$> l |}.

Definition count_avg_rows_frame (count_name : string) (l : list count_avg_row)
  : dataframe :=
  {| columns := ["team_name"; count_name; "avg_points"; "weeks"];
     rows := (λ r, [VStr (ca_team_name r); VInt (ca_count r);
                    onum (ca_avg_points r); VStr (ca_weeks r)]) <$> l |}.

Definition avg_rows_frame (count_name avg_name min_name max_name : string)
    (l : list avg_row) : dataframe :=
  {| columns := ["team_name"; count_name; avg_name; min_name; max_name];
     rows := (λ r, [VStr (ar_team_name r); VInt (ar_count r);
                    onum (ar_avg r); onum (ar_min r); onum (ar_max r)]) <$> l |}.

(** The common shape of the methods: print the heading, run the query,
    print and return the frame. *)
Definition run_stat (heading : string) (query : statement) : M dataframe :=
  say (Text (nl +:+ heading)) ;;;
  df <~ execute query ;;
  say (Frame df) ;;;
  ret df.

Definition stat_1_sql : statement :=
  select_from_matchups (count_rows_frame "count_of_highest_scores" ∘ stat_1_query).

(** This one runs its query twice: once for [fetchall], once for [df]. *)
Definition stat_1_highest_scores_by_week : M dataframe :=
  say (Text (nl +:+ "=== STAT 1: Most Highest Scores by Week ===")) ;;;
  _ <~ execute stat_1_sql ;;
  df <~ execute stat_1_sql ;;
  say (Frame df) ;;;
  ret df.

Definition stat_2_top_10_scores_overall : M dataframe :=
  run_stat "=== STAT 2: Top 10 Scores Overall ==="
    (select_from_matchups (ranked_scores_frame ∘ stat_2_query)).

Definition stat_3_lowest_scores_by_week : M dataframe :=
  run_stat "=== STAT 3: Most Lowest Scores by Week ==="
    (select_from_matchups (count_rows_frame "count_of_lowest_scores" ∘ stat_3_query)).

Definition stat_3b_top_10_lowest_scores_overall : M dataframe :=
  run_stat "=== STAT 3B: Top 10 Lowest Scores Overall ==="
    (select_from_matchups (ranked_scores_frame ∘ stat_3b_query)).

Definition stat_4_most_wins_vs_lowest_score : M dataframe :=
  run_stat "=== STAT 4: Most Wins Against Lowest Score ==="
    (select_from_matchups (count_avg_rows_frame "wins_with_lowest_score" ∘ stat_4_query)).

Definition stat_5_most_losses_vs_highest_score : M dataframe :=
  run_stat "=== STAT 5: Most Losses Against Highest Score ==="
    (select_from_matchups (count_avg_rows_frame "losses_with_highest_score" ∘ stat_5_query)).

Definition stat_6_avg_points_in_win : M dataframe :=
  run_stat "=== STAT 6: Average Points in a Win ==="
    (select_from_matchups
       (avg_rows_frame "wins" "avg_points_in_win" "min_win" "max_win" ∘ stat_6_query)).

Definition stat_7_avg_points_in_loss : M dataframe :=
  run_stat "=== STAT 7: Average Points in a Loss ==="
    (select_from_matchups
       (avg_rows_frame "losses" "avg_points_in_loss" "min_loss" "max_loss" ∘ stat_7_query)).

Fixpoint repeat_string (s : string) (n : nat) : string :=
  match n with
  | O => ""
  | S n' => s +:+ repeat_string s n'
  end.

Definition run_all_stats : M unit :=
  say (Text (repeat_string "=" 80)) ;;;
  say (Text "FANTASY FOOTBALL LEAGUE STATISTICS") ;;;
  say (Text (repeat_string "=" 80)) ;;;
  _ <~ stat_1_highest_scores_by_week ;;
  _ <~ stat_2_top_10_scores_overall ;;
  _ <~ stat_3_lowest_scores_by_week ;;
  _ <~ stat_3b_top_10_lowest_scores_overall ;;
  _ <~ stat_4_most_wins_vs_lowest_score ;;
  _ <~ stat_5_most_losses_vs_highest_score ;;
  _ <~ stat_6_avg_points_in_win ;;
  _ <~ stat_7_avg_points_in_loss ;;
  ret tt.

(** ** The ad-hoc query gate and the interactive loop *)

(** [c.isspace()]: the white space of ASCII, U+0085 and U+00A0. *)
Definition is_space (c : ascii) : bool :=
  let n := nat_of_ascii c in
  bool_decide (n = 32 ∨ 9 ≤ n ≤ 13 ∨ 28 ≤ n ≤ 31 ∨ n = 133 ∨ n = 160)%nat.

Fixpoint lstrip (s : string) : string :=
  match s with
  | String c s' => if is_space c then lstrip s' else s
  | EmptyString => EmptyString
  end.

Fixpoint rstrip (s : string) : string :=
  match s with
  | String c s' =>
      match rstrip s' with
      | EmptyString => if is_space c then EmptyString else String c EmptyString
      | r => String c r
      end
  | EmptyString => EmptyString
  end.

(** [s.strip()] *)
Definition strip (s : string) : string := rstrip (lstrip s).

(** The capital letters: A to Z, and U+00C0 to U+00DE but the
    multiplication sign. *)
Definition lower_char (c : ascii) : ascii :=
  let n := nat_of_ascii c in
  if bool_decide (65 ≤ n ≤ 90 ∨ (192 ≤ n ≤ 222 ∧ n ≠ 215))%nat
  then ascii_of_nat (n + 32) else c.

(** [s.lower()] *)
Fixpoint lower (s : string) : string :=
  match s with
  | String c s' => String (lower_char c) (lower s')
  | EmptyString => EmptyString
  end.

(** One answer of the operator at the prompt: a line, or Ctrl-C. *)
Inductive keyboard :=
  | Line (s : string)
  | CtrlC.

(** How the loop stands when the scripted input is used up: it has left the
    [while], or it is back at the prompt. *)
Inductive loop_status :=
  | Exited
  | Prompting.

Section Gate.
(** The engine's parser: the statement a query text stands for, or the
    error it raises for it. *)
Variable parse : string → res statement.

Definition parse_sql (query : string) : M statement := λ w, (parse query, w).

Definition interactive_query (query : string) : M (option dataframe) :=
  try_except
    (s <~ parse_sql query ;;
     df <~ execute s ;;
     say (Frame df) ;;;
     ret (Some df))
    (λ e, say (Text ("Error executing query: " +:+ e)) ;;; ret None).

(** The [while True] of [main], run on the operator's answers. *)
Fixpoint main_loop (answers : list keyboard) (w : world)
  : loop_status * world :=
  match answers with
  | [] => (Prompting, w)
  | a :: answers' =>
      let w := print (Text (nl +:+ "Enter SQL query: ")) w in
      match a with
      | CtrlC => (Exited, w)
      | Line s =>
          let query := strip s in
          if bool_decide (lower query = "quit") then (Exited, w)
          else if bool_decide (query ≠ "") then
            match interactive_query query w with
            | (Ret _, w') => main_loop answers' w'
            | (Raise KeyboardInterrupt, w') => (Exited, w')
            | (Raise (Exception e), w') =>
                main_loop answers' (print (Text ("Error: " +:+ e)) w')
            end
          else main_loop answers' w
      end
  end.
End Gate.

(** ** Frames *)

(** The second state differs from the first by console output only. *)
Definition only_printed (w w' : world) : Prop :=
  self_users w' = self_users w
  ∧ self_rosters w' = self_rosters w
  ∧ self_matchups w' = self_matchups w
  ∧ self_db w' = self_db w
  ∧ requested w' = requested w
  ∧ console w `prefix_of` console w'.

(** A computation that only reads the object and prints. *)
Definition reads_only {A} (c : M A) : Prop := ∀ w, only_printed w (c w).2.

(** The engine is never interrupted from the keyboard while it runs an
    ad-hoc query. *)
Definition uninterrupted (parse : string → res statement) : Prop :=
  ∀ query w, (interactive_query parse query w).1 ≠ Raise KeyboardInterrupt.

(** A line that does not end the loop. *)
Definition not_quit (a : keyboard) : Prop :=
  match a with
  | Line s => lower (strip s) ≠ "quit"
  | CtrlC => False
  end.

(** ** A small league, for the examples *)

Module Sample.
Definition users : gmap string user :=
  {[ "u1" := {| metadata := Some {[ "team_name" := "Team A" ]} |};
     "u2" := {| metadata := Some ∅ |};
     "u3" := {| metadata := None |} ]}.

Definition rosters : gmap Z roster :=
  {[ 1 := {| owner_id := Some "u1" |};
     2 := {| owner_id := Some "u2" |};
     3 := {| owner_id := Some "nobody" |};
     4 := {| owner_id := None |} ]}.

Definition entry (rid : Z) (mid : option Z) (pts : option Q)
    (ps : option (list string)) (pp : option (gmap string Q)) : Entry.t :=
  {| Entry.roster_id := rid; Entry.matchup_id := mid; Entry.points := pts;
     Entry.players := ps; Entry.players_points := pp |}.

Definition team_a : Entry.t :=
  entry 1 (Some 1) (Some (241 # 2)%Q) (Some ["p1"; "p2"; "p3"; "p4"])
    (Some {[ "p1" := (41 # 2)%Q; "p2" := 31%Q; "p3" := 0%Q; "p9" := 50%Q ]}).
Definition team_b : Entry.t :=
  entry 2 (Some 1) (Some 99%Q) (Some ["p5"; "p6"])
    (Some {[ "p5" := (-2)%Q ]}).
Definition team_c : Entry.t := entry 3 (Some 2) None None None.
Definition team_d : Entry.t := entry 5 (Some 2) (Some 99%Q) (Some []) None.

Definition week_1 : list Entry.t := [team_a; team_b; team_c; team_d].
Definition week_2 : list Entry.t := [team_b; team_a].

(** Week 3 answers 404, week 5 times out, week 19 times out. *)
Definition network (wk : Z) : outcome :=
  if bool_decide (wk = 1) then Returns 200 (Json week_1)
  else if bool_decide (wk = 2) then Returns 200 (Json week_2)
  else if bool_decide (wk = 3) then Returns 404 (BadJson "no body")
  else if bool_decide (wk = 5) then Raises "timed out"
  else if bool_decide (wk = 19) then Raises "timed out"
  else Returns 200 (Json []).

Definition start : world :=
  {| self_users := users; self_rosters := rosters; self_matchups := [];
     self_db := {| matchups_raw := None; matchups := None |};
     console := []; requested := [] |}.

Definition fetched : world :=
  fetch_playoff_matchups network (fetch_matchups network start).

Definition built : world := (build_database fetched).2.

Definition raw : list matchup_record :=
  default [] (matchups_raw (self_db built)).

Definition table : list matchups_row :=
  default [] (matchups (self_db built)).

(** 120.1 as the engine holds it: the nearest binary64 value. *)
Definition score_120_1 : Q := (4225643087868723 # 35184372088832)%Q.

(** Three weeks in which roster 1 plays alone and scores 120.1. *)
Definition lone_weeks : PyDict.t Z (list Entry.t) :=
  (λ wk, (wk, [entry 1 (Some 1) (Some score_120_1) None None]))
    <$> [1; 2; 3].

Definition lone_table : list matchups_row :=
  matchups_table (matchup_records users rosters lone_weeks).

(** A parser for three texts; it rejects every other text. *)
Definition parse (query : string) : res statement :=
  if bool_decide (query = "SELECT COUNT(week) FROM matchups") then
    Ret count_matchups
  else if bool_decide (query = "DELETE FROM matchups") then
    Ret (Command (λ d,
           Ret ({| matchups_raw := matchups_raw d;
                   matchups := (λ _, []) <$> matchups d |},
                count_frame (Z.of_nat (length (default [] (matchups d)))))))
  else Raise (Exception ("Parser Error: syntax error in " +:+ query)).
End Sample.


(** ** Notions used by the further properties *)

(** The elements of a list in the order of their first occurrence. *)
Fixpoint first_occurrences {A} `{EqDecision A} (l : list A) : list A :=
  match l with
  | [] => []
  | x :: l' => x :: filter (λ y, y ≠ x) (first_occurrences l')
  end.

Global Instance Qlt_rel_dec : RelDecision Qlt :=
  λ a b, decide (Qnum a * QDen b < Qnum b * QDen a).

(** The players of an entry that score, in roster order. *)
Definition scoring_players (m : Entry.t) : list string :=
  first_occurrences
    (filter (λ p, (0 < player_score m p)%Q) (default [] (Entry.players m))).

(** The sum of a column of counts. *)
Definition sumZ (l : list Z) : Z := foldr Z.add 0 l.


Definition losses_vs_highest (t : list matchups_row) : list matchups_row :=
  join_weekly 0 (weekly sql_max t) t.

(** A computation that returns whenever the [matchups] table exists. *)
Definition needs_table {A} (c : M A) : Prop :=
  ∀ w, is_Some (matchups (self_db w)) → ∃ a, (c w).1 = Ret a.

(** ** The league data client: users, rosters, players *)

(** What [requests.get(url)] followed by [.json()] gives: the request
    raises, or there is a response, of any status, whose body parses to a
    value or makes [.json()] raise. The bodies of the user and roster
    requests are lists of objects. *)
Inductive reply (A : Type) :=
  | NoResponse (e : exn)
  | Response (status_code : Z) (json : res A).
Global Arguments NoResponse {A} e.
Global Arguments Response {A} status_code json.

(** [{x[key]: x for x in items}], on objects given as their [key], if they
    have it, and the rest; a missing key raises [KeyError]. *)
Fixpoint index_by {K V} `{Countable K} (name : string)
    (items : list (option K * V)) (acc : gmap K V) : res (gmap K V) :=
  match items with
  | [] => Ret acc
  | (Some k, v) :: items' => index_by name items' (<[k := v]> acc)
  | (None, _) :: _ => Raise (Exception ("'" +:+ name +:+ "'"))
  end.

Definition set_users (users : gmap string user) (w : world) : world :=
  {| self_users := users; self_rosters := self_rosters w;
     self_matchups := self_matchups w; self_db := self_db w;
     console := console w; requested := requested w |}.

Definition set_rosters (rosters : gmap Z roster) (w : world) : world :=
  {| self_users := self_users w; self_rosters := rosters;
     self_matchups := self_matchups w; self_db := self_db w;
     console := console w; requested := requested w |}.

Definition fetch_users (r : reply (list (option string * user)))
  : M (gmap string user) := λ w,
  let w := print (Text "Fetching users...") w in
  match r with
  | NoResponse e => (Raise e, w)
  | Response _ (Raise e) => (Raise e, w)
  | Response _ (Ret users_list) =>
      match index_by "user_id" users_list ∅ with
      | Raise e => (Raise e, w)
      | Ret users => (Ret users, set_users users w)
      end
  end.

Definition fetch_rosters (r : reply (list (option Z * roster)))
  : M (gmap Z roster) := λ w,
  let w := print (Text "Fetching rosters...") w in
  match r with
  | NoResponse e => (Raise e, w)
  | Response _ (Raise e) => (Raise e, w)
  | Response _ (Ret rosters_list) =>
      match index_by "roster_id" rosters_list ∅ with
      | Raise e => (Raise e, w)
      | Ret rosters => (Ret rosters, set_rosters rosters w)
      end
  end.

(** [try: body / except: handler], the bare [except] that also catches
    [KeyboardInterrupt] *)
Definition try_except_all {A} (body : M A) (handler : M A) : M A := λ w,
  match body w with
  | (Raise _, w') => handler w'
  | r => r
  end.

(** The body of a player lookup: [None] is a body that is no object (its
    [.get] raises), [Some None] an object without [full_name], and
    [Some (Some v)] an object with the JSON value [v] under [full_name];
    [str] is the Python string as such a value. *)
Definition get_player_name {V} (str : string → V)
    (r : reply (option (option V))) (player_id : string) : M V :=
  try_except_all
    (match r with
     | NoResponse e => raise e
     | Response _ (Raise e) => raise e
     | Response _ (Ret None) =>
         raise (Exception "'NoneType' object has no attribute 'get'")
     | Response _ (Ret (Some full_name)) =>
         ret (default (str ("Player_" +:+ player_id)) full_name)
     end)
    (ret (str ("Player_" +:+ player_id))).

(** ** More of the small league *)

Module SampleX.
(** Two players with the same score, a third below. *)
Definition tied_players : Entry.t :=
  Sample.entry 1 (Some 1) (Some 40%Q) (Some ["p3"; "p1"; "p2"; "p1"])
    (Some {[ "p1" := 20%Q; "p2" := 20%Q; "p3" := 5%Q ]}).

(** Rosters 4 and 5 have no metadata team name. *)
Definition orphan_4 : Entry.t := Sample.entry 4 None (Some 10%Q) None None.
Definition orphan_5 : Entry.t := Sample.entry 5 None (Some 10%Q) None None.


(** Two records of one matchup with the same points. *)
Definition dead_heat : list matchup_record :=
  normalize Sample.users Sample.rosters 8
    <$> [Sample.entry 1 (Some 1) (Some 99%Q) None None;
         Sample.entry 2 (Some 1) (Some 99%Q) None None].
End SampleX.

(** * Properties *)

(** ** Dictionaries *)

Section PyDictFacts.
Context {K V : Type} `{EqDecision K}.
Implicit Types (d : PyDict.t K V) (k : K) (v : V).

Lemma get_set_eq d k v : PyDict.get k (PyDict.set k v d) = Some v.
Proof.
  induction d as [|[k' v'] d IH]; simpl.
  - by rewrite decide_True.
  - destruct (decide (k = k')) as [->|Hne]; simpl.
    + by rewrite decide_True.
    + by rewrite decide_False.
Qed.

Lemma get_set_ne d k k' v :
  k ≠ k' → PyDict.get k' (PyDict.set k v d) = PyDict.get k' d.
Proof.
  intros Hne. induction d as [|[k0 v0] d IH]; simpl.
  - rewrite decide_False; [done | congruence].
  - destruct (decide (k = k0)) as [->|Hk0]; simpl.
    + rewrite !decide_False; [done | congruence | congruence].
    + by rewrite IH.
Qed.

Lemma get_set d k k' v :
  PyDict.get k' (PyDict.set k v d)
  = if decide (k = k') then Some v else PyDict.get k' d.
Proof.
  destruct (decide (k = k')) as [->|Hne];
    [apply get_set_eq | by apply get_set_ne].
Qed.

Lemma keys_set d k v :
  PyDict.keys (PyDict.set k v d)
  = if decide (k ∈ PyDict.keys d) then PyDict.keys d
    else PyDict.keys d ++ [k].
Proof.
  unfold PyDict.keys. induction d as [|[k' v'] d IH].
  - case_decide as Hin; [by apply elem_of_nil in Hin | done].
  - cbn [PyDict.set]. destruct (decide (k = k')) as [->|Hne].
    + rewrite decide_True; [done | rewrite fmap_cons; left].
    + rewrite fmap_cons, IH, fmap_cons. cbn [fst].
      destruct (decide (k ∈ d.*1)) as [Hin|Hnin].
      * rewrite decide_True; [done | by right].
      * rewrite decide_False; [done |].
        intros Hin. apply elem_of_cons in Hin as [?|?]; done.
Qed.

Lemma NoDup_keys_set d k v :
  NoDup (PyDict.keys d) → NoDup (PyDict.keys (PyDict.set k v d)).
Proof.
  intros Hd. rewrite keys_set. case_decide; [done |].
  apply NoDup_app. split_and!; [done | | apply NoDup_singleton].
  intros x Hx Hx'. apply list_elem_of_singleton in Hx'. by subst.
Qed.

Lemma get_Some_elem_of d k v : PyDict.get k d = Some v → (k, v) ∈ d.
Proof.
  induction d as [|[k' v'] d IH]; simpl; [done |].
  case_decide; [intros [= ->]; subst; left | intros; right; auto].
Qed.

Lemma elem_of_get_Some d k v :
  NoDup (PyDict.keys d) → (k, v) ∈ d → PyDict.get k d = Some v.
Proof.
  unfold PyDict.keys. induction d as [|[k' v'] d IH]; simpl.
  - intros _ Hin. by apply elem_of_nil in Hin.
  - intros Hnd Hin. apply NoDup_cons in Hnd as [Hk' Hnd].
    apply elem_of_cons in Hin as [[= -> ->]|Hin].
    + by rewrite decide_True.
    + rewrite decide_False; [auto |].
      intros ->. apply Hk'. apply list_elem_of_fmap. by exists (k', v).
Qed.

Lemma get_is_Some_keys d k : is_Some (PyDict.get k d) ↔ k ∈ PyDict.keys d.
Proof.
  unfold PyDict.keys. induction d as [|[k' v'] d IH]; simpl.
  - split; [by intros [? ?] | intros Hin; by apply elem_of_nil in Hin].
  - case_decide as Hk.
    + subst. split; [intros _; left | eauto].
    + rewrite IH. split; [by right |].
      intros Hin. apply elem_of_cons in Hin as [?|?]; done.
Qed.

(** [d.update(other)]: the other dict's binding wins. *)
Lemma get_update d other k :
  NoDup (PyDict.keys other) →
  PyDict.get k (PyDict.update d other)
  = match PyDict.get k other with
    | Some v => Some v
    | None => PyDict.get k d
    end.
Proof.
  unfold PyDict.update, PyDict.keys. revert d.
  induction other as [|[k' v'] other IH]; intros d Hnd; [done |].
  simpl in *. apply NoDup_cons in Hnd as [Hk' Hnd]. rewrite IH by done.
  destruct (decide (k = k')) as [->|Hne].
  - destruct (PyDict.get k' other) as [v|] eqn:Hg.
    + exfalso. apply Hk'. apply get_is_Some_keys. eauto.
    + apply get_set_eq.
  - rewrite get_set_ne by congruence. done.
Qed.
End PyDictFacts.

(** ** The normaliser *)

Lemma Qltb_lt a b : Qltb a b = true ↔ (a < b)%Q.
Proof.
  unfold Qltb. rewrite negb_true_iff, <- not_true_iff_false, Qle_bool_iff.
  split; [apply Qnot_le_lt | apply Qlt_not_le].
Qed.

Lemma max_from_spec {K} (key : K → Q) best l :
  max_from key best l ∈ best :: l
  ∧ ∀ k, k ∈ best :: l → (key k <= key (max_from key best l))%Q.
Proof.
  revert best. induction l as [|x l IH]; intros best; simpl.
  - split; [left |]. intros k Hk. apply list_elem_of_singleton in Hk as ->.
    apply Qle_refl.
  - destruct (IH (if Qltb (key best) (key x) then x else best)) as [Hin Hmax].
    split.
    + apply elem_of_cons in Hin as [->|Hin].
      * destruct (Qltb (key best) (key x)); [right; left | left].
      * by do 2 right.
    + intros k Hk.
      assert (Hb : (key best <= key (if Qltb (key best) (key x) then x else best))%Q
                   ∧ (key x <= key (if Qltb (key best) (key x) then x else best))%Q).
      { destruct (Qltb (key best) (key x)) eqn:Hlt.
        - apply Qltb_lt in Hlt. split; [by apply Qlt_le_weak | apply Qle_refl].
        - split; [apply Qle_refl |].
          apply not_true_iff_false in Hlt. rewrite Qltb_lt in Hlt.
          by apply Qnot_lt_le. }
      destruct Hb as [Hb Hx].
      apply elem_of_cons in Hk as [->|Hk].
      * eapply Qle_trans; [exact Hb | apply Hmax; left].
      * apply elem_of_cons in Hk as [->|Hk].
        -- eapply Qle_trans; [exact Hx | apply Hmax; left].
        -- apply Hmax. by right.
Qed.

Section NormalizerFacts.
Variable users : gmap string user.
Variable rosters : gmap Z roster.
Variable m : Entry.t.

Local Abbreviation step := (add_player_score m).

Lemma collect_fold (l : list string) (acc : PyDict.t string Q) p s :
  (∀ q t, PyDict.get q acc = Some t → t = player_score m q) →
  PyDict.get p (foldl step acc l) = Some s
  ↔ PyDict.get p acc = Some s
    ∨ (p ∈ l ∧ (0 < player_score m p)%Q ∧ s = player_score m p).
Proof.
  revert acc. induction l as [|x l IH]; intros acc Hacc; simpl.
  - split; [by left | intros [?|[Hin _]]; [done | by apply elem_of_nil in Hin]].
  - rewrite IH.
    + unfold add_player_score. destruct (Qltb 0 (player_score m x)) eqn:Hpos.
      * apply Qltb_lt in Hpos. rewrite get_set.
        destruct (decide (x = p)) as [->|Hne].
        -- split.
           ++ intros [[= <-]|(? & ? & ?)]; right; split_and!; auto; left.
           ++ intros [Hg|(Hin & ? & ->)]; [left | by left].
              by rewrite (Hacc _ _ Hg).
        -- split.
           ++ intros [?|(? & ? & ?)]; [by left | right; split_and!; auto; by right].
           ++ intros [?|(Hin & ? & ?)]; [by left |].
              apply elem_of_cons in Hin as [->|Hin]; [done | by right].
      * apply not_true_iff_false in Hpos. rewrite Qltb_lt in Hpos. split.
        -- intros [?|(? & ? & ?)]; [by left | right; split_and!; auto; by right].
        -- intros [?|(Hin & ? & ?)]; [by left |].
           apply elem_of_cons in Hin as [->|Hin]; [done | by right].
    + intros q t. unfold add_player_score. destruct (Qltb 0 (player_score m x)); [|apply Hacc].
      rewrite get_set. case_decide; [by intros [= <-]; subst | apply Hacc].
Qed.

Lemma collect_NoDup (l : list string) (acc : PyDict.t string Q) :
  NoDup (PyDict.keys acc) → NoDup (PyDict.keys (foldl step acc l)).
Proof.
  revert acc. induction l as [|x l IH]; intros acc Hacc; simpl; [done |].
  apply IH. unfold add_player_score. destruct (Qltb 0 (player_score m x)); [|done].
  by apply NoDup_keys_set.
Qed.

Lemma has_score_player_score p s :
  has_score m p s → player_score m p = s.
Proof.
  intros (pp & Hpp & Hs). unfold player_score. rewrite Hpp. simpl.
  by rewrite Hs.
Qed.

Lemma player_score_pos p :
  (0 < player_score m p)%Q → has_score m p (player_score m p).
Proof.
  unfold player_score, has_score.
  destruct (Entry.players_points m) as [pp|]; simpl.
  - destruct (pp !! p) as [s|] eqn:Hs; simpl; [by exists pp |].
    intros H. by apply Qlt_irrefl in H.
  - rewrite lookup_empty. simpl. intros H. by apply Qlt_irrefl in H.
Qed.

Lemma included_player_score p :
  included m p
  ↔ p ∈ default [] (Entry.players m) ∧ (0 < player_score m p)%Q.
Proof.
  unfold included. split.
  - intros (Hin & s & Hs & Hpos). split; [done |].
    by rewrite (has_score_player_score _ _ Hs).
  - intros (Hin & Hpos). split; [done |].
    exists (player_score m p). split; [by apply player_score_pos | done].
Qed.

Lemma get_collect p s :
  PyDict.get p (collect_player_scores m) = Some s
  ↔ (p ∈ default [] (Entry.players m) ∧ (0 < player_score m p)%Q)
    ∧ s = player_score m p.
Proof.
  unfold collect_player_scores.
  rewrite (collect_fold _ [] p s) by done. simpl.
  split; [intros [?|(? & ? & ?)]; [done | by split_and!] | intros [[? ?] ?]; by right].
Qed.

(** What the mapping holds, read off the entry. *)
Lemma get_collect_entry p s :
  PyDict.get p (collect_player_scores m) = Some s
  ↔ p ∈ default [] (Entry.players m) ∧ has_score m p s ∧ (0 < s)%Q.
Proof.
  rewrite get_collect. split.
  - intros [[Hin Hpos] ->]. split_and!; [done | by apply player_score_pos | done].
  - intros (Hin & Hs & Hpos).
    rewrite (has_score_player_score _ _ Hs). by split_and!.
Qed.

Lemma NoDup_collect : NoDup (PyDict.keys (collect_player_scores m)).
Proof. apply collect_NoDup. constructor. Qed.
End NormalizerFacts.

(** C3: the score mapping of a normalised record holds exactly the listed
    players whose score in [players_points] is strictly positive, each with
    that score and once; when there is such a player the top scorer is one
    of them with the largest score; when there is none, [top_player_id] is
    [None] and [top_player_score] is 0. *)
Theorem normalize_player_scores users rosters wk m :
  let r := normalize users rosters wk m in
  (∀ p s, PyDict.get p (players_json r) = Some s
          ↔ p ∈ default [] (Entry.players m) ∧ has_score m p s ∧ (0 < s)%Q)
  ∧ (∀ p s, (p, s) ∈ players_json r ↔ PyDict.get p (players_json r) = Some s)
  ∧ NoDup (PyDict.keys (players_json r))
  ∧ ((∃ p, included m p) →
       ∃ top, top_player_id r = Some top
              ∧ included m top
              ∧ has_score m top (top_player_score r)
              ∧ ∀ p s, included m p → has_score m p s →
                       (s <= top_player_score r)%Q)
  ∧ ((∀ p, ¬ included m p) →
       top_player_id r = None ∧ top_player_score r = 0%Q
       ∧ players_json r = []).
Proof.
  intros r. subst r. cbn [players_json top_player_id top_player_score normalize].
  set (ps := collect_player_scores m).
  assert (Hget : ∀ p s, PyDict.get p ps = Some s
                        ↔ p ∈ default [] (Entry.players m)
                          ∧ has_score m p s ∧ (0 < s)%Q)
    by apply get_collect_entry.
  assert (Hnd : NoDup (PyDict.keys ps)) by apply NoDup_collect.
  split_and!; [done | | done | |].
  - intros p s. split; [by apply elem_of_get_Some | apply get_Some_elem_of].
  - intros (p & Hp & sp & Hsp & Hpos).
    assert (Hkey : p ∈ PyDict.keys ps).
    { apply get_is_Some_keys. exists sp. by apply Hget. }
    destruct (PyDict.keys ps) as [|k ks] eqn:Hks; [by apply elem_of_nil in Hkey |].
    cbn [py_max].
    set (key := λ k0, default 0%Q (PyDict.get k0 ps)).
    destruct (max_from_spec key k ks) as [Hin Hmax].
    assert (Hval : ∀ q, q ∈ k :: ks →
              q ∈ default [] (Entry.players m)
              ∧ has_score m q (key q) ∧ (0 < key q)%Q).
    { intros q Hq. rewrite <- Hks in Hq. apply get_is_Some_keys in Hq as [s Hs].
      unfold key. rewrite Hs. by apply Hget in Hs. }
    exists (max_from key k ks).
    destruct (Hval _ Hin) as (Hlisted & Hscore & Hpos').
    split_and!; [done | | exact Hscore |].
    + split; [done |]. by exists (key (max_from key k ks)).
    + intros q s (Hq & _) Hs. fold (key (max_from key k ks)).
      destruct (Qlt_le_dec 0 s) as [Hs0|Hs0].
      * assert (Hg : PyDict.get q ps = Some s) by by apply Hget.
        assert (Hqk : q ∈ k :: ks).
        { rewrite <- Hks. apply get_is_Some_keys. by exists s. }
        specialize (Hmax q Hqk). unfold key in Hmax at 1.
        by rewrite Hg in Hmax.
      * apply Qlt_le_weak in Hpos'. by eapply Qle_trans.
  - intros Hnone.
    assert (Hnil : ps = []).
    { destruct ps as [|[p s] ps'] eqn:Hps; [done |].
      exfalso. apply (Hnone p).
      assert (Hg : PyDict.get p ps = Some s)
        by (rewrite Hps; simpl; by rewrite decide_True).
      rewrite <- Hps in Hget. apply Hget in Hg as (? & ? & ?).
      split; [done | by exists s]. }
    rewrite Hnil. done.
Qed.

(** C4: the team name of a normalised record is the metadata team name when
    there is one, and [Team_<roster_id>] in every other case: no roster
    record, a roster without an owner or whose owner is no user, a user
    without metadata or whose metadata has no team name. *)
Theorem normalize_team_name users rosters wk m :
  let rid := Entry.roster_id m in
  let name := team_name (normalize users rosters wk m) in
  let synthetic := "Team_" +:+ pretty rid in
  (∀ t, metadata_team_name users rosters rid t → name = t)
  ∧ ((∀ t, ¬ metadata_team_name users rosters rid t) → name = synthetic)
  ∧ (rosters !! rid = None → name = synthetic)
  ∧ (∀ r, rosters !! rid = Some r → owner_id r = None → name = synthetic)
  ∧ (∀ r o, rosters !! rid = Some r → owner_id r = Some o →
            users !! o = None → name = synthetic)
  ∧ (∀ r o u, rosters !! rid = Some r → owner_id r = Some o →
              users !! o = Some u → metadata u = None → name = synthetic)
  ∧ (∀ r o u md, rosters !! rid = Some r → owner_id r = Some o →
                 users !! o = Some u → metadata u = Some md →
                 md !! "team_name" = None → name = synthetic).
Proof.
  intros rid name synthetic. subst name synthetic.
  cbn [team_name normalize]. fold rid. unfold resolve_team_name.
  split_and!.
  - intros t (r & o & u & md & Hr & Ho & Hu & Hmd & Ht).
    rewrite Hr; simpl; rewrite Ho; simpl; rewrite Hu; simpl.
    rewrite Hmd; simpl. by rewrite Ht.
  - intros Hnone. destruct (rosters !! rid) as [r|] eqn:Hr; simpl; [|done].
    destruct (owner_id r) as [o|] eqn:Ho; simpl; [|done].
    destruct (users !! o) as [u|] eqn:Hu; simpl; [|done].
    destruct (metadata u) as [md|] eqn:Hmd; simpl; [|done].
    destruct (md !! "team_name") as [t|] eqn:Ht; simpl; [|done].
    exfalso. apply (Hnone t). by exists r, o, u, md.
  - by intros ->.
  - intros r Hr Ho. rewrite Hr; simpl. by rewrite Ho.
  - intros r o Hr Ho Hu. rewrite Hr; simpl; rewrite Ho; simpl. by rewrite Hu.
  - intros r o u Hr Ho Hu Hmd.
    rewrite Hr; simpl; rewrite Ho; simpl; rewrite Hu; simpl. by rewrite Hmd.
  - intros r o u md Hr Ho Hu Hmd Ht.
    rewrite Hr; simpl; rewrite Ho; simpl; rewrite Hu; simpl.
    rewrite Hmd; simpl. by rewrite Ht.
Qed.

(** C10: an entry without a [points] field still gets its record in
    [matchup_records], and that record's points are 0. *)
Theorem normalize_points_default users rosters
    (matchups : PyDict.t Z (list Entry.t)) wk entries m :
  (wk, entries) ∈ matchups → m ∈ entries → Entry.points m = None →
  let r := normalize users rosters wk m in
  r ∈ matchup_records users rosters matchups
  ∧ points r = 0%Q
  ∧ week r = wk ∧ roster_id r = Entry.roster_id m.
Proof.
  intros Hwk Hm Hp r. subst r. split_and!; [| by cbn; rewrite Hp | done | done].
  unfold matchup_records. apply list_elem_of_bind.
  exists (wk, entries). split; [|done]. simpl. by apply list_elem_of_fmap_2.
Qed.


(** ** Relational operators *)

Section ListFacts.
Context {A B : Type}.

Lemma filter_fmap (f : A → B) (P : B → Prop) `{!∀ b, Decision (P b)}
    (l : list A) :
  filter P (f <$> l) = f <$> filter (λ a, P (f a)) l.
Proof.
  induction l as [|a l IH]; [done |].
  rewrite fmap_cons, !filter_cons, IH. by case_decide.
Qed.

Lemma filter_bind (f : A → list B) (P : B → Prop) `{!∀ b, Decision (P b)}
    (l : list A) :
  filter P (l ≫= f) = l ≫= (λ a, filter P (f a)).
Proof.
  induction l as [|a l IH]; [done |].
  by rewrite !bind_cons, filter_app, IH.
Qed.

Lemma filter_all (P : A → Prop) `{!∀ a, Decision (P a)} (l : list A) :
  Forall P l → filter P l = l.
Proof.
  induction 1 as [|a l Ha _ IH]; [done |].
  by rewrite filter_cons, decide_True, IH.
Qed.

Lemma filter_none (P : A → Prop) `{!∀ a, Decision (P a)} (l : list A) :
  Forall (λ a, ¬ P a) l → filter P l = [].
Proof.
  induction 1 as [|a l Ha _ IH]; [done |].
  by rewrite filter_cons, decide_False, IH.
Qed.

Lemma bind_select `{EqDecision A} (g : A → list B) (k : A) (ks : list A) :
  NoDup ks →
  ks ≫= (λ k', if decide (k' = k) then g k' else [])
  = if decide (k ∈ ks) then g k else [].
Proof.
  induction 1 as [|k' ks Hk' _ IH].
  - by rewrite decide_False by apply not_elem_of_nil.
  - rewrite bind_cons, IH. cbv beta.
    destruct (decide (k' = k)) as [->|Hne].
    + cbv iota. rewrite (decide_False (P := k ∈ ks)) by done.
      rewrite (decide_True (P := k ∈ k :: ks)) by left.
      apply app_nil_r.
    + simpl. destruct (decide (k ∈ ks)) as [Hin|Hnin].
      * rewrite decide_True; [done | by right].
      * rewrite decide_False; [done |].
        intros Hin. apply elem_of_cons in Hin as [?|?]; congruence.
Qed.
End ListFacts.

Section NumberFacts.
Context {A : Type}.
Implicit Types (l : list A) (n : Z).

Lemma number_from_fst n l : (number_from n l).*1 = l.
Proof. revert n. induction l as [|a l IH]; intros n; simpl; [done | by rewrite IH]. Qed.

Lemma number_from_snd n l : (number_from n l).*2 = seqZ n (Z.of_nat (length l)).
Proof.
  revert n. induction l as [|a l IH]; intros n; [done |].
  cbn [number_from length]. rewrite fmap_cons, seqZ_cons by lia.
  rewrite IH. simpl. do 2 f_equal; lia.
Qed.

Lemma length_number_from n l : length (number_from n l) = length l.
Proof. revert n. induction l as [|a l IH]; intros n; simpl; [done | by rewrite IH]. Qed.

Lemma number_from_ge n l a k : (a, k) ∈ number_from n l → n ≤ k.
Proof.
  revert n. induction l as [|x l IH]; intros n Hin; simpl in Hin.
  - by apply elem_of_nil in Hin.
  - apply elem_of_cons in Hin as [[= -> ->]|Hin]; [lia |].
    apply IH in Hin. lia.
Qed.

Lemma number_from_elem n l a k : (a, k) ∈ number_from n l → a ∈ l.
Proof.
  intros Hin. rewrite <- (number_from_fst n l).
  apply list_elem_of_fmap. by exists (a, k).
Qed.

(** Only the first row of the window gets number 1. *)
Lemma row_number_first x l :
  filter (λ rr : A * Z, rr.2 = 1) (row_number (x :: l)) = [(x, 1)].
Proof.
  unfold row_number. cbn [number_from].
  rewrite filter_cons, decide_True by done. f_equal.
  apply filter_none. apply Forall_forall. intros [a k] Hin.
  apply number_from_ge in Hin. simpl. lia.
Qed.

Lemma number_from_sorted {B} (R : relation A) (R' : relation B)
    (f : A * Z → B) n l :
  (∀ a b i j, R a b → R' (f (a, i)) (f (b, j))) →
  StronglySorted R l → StronglySorted R' (f <$> number_from n l).
Proof.
  intros Hf Hl. revert n. induction Hl as [|a l Hl IH Ha]; intros n.
  - constructor.
  - cbn [number_from]. rewrite fmap_cons. constructor; [apply IH |].
    apply Forall_forall. intros b Hb.
    apply list_elem_of_fmap in Hb as [[a' k] [-> Hin]].
    apply Hf. rewrite Forall_forall in Ha. apply Ha.
    by apply number_from_elem in Hin.
Qed.
End NumberFacts.

Section GroupFacts.
Context {A K : Type} `{EqDecision K}.
Variable key : A → K.

Lemma elem_of_group_by (l : list A) (g : K * list A) :
  g ∈ group_by key l
  ↔ g.1 ∈ key <$> l ∧ g.2 = filter (λ a, key a = g.1) l.
Proof.
  unfold group_by. rewrite list_elem_of_fmap. split.
  - intros (k & -> & Hk). simpl. split; [|done].
    by rewrite elem_of_remove_dups in Hk.
  - intros [Hk Hg]. exists g.1. split.
    + destruct g; simpl in *; by subst.
    + by apply elem_of_remove_dups.
Qed.

Lemma group_nonempty (l : list A) (k : K) :
  k ∈ key <$> l → filter (λ a, key a = k) l ≠ [].
Proof.
  intros Hk Hnil. apply list_elem_of_fmap in Hk as (a & -> & Ha).
  by eapply filter_nil_not_elem_of.
Qed.

(** The rows of one partition of a window, numbered in window order. *)
Lemma partition_of_row_number_over (R : relation A) `{!RelDecision R}
    (l : list A) (k : K) :
  filter (λ rr : A * Z, key rr.1 = k) (row_number_over key R l)
  = if decide (k ∈ key <$> l)
    then row_number (merge_sort R (filter (λ a, key a = k) l))
    else [].
Proof.
  unfold row_number_over, group_by. rewrite list_fmap_bind, filter_bind.
  set (G := λ k', row_number (merge_sort R (filter (λ a, key a = k') l))).
  trans (remove_dups (key <$> l) ≫= (λ k', if decide (k' = k) then G k' else [])).
  - apply list_bind_ext; [|done]. intros k'. simpl. fold (G k').
    assert (Hall : Forall (λ rr : A * Z, key rr.1 = k') (G k')).
    { apply Forall_forall. intros [a i] Hin. simpl.
      apply number_from_elem in Hin.
      rewrite merge_sort_Permutation in Hin.
      by apply list_elem_of_filter in Hin as [? _]. }
    destruct (decide (k' = k)) as [->|Hne].
    + by apply filter_all.
    + apply filter_none. eapply Forall_impl; [exact Hall |].
      simpl. intros rr -> ?. done.
  - rewrite bind_select by apply NoDup_remove_dups.
    apply decide_ext, elem_of_remove_dups.
Qed.
End GroupFacts.

Section Orders.
Context {A : Type} (f : A → Q).

Global Instance desc_by_total : Total (desc_by f).
Proof.
  intros a b. unfold desc_by.
  destruct (Qlt_le_dec (f a) (f b)); [right; by apply Qlt_le_weak | by left].
Qed.

Global Instance desc_by_trans : Transitive (desc_by f).
Proof. intros a b c Hab Hbc. unfold desc_by in *. by eapply Qle_trans. Qed.

Global Instance asc_by_total : Total (asc_by f).
Proof.
  intros a b. unfold asc_by.
  destruct (Qlt_le_dec (f a) (f b)); [left; by apply Qlt_le_weak | by right].
Qed.

Global Instance asc_by_trans : Transitive (asc_by f).
Proof. intros a b c Hab Hbc. unfold asc_by in *. by eapply Qle_trans. Qed.
End Orders.

(** ** The matchups table *)

Lemma matchups_table_partition raw (k : Z * option Z) :
  filter (λ r : matchups_row, partition_key r = k) (matchups_table raw)
  = if decide (k ∈ partition_key <$> raw)
    then with_rank <$> row_number
           (merge_sort (desc_by points) (filter (λ r, partition_key r = k) raw))
    else [].
Proof.
  unfold matchups_table.
  rewrite (filter_fmap with_rank (λ r : matchups_row, partition_key r = k)).
  trans (with_rank <$> filter (λ rr : matchup_record * Z, partition_key rr.1 = k)
                         (ranked_matchups raw)); [done |].
  unfold ranked_matchups. rewrite partition_of_row_number_over.
  by case_decide.
Qed.

(** A record is of the partition [(wk, mid)] when its week is [wk] and
    its matchup id [mid]. *)
Lemma partition_key_fields (r : matchup_record) (wk : Z) (mid : option Z) :
  partition_key r = (wk, mid) ↔ week r = wk ∧ matchup_id r = mid.
Proof.
  unfold partition_key. split; [by intros [= -> ->] | by intros [-> ->]].
Qed.

(** The rows of one partition: the records of that week and matchup id,
    in descending order of points, numbered from 1. *)
Lemma partition_ranked (raw : list matchup_record)
    (wk : Z) (mid : option Z) :
  let part := filter (λ r : matchups_row, partition_key r = (wk, mid))
                     (matchups_table raw) in
  part ≠ [] →
  length (filter (λ r, won r = 1) part) = 1%nat
  ∧ (∀ r, r ∈ part →
       (won r = 1 ↔ rank_in_matchup r = 1) ∧ (won r = 1 ∨ won r = 0))
  ∧ rank_in_matchup <$> part = seqZ 1 (Z.of_nat (length part))
  ∧ StronglySorted (desc_by points) (rec <$> part)
  ∧ rec <$> part ≡ₚ filter (λ r, partition_key r = (wk, mid)) raw
  ∧ (∀ r r' : matchups_row,
       r ∈ part → r' ∈ part → won r = 1 → (points r' <= points r)%Q).
Proof.
  intros part Hne. subst part. revert Hne.
  rewrite matchups_table_partition. case_decide as Hk; [intros _ | done].
  set (sorted := merge_sort (desc_by points)
                   (filter (λ r, partition_key r = (wk, mid)) raw)).
  assert (Hperm : sorted ≡ₚ filter (λ r, partition_key r = (wk, mid)) raw)
    by apply merge_sort_Permutation.
  assert (Hsorted : StronglySorted (desc_by points) sorted)
    by apply (StronglySorted_merge_sort _).
  assert (Hrec : rec <$> (with_rank <$> row_number sorted) = sorted).
  { rewrite <- list_fmap_compose.
    rewrite <- (number_from_fst 1 sorted) at 2. done. }
  assert (Hrank : rank_in_matchup <$> (with_rank <$> row_number sorted)
                  = seqZ 1 (Z.of_nat (length sorted))).
  { rewrite <- list_fmap_compose. rewrite <- number_from_snd. done. }
  assert (Hwon : ∀ r, r ∈ with_rank <$> row_number sorted →
            (won r = 1 ↔ rank_in_matchup r = 1) ∧ (won r = 1 ∨ won r = 0)).
  { intros r Hr. apply list_elem_of_fmap in Hr as ([a i] & -> & _).
    unfold with_rank. simpl.
    case_bool_decide; (split; [split; intros; (done || lia) | auto]). }
  destruct sorted as [|x sorted'] eqn:Hs.
  { exfalso. apply (group_nonempty partition_key raw (wk, mid) Hk).
    symmetry in Hperm. by apply Permutation_nil_r in Hperm. }
  assert (Hfirst : filter (λ r : matchups_row, won r = 1)
                     (with_rank <$> row_number (x :: sorted'))
                   = [with_rank (x, 1)]).
  { rewrite (filter_fmap with_rank (λ r : matchups_row, won r = 1)).
    trans (with_rank <$> filter (λ rr : matchup_record * Z, rr.2 = 1)
                           (row_number (x :: sorted'))).
    - f_equal. apply list_filter_iff. intros [a i]. unfold with_rank. simpl.
      case_bool_decide; split; intros; (done || lia).
    - by rewrite row_number_first. }
  split_and!.
  - by rewrite Hfirst.
  - exact Hwon.
  - rewrite Hrank, !length_fmap. unfold row_number.
    by rewrite length_number_from.
  - by rewrite Hrec.
  - by rewrite Hrec.
  - intros r r' Hr Hr' Hw.
    assert (Hrx : r ∈ [with_rank (x, 1)]).
    { rewrite <- Hfirst. by apply list_elem_of_filter. }
    apply list_elem_of_singleton in Hrx as ->. simpl.
    assert (Hin : rec r' ∈ x :: sorted').
    { rewrite <- Hrec. by apply list_elem_of_fmap_2. }
    apply StronglySorted_inv in Hsorted as [_ Hall].
    apply elem_of_cons in Hin as [->|Hin]; [apply Qle_refl |].
    rewrite Forall_forall in Hall. by apply Hall.
Qed.

(** C1: in every (week, matchup_id) partition present in the built table,
    exactly one row has [won = 1]; a row has [won = 1] exactly when its
    [rank_in_matchup] is 1; the ranks number the partition's records, put in
    descending order of points, from 1 on; and the winner's points are the
    largest of the partition. *)
Theorem one_winner_per_partition (raw : list matchup_record)
    (wk : Z) (mid : option Z) :
  let part := filter (λ r : matchups_row, week r = wk ∧ matchup_id r = mid)
                     (matchups_table raw) in
  part ≠ [] →
  length (filter (λ r, won r = 1) part) = 1%nat
  ∧ (∀ r, r ∈ part →
       (won r = 1 ↔ rank_in_matchup r = 1) ∧ (won r = 1 ∨ won r = 0))
  ∧ rank_in_matchup <$> part = seqZ 1 (Z.of_nat (length part))
  ∧ StronglySorted (desc_by points) (rec <$> part)
  ∧ rec <$> part
    ≡ₚ filter (λ r, week r = wk ∧ matchup_id r = mid) raw
  ∧ (∀ r r' : matchups_row,
       r ∈ part → r' ∈ part → won r = 1 → (points r' <= points r)%Q).
Proof.
  assert (Ht : filter (λ r : matchups_row, week r = wk ∧ matchup_id r = mid)
                 (matchups_table raw)
               = filter (λ r : matchups_row, partition_key r = (wk, mid))
                   (matchups_table raw)).
  { apply list_filter_iff. intros r. symmetry. apply partition_key_fields. }
  assert (Hr : filter (λ r, week r = wk ∧ matchup_id r = mid) raw
               = filter (λ r, partition_key r = (wk, mid)) raw).
  { apply list_filter_iff. intros r. symmetry. apply partition_key_fields. }
  cbv zeta. rewrite Ht, Hr. apply partition_ranked.
Qed.


(** ** Top and bottom ten *)

Lemma StronglySorted_take {A} (R : relation A) (n : nat) (l : list A) :
  StronglySorted R l → StronglySorted R (take n l).
Proof.
  intros Hl. rewrite <- (take_drop n l) in Hl.
  by apply StronglySorted_app_1_l in Hl.
Qed.

Section RankedScores.
Variable R : relation matchups_row.
Context `{!RelDecision R}.
Variable t : list matchups_row.

Let result : list ranked_score :=
  limit 10 (to_ranked_score <$> row_number (merge_sort R t)).

Lemma length_ranked_scores : length result = Nat.min (length t) 10.
Proof.
  unfold result, limit, row_number.
  rewrite length_take, length_fmap, length_number_from.
  rewrite (Permutation_length (merge_sort_Permutation R t)). lia.
Qed.

Lemma ranked_scores_sorted (R' : relation ranked_score) :
  Transitive R → Total R →
  (∀ a b i j, R a b → R' (to_ranked_score (a, i)) (to_ranked_score (b, j))) →
  StronglySorted R' result.
Proof.
  intros ? ? HR. apply StronglySorted_take.
  apply (number_from_sorted R R'); [done |].
  by apply StronglySorted_merge_sort.
Qed.

Lemma ranked_scores_from_table :
  Forall (λ a, ∃ r : matchups_row,
            r ∈ t ∧ rs_team_name a = team_name r ∧ rs_week a = week r
            ∧ rs_points a = points r) result.
Proof.
  apply Forall_forall. intros a Ha. unfold result, limit in Ha.
  apply subseteq_take, list_elem_of_fmap in Ha as ([r k] & -> & Hin).
  apply number_from_elem in Hin. rewrite merge_sort_Permutation in Hin.
  by exists r.
Qed.
End RankedScores.

(** C5: the top-10 query returns min(n, 10) rows in non-increasing order of
    points, the bottom-10 query min(n, 10) rows in non-decreasing order of
    points; every returned row is a row of the table. *)
Theorem top_10_and_bottom_10 (t : list matchups_row) :
  let from_table := λ a, ∃ r : matchups_row,
        r ∈ t ∧ rs_team_name a = team_name r ∧ rs_week a = week r
        ∧ rs_points a = points r in
  length (stat_2_query t) = Nat.min (length t) 10
  ∧ StronglySorted (desc_by rs_points) (stat_2_query t)
  ∧ Forall from_table (stat_2_query t)
  ∧ length (stat_3b_query t) = Nat.min (length t) 10
  ∧ StronglySorted (asc_by rs_points) (stat_3b_query t)
  ∧ Forall from_table (stat_3b_query t).
Proof.
  intros from_table. split_and!.
  - apply length_ranked_scores.
  - apply ranked_scores_sorted; [apply _ | apply _ | by intros a b i j].
  - apply ranked_scores_from_table.
  - apply length_ranked_scores.
  - apply ranked_scores_sorted; [apply _ | apply _ | by intros a b i j].
  - apply ranked_scores_from_table.
Qed.

(** ** Aggregates *)

Lemma foldl_Qmin_le (x : Q) (l : list Q) :
  (foldl Qmin x l <= x)%Q ∧ Forall (λ y, (foldl Qmin x l <= y)%Q) l.
Proof.
  revert x. induction l as [|y l IH]; intros x; simpl.
  - split; [apply Qle_refl | constructor].
  - destruct (IH (Qmin x y)) as [Hhd Htl]. split_and!.
    + eapply Qle_trans; [exact Hhd | apply Q.le_min_l].
    + constructor; [|done].
      eapply Qle_trans; [exact Hhd | apply Q.le_min_r].
Qed.

Lemma foldl_Qmax_ge (x : Q) (l : list Q) :
  (x <= foldl Qmax x l)%Q ∧ Forall (λ y, (y <= foldl Qmax x l)%Q) l.
Proof.
  revert x. induction l as [|y l IH]; intros x; simpl.
  - split; [apply Qle_refl | constructor].
  - destruct (IH (Qmax x y)) as [Hhd Htl]. split_and!.
    + eapply Qle_trans; [apply Q.le_max_l | exact Hhd].
    + constructor; [|done].
      eapply Qle_trans; [apply Q.le_max_r | exact Hhd].
Qed.

Lemma inject_length_S {A} (x : A) (l : list A) :
  (inject_Z (Z.of_nat (length (x :: l)))
   == inject_Z (Z.of_nat (length l)) + 1)%Q.
Proof.
  cbn [length]. rewrite Nat2Z.inj_succ, <- Z.add_1_r, inject_Z_plus. reflexivity.
Qed.

(** ** Rounding to binary64 *)

Lemma pow2_pos (e : Z) : (0 < 2 ^ e)%Q.
Proof. apply Qpower_0_lt. reflexivity. Qed.

Lemma pow2_plus (a b : Z) : (2 ^ (a + b) == 2 ^ a * 2 ^ b)%Q.
Proof. apply Qpower_plus. discriminate. Qed.

Lemma pow2_inject (a : Z) : 0 ≤ a → (2 ^ a == inject_Z (2 ^ a))%Q.
Proof. intros Ha. symmetry. apply (Zpower_Qpower 2 a Ha). Qed.

Lemma Qlog2_le (q : Q) : (0 < q)%Q → (2 ^ Qlog2 q <= q)%Q.
Proof.
  intros Hq. unfold Qlog2.
  set (a := Z.log2 (Qnum q)). set (b := Z.log2 (Z.pos (Qden q))).
  destruct (Qle_bool (2 ^ (a - b)) q) eqn:Hle; [by apply Qle_bool_iff |].
  assert (Hnum : 0 < Qnum q).
  { destruct q as [n d]. unfold Qlt in Hq. simpl in *. lia. }
  assert (Ha : 0 ≤ a ∧ 2 ^ a ≤ Qnum q).
  { split; [apply Z.log2_nonneg | by apply Z.log2_spec]. }
  assert (Hb : 0 ≤ b ∧ Z.pos (Qden q) < 2 ^ (b + 1)).
  { split; [apply Z.log2_nonneg |]. rewrite Z.add_1_r. by apply Z.log2_spec. }
  replace (a - b - 1) with (a + - (b + 1)) by lia.
  rewrite pow2_plus, Qpower_opp, (pow2_inject a), (pow2_inject (b + 1)) by lia.
  destruct q as [n d]. simpl in *.
  assert (Hd : 0 < 2 ^ (b + 1)) by lia.
  apply Qle_shift_div_r; [by rewrite <- (Zlt_Qlt 0) |].
  change (inject_Z (2 ^ a) / 1)%Q with (inject_Z (2 ^ a) * / 1)%Q.
  unfold Qle, Qmult, inject_Z. simpl. nia.
Qed.

Lemma round_half_even_near (q : Q) :
  (q - (1 # 2) <= inject_Z (round_half_even q))%Q
  ∧ (inject_Z (round_half_even q) <= q + (1 # 2))%Q.
Proof.
  unfold round_half_even.
  pose proof (Qfloor_le q) as Hlo. pose proof (Qlt_floor q) as Hhi.
  rewrite inject_Z_plus in Hhi. change (inject_Z 1) with 1%Q in Hhi.
  set (f := inject_Z (Qfloor q)) in *.
  destruct (q - f ?= 1 # 2)%Q eqn:Hc.
  - apply Qeq_alt in Hc. destruct (Z.even (Qfloor q));
      rewrite ?inject_Z_plus; change (inject_Z 1) with 1%Q; fold f;
      split; lra.
  - apply Qlt_alt in Hc. fold f. split; lra.
  - apply Qgt_alt in Hc. rewrite inject_Z_plus.
    change (inject_Z 1) with 1%Q. fold f. split; lra.
Qed.

(** The rounding error is at most half a unit in the last place. *)
Lemma b64_near (q bound : Q) :
  (- bound <= q)%Q → (q <= bound)%Q →
  (q - (bound * 2 ^ (-53) + 2 ^ (-1075)) <= b64 q)%Q
  ∧ (b64 q <= q + (bound * 2 ^ (-53) + 2 ^ (-1075)))%Q.
Proof.
  intros Hlo Hhi. unfold b64.
  pose proof (pow2_pos (-53)) as Hu. pose proof (pow2_pos (-1075)) as Heta.
  destruct (Qeq_bool q 0) eqn:Hz.
  { apply Qeq_bool_iff in Hz. split; nra. }
  apply Qeq_bool_neq in Hz.
  assert (Habs : (0 < Qabs q)%Q).
  { pose proof (Qabs_nonneg q) as H0.
    destruct (Qeq_dec (Qabs q) 0) as [H|H]; [|lra].
    exfalso. apply Hz. revert H. apply Qabs_case; intros; lra. }
  assert (Hbound : (Qabs q <= bound)%Q) by (apply Qabs_case; intros; lra).
  pose proof (Qlog2_le _ Habs) as Hlog.
  set (L := Qlog2 (Qabs q)) in *.
  set (e := Z.max (L - 52) (-1074)).
  pose proof (pow2_pos e) as Hs.
  assert (Hscale : (2 ^ e <= Qabs q * (2 * 2 ^ (-53)) + 2 * 2 ^ (-1075))%Q).
  { assert (H52 : (2 * 2 ^ (-53) == 2 ^ (-52))%Q) by reflexivity.
    assert (H1074 : (2 * 2 ^ (-1075) == 2 ^ (-1074))%Q).
    { change 2%Q with (2 ^ 1)%Q at 1. rewrite <- pow2_plus. reflexivity. }
    rewrite H52, H1074. pose proof (pow2_pos (-52)) as H52p.
    pose proof (pow2_pos (-1074)) as H1074p. pose proof (pow2_pos L) as HL.
    unfold e. destruct (Z.max_spec (L - 52) (-1074)) as [[_ ->]|[_ ->]].
    - nra.
    - replace (L - 52) with (L + -52) by lia. rewrite pow2_plus. nra. }
  destruct (round_half_even_near (q / 2 ^ e)) as [Hr1 Hr2].
  set (r := inject_Z (round_half_even (q / 2 ^ e))) in *.
  assert (Hq : (q == q / 2 ^ e * 2 ^ e)%Q).
  { field. lra. }
  set (y := (q / 2 ^ e)%Q) in *.
  split; nra.
Qed.

(** ** The rounded sum and average *)

Lemma exact_sum_snoc (l : list Q) (x : Q) :
  (exact_sum (l ++ [x]) == exact_sum l + x)%Q.
Proof.
  unfold exact_sum. induction l as [|y l IH]; simpl; [lra |].
  rewrite IH. lra.
Qed.

Lemma sql_sum_snoc (l : list Q) (x : Q) :
  sql_sum (l ++ [x]) = b64 (sql_sum l + x).
Proof. unfold sql_sum. by rewrite foldl_app. Qed.

Lemma inject_length_snoc {A} (l : list A) (x : A) :
  (inject_Z (Z.of_nat (length (l ++ [x])))
   == inject_Z (Z.of_nat (length l)) + 1)%Q.
Proof.
  rewrite length_app. cbn [length]. rewrite Nat2Z.inj_add, inject_Z_plus.
  reflexivity.
Qed.

Lemma inject_length_nonneg {A} (l : list A) :
  (0 <= inject_Z (Z.of_nat (length l)))%Q.
Proof. rewrite <- (Zle_Qle 0). lia. Qed.

(** The sum the engine keeps is near the sum of the numbers: with [n]
    rows in all, each between [- bound] and [bound], every partial sum of
    [k] rows is off by at most [2 * k * c]. *)
Lemma sql_sum_near (n bound : Q) (l : list Q) :
  let c := (n * bound * 2 ^ (-53) + 2 ^ (-1075))%Q in
  let k := inject_Z (Z.of_nat (length l)) in
  (0 <= bound)%Q → (2 * n * 2 ^ (-53) <= 1)%Q → (k <= n)%Q →
  Forall (λ x, (- bound <= x)%Q ∧ (x <= bound)%Q) l →
  ((exact_sum l - 2 * k * c <= sql_sum l)%Q
   ∧ (sql_sum l <= exact_sum l + 2 * k * c)%Q)
  ∧ ((- (k * bound) <= exact_sum l)%Q ∧ (exact_sum l <= k * bound)%Q).
Proof.
  intros c k HB Hn. subst k.
  pose proof (pow2_pos (-53)) as Hu. pose proof (pow2_pos (-1075)) as Heta.
  set (u := (2 ^ (-53))%Q) in *. set (eta := (2 ^ (-1075))%Q) in *.
  induction l as [|x l IH] using rev_ind; intros Hk Hl.
  { change (inject_Z (Z.of_nat (length ([] : list Q)))) with 0%Q.
    change (sql_sum []) with 0%Q. change (exact_sum []) with 0%Q.
    split; split; lra. }
  apply Forall_app in Hl as [Hl Hx]. apply Forall_singleton in Hx as [Hx1 Hx2].
  rewrite inject_length_snoc in Hk.
  pose proof (inject_length_nonneg l) as Hk0.
  set (k := inject_Z (Z.of_nat (length l))) in *.
  destruct IH as [[HS1 HS2] [HT1 HT2]]; [lra | done |].
  rewrite sql_sum_snoc, exact_sum_snoc, inject_length_snoc. fold k.
  set (S := sql_sum l) in *. set (T := exact_sum l) in *.
  assert (Hn0 : (0 <= n)%Q) by lra.
  assert (HnB : (0 <= n * bound)%Q) by nra.
  assert (Hc0 : (0 <= c)%Q) by (unfold c; nra).
  assert (Hkc : (0 <= k * c)%Q) by nra.
  assert (HkB : (0 <= k * bound)%Q) by nra.
  assert (Hkcu : (2 * (k * c) * u <= c)%Q).
  { assert (H : (2 * k * u <= 1)%Q) by nra. nra. }
  assert (HkBu : ((k + 1) * bound * u <= n * bound * u)%Q).
  { assert (H : (0 <= bound * u)%Q) by nra. nra. }
  destruct (b64_near (S + x) ((k + 1) * bound + 2 * (k * c))) as [Hb1 Hb2];
    [lra | lra |].
  fold u eta in Hb1, Hb2.
  assert (Herr : (((k + 1) * bound + 2 * (k * c)) * u + eta <= 2 * c)%Q).
  { assert (Hc : (c == n * bound * u + eta)%Q) by reflexivity. lra. }
  split; split; lra.
Qed.

Lemma exact_sum_lower (lo : Q) (l : list Q) :
  Forall (λ y, (lo <= y)%Q) l →
  (lo * inject_Z (Z.of_nat (length l)) <= exact_sum l)%Q.
Proof.
  induction 1 as [|y l Hy _ IH].
  - cbn. change (inject_Z (Z.of_nat 0)) with 0%Q. lra.
  - rewrite inject_length_S. cbn [exact_sum foldr]. fold (exact_sum l).
    set (n := inject_Z (Z.of_nat (length l))) in *. nra.
Qed.

Lemma exact_sum_upper (hi : Q) (l : list Q) :
  Forall (λ y, (y <= hi)%Q) l →
  (exact_sum l <= hi * inject_Z (Z.of_nat (length l)))%Q.
Proof.
  induction 1 as [|y l Hy _ IH].
  - cbn. change (inject_Z (Z.of_nat 0)) with 0%Q. lra.
  - rewrite inject_length_S. cbn [exact_sum foldr]. fold (exact_sum l).
    set (n := inject_Z (Z.of_nat (length l))) in *. nra.
Qed.

(** The average the engine gives is the mean of the numbers, and so in
    their range, up to the margin of the rounding. *)
Lemma sql_avg_near (l : list Q) (lo hi : Q) :
  l ≠ [] →
  Forall (λ x, (lo <= x)%Q ∧ (x <= hi)%Q) l →
  Z.of_nat (length l) ≤ 2 ^ 52 →
  ∃ avg,
    sql_avg l = Some avg
    ∧ ((exact_mean l - rounding_margin (Z.of_nat (length l)) lo hi <= avg)%Q
       ∧ (avg <= exact_mean l + rounding_margin (Z.of_nat (length l)) lo hi)%Q)
    ∧ ((lo - rounding_margin (Z.of_nat (length l)) lo hi <= avg)%Q
       ∧ (avg <= hi + rounding_margin (Z.of_nat (length l)) lo hi)%Q).
Proof.
  intros Hne Hl Hlen.
  exists (b64 (sql_sum l / inject_Z (Z.of_nat (length l)))).
  split; [by destruct l |].
  unfold rounding_margin, exact_mean.
  rewrite inject_Z_plus. change (inject_Z 1) with 1%Q.
  set (bound := Qmax (Qabs lo) (Qabs hi)).
  assert (Hn1 : (1 <= inject_Z (Z.of_nat (length l)))%Q).
  { rewrite <- (Zle_Qle 1). destruct l; [done | cbn [length]; lia]. }
  assert (Hn2 : (inject_Z (Z.of_nat (length l)) <= inject_Z (2 ^ 52))%Q)
    by by rewrite <- Zle_Qle.
  apply Forall_and in Hl as [Hlo Hhi].
  pose proof (exact_sum_lower lo l Hlo) as HT1.
  pose proof (exact_sum_upper hi l Hhi) as HT2.
  assert (Hb1 : (- bound <= lo)%Q).
  { pose proof (Q.le_max_l (Qabs lo) (Qabs hi)) as H. fold bound in H.
    pose proof (Qle_Qabs (- lo)) as H'. rewrite Qabs_opp in H'. lra. }
  assert (Hb2 : (hi <= bound)%Q).
  { pose proof (Q.le_max_r (Qabs lo) (Qabs hi)) as H. fold bound in H.
    pose proof (Qle_Qabs hi) as H'. lra. }
  assert (Hb0 : (0 <= bound)%Q).
  { pose proof (Q.le_max_l (Qabs lo) (Qabs hi)) as H. fold bound in H.
    pose proof (Qabs_nonneg lo). lra. }
  assert (Hu52 : (2 ^ (-52) == 2 * 2 ^ (-53))%Q) by reflexivity.
  assert (He1073 : (2 ^ (-1073) == 4 * 2 ^ (-1075))%Q).
  { change 4%Q with (2 ^ 2)%Q. rewrite <- pow2_plus. reflexivity. }
  assert (Hu53 : (inject_Z (2 ^ 52) * (2 * 2 ^ (-53)) == 1)%Q) by reflexivity.
  rewrite Hu52, He1073.
  pose proof (pow2_pos (-53)) as Hu. pose proof (pow2_pos (-1075)) as Heta.
  set (u := (2 ^ (-53))%Q) in *. set (eta := (2 ^ (-1075))%Q) in *.
  set (n := inject_Z (Z.of_nat (length l))) in *.
  assert (Hnu : (2 * n * u <= 1)%Q) by nra.
  destruct (sql_sum_near n bound l) as [[HS1 HS2] [HT3 HT4]];
    [done | done | fold n; lra | |].
  { eapply Forall_impl; [apply Forall_and; split; [exact Hlo | exact Hhi] |].
    simpl. intros x [? ?]. split; lra. }
  fold n u eta in HS1, HS2, HT3, HT4.
  set (c := (n * bound * u + eta)%Q) in *.
  set (S := sql_sum l) in *. set (T := exact_sum l) in *.
  assert (HnB : (0 <= n * bound)%Q) by nra.
  assert (Hc0 : (0 <= c)%Q) by (unfold c; nra).
  assert (Hy : (S == S / n * n)%Q) by (field; lra).
  assert (Hmu : (T == T / n * n)%Q) by (field; lra).
  set (y := (S / n)%Q) in *. set (mu := (T / n)%Q) in *.
  assert (Hnc : (0 <= n * c)%Q) by nra.
  assert (Hmu1 : (lo <= mu)%Q) by nra.
  assert (Hmu2 : (mu <= hi)%Q) by nra.
  assert (Hy1 : (mu - 2 * c <= y)%Q) by nra.
  assert (Hy2 : (y <= mu + 2 * c)%Q) by nra.
  destruct (b64_near y (bound + 2 * c)) as [HA1 HA2]; [lra | lra |].
  fold u eta in HA1, HA2.
  assert (Hcu : (2 * c * u <= bound * u + eta)%Q).
  { assert (Hc : (c == n * bound * u + eta)%Q) by reflexivity.
    assert (H1 : (0 <= bound * u)%Q) by nra.
    assert (H2 : (2 * (n * bound * u) * u <= bound * u)%Q) by nra.
    assert (H3 : (2 * u <= 1)%Q) by nra.
    nra. }
  assert (Hc : (c == n * bound * u + eta)%Q) by reflexivity.
  split; split; lra.
Qed.

Lemma Qmin_either (x y : Q) : Qmin x y = x ∨ Qmin x y = y.
Proof.
  unfold Qmin, GenericMinMax.gmin. destruct (x ?= y)%Q; auto.
Qed.

Lemma Qmax_either (x y : Q) : Qmax x y = x ∨ Qmax x y = y.
Proof.
  unfold Qmax, GenericMinMax.gmax. destruct (x ?= y)%Q; auto.
Qed.

(** MIN and MAX give one of the numbers. *)
Lemma foldl_Qmin_elem (x : Q) (l : list Q) : foldl Qmin x l ∈ x :: l.
Proof.
  revert x. induction l as [|y l IH]; intros x; simpl; [left |].
  specialize (IH (Qmin x y)).
  apply elem_of_cons in IH as [->|IH]; [|by do 2 right].
  destruct (Qmin_either x y) as [->| ->]; [left | right; left].
Qed.

Lemma foldl_Qmax_elem (x : Q) (l : list Q) : foldl Qmax x l ∈ x :: l.
Proof.
  revert x. induction l as [|y l IH]; intros x; simpl; [left |].
  specialize (IH (Qmax x y)).
  apply elem_of_cons in IH as [->|IH]; [|by do 2 right].
  destruct (Qmax_either x y) as [->| ->]; [left | right; left].
Qed.

(** On at least one row the three aggregates are defined; the minimum and
    the maximum are numbers of the list and bound it, and the average is
    in their range up to the margin of the rounding. *)
Lemma aggregates_of_rows (l : list Q) :
  l ≠ [] →
  ∃ avg lo hi,
    sql_avg l = Some avg ∧ sql_min l = Some lo ∧ sql_max l = Some hi
    ∧ lo ∈ l ∧ hi ∈ l
    ∧ Forall (λ y, (lo <= y)%Q ∧ (y <= hi)%Q) l
    ∧ (Z.of_nat (length l) ≤ 2 ^ 52 →
       ((exact_mean l - rounding_margin (Z.of_nat (length l)) lo hi
         <= avg)%Q
        ∧ (avg
           <= exact_mean l + rounding_margin (Z.of_nat (length l)) lo hi)%Q)
       ∧ ((lo - rounding_margin (Z.of_nat (length l)) lo hi <= avg)%Q
          ∧ (avg <= hi + rounding_margin (Z.of_nat (length l)) lo hi)%Q)).
Proof.
  destruct l as [|x l]; [done | intros _].
  destruct (foldl_Qmin_le x l) as [Hlo Hlos].
  destruct (foldl_Qmax_ge x l) as [Hhi His].
  assert (Hall : Forall (λ y, (foldl Qmin x l <= y)%Q
                              ∧ (y <= foldl Qmax x l)%Q) (x :: l)).
  { apply Forall_and. split; by constructor. }
  exists (b64 (sql_sum (x :: l) / inject_Z (Z.of_nat (length (x :: l))))),
    (foldl Qmin x l), (foldl Qmax x l).
  split_and!; [done | done | done | apply foldl_Qmin_elem
               | apply foldl_Qmax_elem | done |].
  intros Hlen.
  destruct (sql_avg_near (x :: l) (foldl Qmin x l) (foldl Qmax x l))
    as (avg & [= <-] & Havg); done.
Qed.

(** The result rows of the average query for one value of [won]. *)
Lemma avg_points_where_won_spec (flag : Z) (t : list matchups_row)
    (a : avg_row) :
  a ∈ avg_points_where_won flag t →
  let own := filter (λ r : matchups_row,
                       team_name r = ar_team_name a ∧ won r = flag) t in
  own ≠ []
  ∧ ar_count a = Z.of_nat (length own)
  ∧ ∃ avg lo hi,
      ar_avg a = Some avg ∧ ar_min a = Some lo ∧ ar_max a = Some hi
      ∧ (∃ r : matchups_row, r ∈ own ∧ points r = lo)
      ∧ (∃ r : matchups_row, r ∈ own ∧ points r = hi)
      ∧ (∀ r : matchups_row, r ∈ own →
           (lo <= points r)%Q ∧ (points r <= hi)%Q)
      ∧ (in_double_range (ar_count a) lo hi →
         let mean := exact_mean ((λ r : matchups_row, points r) <$> own) in
         ((mean - rounding_margin (ar_count a) lo hi <= avg)%Q
          ∧ (avg <= mean + rounding_margin (ar_count a) lo hi)%Q)
         ∧ ((lo - rounding_margin (ar_count a) lo hi <= avg)%Q
            ∧ (avg <= hi + rounding_margin (ar_count a) lo hi)%Q)).
Proof.
  unfold avg_points_where_won. rewrite merge_sort_Permutation.
  intros Ha. apply list_elem_of_fmap in Ha as ([k g] & -> & Hg).
  apply elem_of_group_by in Hg as [Hk Hg]. simpl in Hk, Hg.
  cbv zeta. cbn [ar_team_name ar_count ar_avg ar_min ar_max aggregate_points
                 fst snd].
  rewrite list_filter_filter in Hg. rewrite <- Hg.
  assert (Hne : g ≠ []).
  { rewrite Hg, <- list_filter_filter. by apply group_nonempty. }
  split_and!; [done | done |].
  destruct (aggregates_of_rows ((λ r : matchups_row, points r) <$> g))
    as (avg & lo & hi & Havg & Hmin & Hmax & Hlo & Hhi & Hall & Hnear).
  { by destruct g. }
  rewrite length_fmap in Hnear.
  exists avg, lo, hi. split_and!; [done | done | done | | | |].
  - apply list_elem_of_fmap in Hlo as (r & -> & Hr). by exists r.
  - apply list_elem_of_fmap in Hhi as (r & -> & Hr). by exists r.
  - intros r Hr. rewrite Forall_forall in Hall. apply Hall.
    apply list_elem_of_fmap. by exists r.
  - intros [Hlen _]. by apply Hnear.
Qed.

(** C6, the claim as stated, fails: the engine keeps the sum of a DOUBLE
    column in a DOUBLE. Three wins of 120.1 add up to 360.29999999999995,
    and a third of that is 120.09999999999998: the average of the wins is
    below the least of them. *)
Lemma avg_win_below_min_win :
  let a := {| ar_team_name := "Team A"; ar_count := 3;
              ar_avg := Some (8451286175737445 # 70368744177664)%Q;
              ar_min := Some Sample.score_120_1;
              ar_max := Some Sample.score_120_1 |} in
  stat_6_query Sample.lone_table = [a]
  ∧ ∃ avg_win min_win,
      ar_avg a = Some avg_win ∧ ar_min a = Some min_win
      ∧ ¬ (min_win <= avg_win)%Q.
Proof.
  cbv zeta. split; [by vm_compute |].
  eexists _, _. split_and!; [done | done |].
  apply Qlt_not_le. reflexivity.
Qed.

(** C6, amended: every row of the average-points-in-win result is computed
    from exactly the table rows of its team with [won = 1] (at least one):
    its count is their number, its minimum and its maximum are points of
    such rows and bound the points of all of them, and its average, a
    binary64 sum divided by the count, is the mean of their points, and so
    lies between the minimum and the maximum, up to the margin of the
    rounding, as long as the sum stays in the range of a DOUBLE; likewise
    for the average-points-in-loss result and [won = 0]. *)
Theorem avg_points_in_win_and_loss (t : list matchups_row) :
  (∀ a, a ∈ stat_6_query t →
     let wins := filter (λ r : matchups_row,
                           team_name r = ar_team_name a ∧ won r = 1) t in
     wins ≠ []
     ∧ ar_count a = Z.of_nat (length wins)
     ∧ ∃ avg_win min_win max_win,
         ar_avg a = Some avg_win ∧ ar_min a = Some min_win
         ∧ ar_max a = Some max_win
         ∧ (∃ r : matchups_row, r ∈ wins ∧ points r = min_win)
         ∧ (∃ r : matchups_row, r ∈ wins ∧ points r = max_win)
         ∧ (∀ r : matchups_row, r ∈ wins →
              (min_win <= points r)%Q ∧ (points r <= max_win)%Q)
         ∧ (in_double_range (ar_count a) min_win max_win →
            let margin := rounding_margin (ar_count a) min_win max_win in
            let mean :=
              exact_mean ((λ r : matchups_row, points r) <$> wins) in
            ((mean - margin <= avg_win)%Q ∧ (avg_win <= mean + margin)%Q)
            ∧ ((min_win - margin <= avg_win)%Q
               ∧ (avg_win <= max_win + margin)%Q)))
  ∧ (∀ a, a ∈ stat_7_query t →
       let losses := filter (λ r : matchups_row,
                               team_name r = ar_team_name a ∧ won r = 0) t in
       losses ≠ []
       ∧ ar_count a = Z.of_nat (length losses)
       ∧ ∃ avg_loss min_loss max_loss,
           ar_avg a = Some avg_loss ∧ ar_min a = Some min_loss
           ∧ ar_max a = Some max_loss
           ∧ (∃ r : matchups_row, r ∈ losses ∧ points r = min_loss)
           ∧ (∃ r : matchups_row, r ∈ losses ∧ points r = max_loss)
           ∧ (∀ r : matchups_row, r ∈ losses →
                (min_loss <= points r)%Q ∧ (points r <= max_loss)%Q)
           ∧ (in_double_range (ar_count a) min_loss max_loss →
              let margin := rounding_margin (ar_count a) min_loss max_loss in
              let mean :=
                exact_mean ((λ r : matchups_row, points r) <$> losses) in
              ((mean - margin <= avg_loss)%Q ∧ (avg_loss <= mean + margin)%Q)
              ∧ ((min_loss - margin <= avg_loss)%Q
                 ∧ (avg_loss <= max_loss + margin)%Q))).
Proof.
  split; intros a Ha; by apply avg_points_where_won_spec.
Qed.


(** ** The fetch loops *)

(** Both loops have the same shape: each turn requests the week of its
    index; on a stopping answer the loop leaves with the dict as it is, on
    any other answer it goes on with the delivered entries, if any, stored
    under the week. The facts below hold for any loop of that shape. *)
Section LoopFacts.
Variable network : Z → outcome.
Variable loop : list Z → PyDict.t Z (list Entry.t) → world
                → PyDict.t Z (list Entry.t) * world.
Variable at_week : Z → Z.

Hypothesis loop_nil : ∀ acc w, loop [] acc w = (acc, w).
Hypothesis loop_stop : ∀ i ws acc w,
  stops (network (at_week i)) = true →
  ∃ w1, loop (i :: ws) acc w = (acc, w1)
        ∧ requested w1 = requested w ++ [at_week i]
        ∧ self_matchups w1 = self_matchups w.
Hypothesis loop_go : ∀ i ws acc w,
  stops (network (at_week i)) = false →
  ∃ w1, loop (i :: ws) acc w = loop ws (stored network (at_week i) acc) w1
        ∧ requested w1 = requested w ++ [at_week i]
        ∧ self_matchups w1 = self_matchups w.

Lemma get_stored wk acc j :
  PyDict.get j (stored network wk acc)
  = if decide (wk = j)
    then from_option Some (PyDict.get j acc) (delivered (network j))
    else PyDict.get j acc.
Proof.
  unfold stored. case_decide as Hj.
  - subst. destruct (delivered (network j)); simpl; [apply get_set_eq | done].
  - destruct (delivered (network wk)); simpl; [by apply get_set_ne | done].
Qed.

Lemma NoDup_stored wk acc :
  NoDup (PyDict.keys acc) → NoDup (PyDict.keys (stored network wk acc)).
Proof.
  unfold stored. destruct (delivered (network wk)); simpl; [|done].
  apply NoDup_keys_set.
Qed.

Lemma loop_NoDup ws acc w :
  NoDup (PyDict.keys acc) → NoDup (PyDict.keys (loop ws acc w).1).
Proof.
  revert acc w. induction ws as [|i ws IH]; intros acc w Hacc.
  - by rewrite loop_nil.
  - destruct (stops (network (at_week i))) eqn:Hs.
    + destruct (loop_stop i ws acc w Hs) as (w1 & -> & _). done.
    + destruct (loop_go i ws acc w Hs) as (w1 & -> & _).
      by apply IH, NoDup_stored.
Qed.

Lemma loop_frame ws acc w :
  self_matchups (loop ws acc w).2 = self_matchups w.
Proof.
  revert acc w. induction ws as [|i ws IH]; intros acc w.
  - by rewrite loop_nil.
  - destruct (stops (network (at_week i))) eqn:Hs.
    + by destruct (loop_stop i ws acc w Hs) as (w1 & -> & _ & ?).
    + destruct (loop_go i ws acc w Hs) as (w1 & -> & _ & <-). apply IH.
Qed.

Lemma get_step i ws acc j :
  (if decide (j ∈ at_week <$> ws)
   then from_option Some (PyDict.get j (stored network (at_week i) acc))
                    (delivered (network j))
   else PyDict.get j (stored network (at_week i) acc))
  = if decide (j ∈ at_week <$> i :: ws)
    then from_option Some (PyDict.get j acc) (delivered (network j))
    else PyDict.get j acc.
Proof.
  rewrite fmap_cons, get_stored.
  destruct (decide (at_week i = j)) as [Hij|Hij].
  - rewrite (decide_True (P := j ∈ at_week i :: _)) by (subst; left).
    case_decide; [|done]. by destruct (delivered (network j)).
  - apply decide_ext. rewrite elem_of_cons.
    split; [auto | intros [?|?]; [congruence | done]].
Qed.

(** No index stops the loop: every week is requested, in order, and each
    stores what it delivers. *)
Lemma loop_all ws acc w :
  Forall (λ i, stops (network (at_week i)) = false) ws →
  requested (loop ws acc w).2 = requested w ++ (at_week <$> ws)
  ∧ ∀ j, PyDict.get j (loop ws acc w).1
         = if decide (j ∈ at_week <$> ws)
           then from_option Some (PyDict.get j acc) (delivered (network j))
           else PyDict.get j acc.
Proof.
  intros Hws. revert acc w.
  induction Hws as [|i ws Hi _ IH]; intros acc w.
  - rewrite loop_nil. cbn [fst snd]. rewrite fmap_nil, app_nil_r.
    split; [done |]. intros j.
    by rewrite decide_False by apply not_elem_of_nil.
  - destruct (loop_go i ws acc w Hi) as (w1 & -> & Hreq & _).
    destruct (IH (stored network (at_week i) acc) w1) as [-> Hget].
    split; [by rewrite Hreq, fmap_cons, <- app_assoc |].
    intros j. by rewrite Hget, get_step.
Qed.

(** The first stopping index is requested and nothing after it; the
    indices before it store what they deliver. *)
Lemma loop_first_stop ws1 i ws2 acc w :
  Forall (λ i, stops (network (at_week i)) = false) ws1 →
  stops (network (at_week i)) = true →
  requested (loop (ws1 ++ i :: ws2) acc w).2
  = requested w ++ (at_week <$> ws1) ++ [at_week i]
  ∧ ∀ j, PyDict.get j (loop (ws1 ++ i :: ws2) acc w).1
         = if decide (j ∈ at_week <$> ws1)
           then from_option Some (PyDict.get j acc) (delivered (network j))
           else PyDict.get j acc.
Proof.
  intros Hws Hi. revert acc w.
  induction Hws as [|i' ws1 Hi' _ IH]; intros acc w.
  - rewrite app_nil_l, fmap_nil, app_nil_l.
    destruct (loop_stop i ws2 acc w Hi) as (w1 & -> & Hreq & _).
    cbn [fst snd]. rewrite Hreq. split; [done |]. intros j.
    by rewrite decide_False by apply not_elem_of_nil.
  - rewrite <- app_comm_cons.
    destruct (loop_go i' (ws1 ++ i :: ws2) acc w Hi') as (w1 & -> & Hreq & _).
    destruct (IH (stored network (at_week i') acc) w1) as [-> Hget].
    split; [by rewrite Hreq, fmap_cons, <- !app_assoc |].
    intros j. by rewrite Hget, get_step.
Qed.

(** A stopping index, whatever came before it: no week other than those
    before it is stored, and none other than those up to it is
    requested. *)
Lemma loop_after_stop ws1 i ws2 acc w :
  stops (network (at_week i)) = true →
  (∀ j, j ∉ (at_week <$> ws1) →
        PyDict.get j (loop (ws1 ++ i :: ws2) acc w).1 = PyDict.get j acc)
  ∧ (∀ j, j ∉ (at_week <$> (ws1 ++ [i])) → j ∉ requested w →
          j ∉ requested (loop (ws1 ++ i :: ws2) acc w).2).
Proof.
  intros Hi. revert acc w.
  induction ws1 as [|i' ws1 IH]; intros acc w.
  - rewrite !app_nil_l.
    destruct (loop_stop i ws2 acc w Hi) as (w1 & -> & Hreq & _).
    cbn [fst snd]. rewrite Hreq.
    split; [done |]. intros j Hj Hw. rewrite elem_of_app.
    rewrite fmap_cons, fmap_nil in Hj. tauto.
  - rewrite <- !app_comm_cons.
    assert (Hstep : ∀ w1 j,
      requested w1 = requested w ++ [at_week i'] →
      j ∉ (at_week <$> (i' :: (ws1 ++ [i]))) → j ∉ requested w →
      (j ∉ (at_week <$> (ws1 ++ [i]))) ∧ (j ∉ requested w1)).
    { intros w1 j -> Hj Hw. rewrite fmap_cons in Hj.
      rewrite elem_of_app, list_elem_of_singleton.
      rewrite elem_of_cons in Hj. tauto. }
    destruct (stops (network (at_week i'))) eqn:Hi'.
    + destruct (loop_stop i' (ws1 ++ i :: ws2) acc w Hi') as (w1 & -> & Hreq & _).
      split; [done |]. intros j Hj Hw. by apply (Hstep w1 j).
    + destruct (loop_go i' (ws1 ++ i :: ws2) acc w Hi') as (w1 & -> & Hreq & _).
      destruct (IH (stored network (at_week i') acc) w1) as [Hget Hlog]. split.
      * intros j Hj. rewrite fmap_cons, not_elem_of_cons in Hj.
        destruct Hj as [Hne Hj]. rewrite (Hget j Hj), get_stored.
        by rewrite decide_False.
      * intros j Hj Hw. destruct (Hstep w1 j Hreq Hj Hw). by apply Hlog.
Qed.
End LoopFacts.

Section ClientFacts.
Variable network : Z → outcome.

Lemma fetch_matchups_loop_stop i ws acc w :
  stops (network i) = true →
  ∃ w1, fetch_matchups_loop network (i :: ws) acc w = (acc, w1)
        ∧ requested w1 = requested w ++ [i]
        ∧ self_matchups w1 = self_matchups w.
Proof.
  intros Hs. cbn [fetch_matchups_loop].
  destruct (network i) as [msg|status [entries|msg]]; simpl in Hs.
  - by eexists.
  - done.
  - rewrite Hs. by eexists.
Qed.

Lemma fetch_matchups_loop_go i ws acc w :
  stops (network i) = false →
  ∃ w1, fetch_matchups_loop network (i :: ws) acc w
        = fetch_matchups_loop network ws (stored network i acc) w1
        ∧ requested w1 = requested w ++ [i]
        ∧ self_matchups w1 = self_matchups w.
Proof.
  intros Hs. cbn [fetch_matchups_loop]. unfold stored.
  destruct (network i) as [msg|status [entries|msg]]; simpl in *.
  - done.
  - case_bool_decide; by eexists.
  - rewrite Hs. by eexists.
Qed.

Lemma fetch_playoff_loop_stop i ws acc w :
  stops (network (i + 17)) = true →
  ∃ w1, fetch_playoff_loop network (i :: ws) acc w = (acc, w1)
        ∧ requested w1 = requested w ++ [i + 17]
        ∧ self_matchups w1 = self_matchups w.
Proof.
  intros Hs. cbn [fetch_playoff_loop].
  destruct (network (i + 17)) as [msg|status [entries|msg]]; simpl in Hs.
  - by eexists.
  - done.
  - rewrite Hs. by eexists.
Qed.

Lemma fetch_playoff_loop_go i ws acc w :
  stops (network (i + 17)) = false →
  ∃ w1, fetch_playoff_loop network (i :: ws) acc w
        = fetch_playoff_loop network ws (stored network (i + 17) acc) w1
        ∧ requested w1 = requested w ++ [i + 17]
        ∧ self_matchups w1 = self_matchups w.
Proof.
  intros Hs. cbn [fetch_playoff_loop]. unfold stored.
  destruct (network (i + 17)) as [msg|status [entries|msg]]; simpl in *.
  - done.
  - case_bool_decide; by eexists.
  - rewrite Hs. by eexists.
Qed.

(** The playoff loop stores what the regular loop stores on the same
    weeks, and requests the same weeks. *)
Lemma fetch_playoff_loop_same_pattern ws acc w w' :
  requested w = requested w' →
  (fetch_playoff_loop network ws acc w).1
  = (fetch_matchups_loop network ((λ i, i + 17) <$> ws) acc w').1
  ∧ requested (fetch_playoff_loop network ws acc w).2
    = requested (fetch_matchups_loop network ((λ i, i + 17) <$> ws) acc w').2.
Proof.
  revert acc w w'. induction ws as [|i ws IH]; intros acc w w' Hreq; [done |].
  rewrite fmap_cons. destruct (stops (network (i + 17))) eqn:Hs.
  - destruct (fetch_playoff_loop_stop i ws acc w Hs) as (w1 & -> & H1 & _).
    destruct (fetch_matchups_loop_stop (i + 17) ((λ i, i + 17) <$> ws) acc w' Hs)
      as (w2 & -> & H2 & _).
    cbn [fst snd]. by rewrite H1, H2, Hreq.
  - destruct (fetch_playoff_loop_go i ws acc w Hs) as (w1 & -> & H1 & _).
    destruct (fetch_matchups_loop_go (i + 17) ((λ i, i + 17) <$> ws) acc w' Hs)
      as (w2 & -> & H2 & _).
    apply IH. by rewrite H1, H2, Hreq.
Qed.
End ClientFacts.

Lemma elem_of_range (j a b : Z) : j ∈ range a b ↔ a ≤ j < b.
Proof. unfold range. rewrite elem_of_seqZ. lia. Qed.

Lemma range_split (a k b : Z) :
  a ≤ k < b → range a b = range a k ++ k :: range (k + 1) b.
Proof.
  intros Hk. unfold range.
  replace (b - a) with ((k - a) + (b - k)) by lia.
  rewrite seqZ_app by lia. f_equal.
  rewrite seqZ_cons by lia. f_equal; [lia |]. f_equal; lia.
Qed.

Lemma range_snoc (a k : Z) : a ≤ k → range a (k + 1) = range a k ++ [k].
Proof.
  intros Hk. unfold range.
  replace (k + 1 - a) with ((k - a) + 1) by lia.
  rewrite seqZ_app by lia. f_equal.
  rewrite seqZ_cons by lia. rewrite seqZ_nil by lia. f_equal. lia.
Qed.

Section FetchFacts.
Variable network : Z → outcome.

Let regular := fetch_matchups_loop network.
Let playoff := fetch_playoff_loop network.

Lemma regular_all ws acc w :
  Forall (λ i, stops (network i) = false) ws →
  requested (regular ws acc w).2 = requested w ++ ws
  ∧ ∀ j, PyDict.get j (regular ws acc w).1
         = if decide (j ∈ ws)
           then from_option Some (PyDict.get j acc) (delivered (network j))
           else PyDict.get j acc.
Proof.
  intros Hws.
  destruct (loop_all network regular id) with (ws := ws) (acc := acc) (w := w)
    as [Hreq Hget]; [done | apply fetch_matchups_loop_go | done |].
  by rewrite list_fmap_id in Hreq, Hget.
Qed.

Lemma regular_first_stop ws1 i ws2 acc w :
  Forall (λ i, stops (network i) = false) ws1 →
  stops (network i) = true →
  requested (regular (ws1 ++ i :: ws2) acc w).2 = requested w ++ ws1 ++ [i]
  ∧ ∀ j, PyDict.get j (regular (ws1 ++ i :: ws2) acc w).1
         = if decide (j ∈ ws1)
           then from_option Some (PyDict.get j acc) (delivered (network j))
           else PyDict.get j acc.
Proof.
  intros Hws Hi.
  destruct (loop_first_stop network regular id)
    with (ws1 := ws1) (i := i) (ws2 := ws2) (acc := acc) (w := w)
    as [Hreq Hget];
    [apply fetch_matchups_loop_stop | apply fetch_matchups_loop_go
    | done | done |].
  by rewrite list_fmap_id in Hreq, Hget.
Qed.

Lemma regular_after_stop ws1 i ws2 acc w :
  stops (network i) = true →
  (∀ j, j ∉ ws1 →
        PyDict.get j (regular (ws1 ++ i :: ws2) acc w).1 = PyDict.get j acc)
  ∧ (∀ j, j ∉ ws1 ++ [i] → j ∉ requested w →
          j ∉ requested (regular (ws1 ++ i :: ws2) acc w).2).
Proof.
  intros Hi.
  destruct (loop_after_stop network regular id)
    with (ws1 := ws1) (i := i) (ws2 := ws2) (acc := acc) (w := w)
    as [Hget Hreq];
    [apply fetch_matchups_loop_stop | apply fetch_matchups_loop_go | done |].
  by rewrite list_fmap_id in Hget, Hreq.
Qed.

Lemma regular_NoDup ws acc w :
  NoDup (PyDict.keys acc) → NoDup (PyDict.keys (regular ws acc w).1).
Proof.
  apply (loop_NoDup network regular id);
    [done | apply fetch_matchups_loop_stop | apply fetch_matchups_loop_go].
Qed.

Lemma playoff_frame ws acc w :
  self_matchups (playoff ws acc w).2 = self_matchups w.
Proof.
  apply (loop_frame network playoff (λ i, i + 17));
    [done | apply fetch_playoff_loop_stop | apply fetch_playoff_loop_go].
Qed.

(** The weeks of a range, when none or a given one is the first to stop
    the loop. *)
Lemma regular_range a b acc w :
  (∀ j, a ≤ j < b → stops (network j) = false) →
  requested (regular (range a b) acc w).2 = requested w ++ range a b
  ∧ ∀ j, PyDict.get j (regular (range a b) acc w).1
         = if decide (a ≤ j < b)
           then from_option Some (PyDict.get j acc) (delivered (network j))
           else PyDict.get j acc.
Proof.
  intros Hall. destruct (regular_all (range a b) acc w) as [Hreq Hget].
  { apply Forall_forall. intros j Hj. by apply Hall, elem_of_range. }
  split; [done |]. intros j. rewrite Hget.
  apply decide_ext, elem_of_range.
Qed.

Lemma regular_range_first_stop a k b acc w :
  a ≤ k < b → stops (network k) = true →
  (∀ j, a ≤ j < k → stops (network j) = false) →
  requested (regular (range a b) acc w).2 = requested w ++ range a (k + 1)
  ∧ ∀ j, PyDict.get j (regular (range a b) acc w).1
         = if decide (a ≤ j < k)
           then from_option Some (PyDict.get j acc) (delivered (network j))
           else PyDict.get j acc.
Proof.
  intros Hk Hs Hall. rewrite (range_split a k b) by done.
  destruct (regular_first_stop (range a k) k (range (k + 1) b) acc w)
    as [Hreq Hget]; [|done|].
  { apply Forall_forall. intros j Hj. by apply Hall, elem_of_range. }
  split; [by rewrite Hreq, range_snoc by lia |].
  intros j. rewrite Hget. apply decide_ext, elem_of_range.
Qed.

Lemma regular_range_after_stop a k b acc w :
  a ≤ k < b → stops (network k) = true →
  (∀ j, k ≤ j →
        PyDict.get j (regular (range a b) acc w).1 = PyDict.get j acc)
  ∧ (∀ j, k < j → j ∉ requested w →
          j ∉ requested (regular (range a b) acc w).2).
Proof.
  intros Hk Hs. rewrite (range_split a k b) by done.
  destruct (regular_after_stop (range a k) k (range (k + 1) b) acc w Hs)
    as [Hget Hreq].
  split.
  - intros j Hj. apply Hget. rewrite elem_of_range. lia.
  - intros j Hj. apply Hreq. rewrite <- range_snoc by lia.
    rewrite elem_of_range. lia.
Qed.
End FetchFacts.

Lemma fetch_matchups_unfold network w :
  let r := fetch_matchups_loop network (range 1 18) []
             (print (Text "Fetching matchups for all weeks...") w) in
  self_matchups (fetch_matchups network w) = r.1
  ∧ requested (fetch_matchups network w) = requested r.2.
Proof. unfold fetch_matchups. by destruct (fetch_matchups_loop _ _ _ _). Qed.

(** C2: [fetch_matchups] requests the weeks 1 to 17 in order. When no
    answer stops the loop, all 17 are requested and the result holds, for
    each week, what its answer delivered. When week [k] is the first whose
    answer stops the loop, the weeks 1 to [k] are requested and the result
    holds what the weeks before [k] delivered. A request that raises at week
    [k] leaves that week and all later ones out of the result, and no later
    week is requested. A response with another status than 200 does not stop
    the loop and delivers nothing: only its own week is left out. *)
Theorem fetch_matchups_stops_at_first_exception
    (network : Z → outcome) (w : world) :
  let w' := fetch_matchups network w in
  let got := self_matchups w' in
  ((∀ j, 1 ≤ j ≤ 17 → stops (network j) = false) →
     requested w' = requested w ++ range 1 18
     ∧ ∀ j, PyDict.get j got
            = if decide (1 ≤ j ≤ 17) then delivered (network j) else None)
  ∧ (∀ k, 1 ≤ k ≤ 17 → stops (network k) = true →
          (∀ j, 1 ≤ j < k → stops (network j) = false) →
     requested w' = requested w ++ range 1 (k + 1)
     ∧ ∀ j, PyDict.get j got
            = if decide (1 ≤ j < k) then delivered (network j) else None)
  ∧ (∀ k msg, 1 ≤ k ≤ 17 → network k = Raises msg →
       (∀ j, k ≤ j → PyDict.get j got = None)
       ∧ (∀ j, k < j → j ∉ requested w → j ∉ requested w'))
  ∧ (∀ j status b, network j = Returns status b → status ≠ 200 →
       stops (network j) = false ∧ delivered (network j) = None).
Proof.
  intros w' got. subst w' got.
  destruct (fetch_matchups_unfold network w) as [-> ->]. split_and!.
  - intros Hall.
    destruct (regular_range network 1 18 []
                (print (Text "Fetching matchups for all weeks...") w))
      as [-> Hget]; [intros j ?; apply Hall; lia |].
    split; [done |]. intros j. rewrite Hget. simpl.
    destruct (decide (1 ≤ j < 18)), (decide (1 ≤ j ≤ 17)); try lia; [|done].
    by destruct (delivered (network j)).
  - intros k Hk Hs Hall.
    destruct (regular_range_first_stop network 1 k 18 []
                (print (Text "Fetching matchups for all weeks...") w))
      as [-> Hget]; [lia | done | done |].
    split; [done |]. intros j. rewrite Hget. simpl.
    case_decide; [|done]. by destruct (delivered (network j)).
  - intros k msg Hk Hn.
    destruct (regular_range_after_stop network 1 k 18 []
                (print (Text "Fetching matchups for all weeks...") w))
      as [Hget Hreq]; [lia | by rewrite Hn |].
    split; [intros j Hj; by rewrite Hget | exact Hreq].
  - intros j status b Hn Hst. rewrite Hn. simpl.
    destruct b; simpl; [|split; [|done]]; by rewrite bool_decide_eq_false_2.
Qed.

Lemma fetch_playoff_matchups_unfold network w :
  let r := fetch_matchups_loop network (range 18 22) [] w in
  self_matchups (fetch_playoff_matchups network w)
  = PyDict.update (self_matchups w) r.1
  ∧ requested (fetch_playoff_matchups network w) = requested r.2.
Proof.
  unfold fetch_playoff_matchups.
  set (w0 := print (Text "Fetching playoff matchups...") w).
  destruct (fetch_playoff_loop_same_pattern network (range 1 5) [] w0 w)
    as [Hdict Hreq]; [done |].
  change ((λ i, i + 17) <$> range 1 5) with (range 18 22) in Hdict, Hreq.
  pose proof (playoff_frame network (range 1 5) [] w0) as Hframe.
  destruct (fetch_playoff_loop network (range 1 5) [] w0) as [pw w1].
  simpl in *. by rewrite Hframe, Hdict, Hreq.
Qed.

(** C8: [fetch_playoff_matchups] runs the per-week pattern of the regular
    fetch on the weeks 18 to 21 and merges what it stored into
    [self.matchups], a playoff week replacing an entry of the same week.
    When no answer stops the loop the four weeks are requested; when week
    [k] is the first whose answer stops it, the weeks 18 to [k] are
    requested and only the weeks before [k] are merged. A request that
    raises at week [k] leaves [self.matchups] as it was for that week and
    all later ones, and no later week is requested. *)
Theorem fetch_playoff_matchups_same_pattern
    (network : Z → outcome) (w : world) :
  let w' := fetch_playoff_matchups network w in
  let before := self_matchups w in
  let after := self_matchups w' in
  let pattern := fetch_matchups_loop network (range 18 22) [] w in
  after = PyDict.update before pattern.1
  ∧ requested w' = requested pattern.2
  ∧ (∀ j, PyDict.get j after
          = from_option Some (PyDict.get j before) (PyDict.get j pattern.1))
  ∧ ((∀ j, 18 ≤ j ≤ 21 → stops (network j) = false) →
       requested w' = requested w ++ range 18 22
       ∧ ∀ j, PyDict.get j after
              = if decide (18 ≤ j ≤ 21)
                then from_option Some (PyDict.get j before)
                                 (delivered (network j))
                else PyDict.get j before)
  ∧ (∀ k, 18 ≤ k ≤ 21 → stops (network k) = true →
          (∀ j, 18 ≤ j < k → stops (network j) = false) →
       requested w' = requested w ++ range 18 (k + 1)
       ∧ ∀ j, PyDict.get j after
              = if decide (18 ≤ j < k)
                then from_option Some (PyDict.get j before)
                                 (delivered (network j))
                else PyDict.get j before)
  ∧ (∀ k msg, 18 ≤ k ≤ 21 → network k = Raises msg →
       (∀ j, k ≤ j → PyDict.get j after = PyDict.get j before)
       ∧ (∀ j, k < j → j ∉ requested w → j ∉ requested w')).
Proof.
  intros w' before after pattern. subst w' before after pattern.
  destruct (fetch_playoff_matchups_unfold network w) as [-> ->].
  assert (Hmerge : ∀ j,
    PyDict.get j (PyDict.update (self_matchups w)
                    (fetch_matchups_loop network (range 18 22) [] w).1)
    = from_option Some (PyDict.get j (self_matchups w))
        (PyDict.get j (fetch_matchups_loop network (range 18 22) [] w).1)).
  { intros j. rewrite get_update.
    - by destruct (PyDict.get j _).
    - apply regular_NoDup. constructor. }
  split_and!; [done | done | exact Hmerge | | |].
  - intros Hall.
    destruct (regular_range network 18 22 [] w) as [-> Hget];
      [intros j ?; apply Hall; lia |].
    split; [done |]. intros j. rewrite Hmerge, Hget. simpl.
    destruct (decide (18 ≤ j < 22)), (decide (18 ≤ j ≤ 21)); try lia; [|done].
    by destruct (delivered (network j)).
  - intros k Hk Hs Hall.
    destruct (regular_range_first_stop network 18 k 22 [] w) as [-> Hget];
      [lia | done | done |].
    split; [done |]. intros j. rewrite Hmerge, Hget. simpl.
    case_decide; [|done]. by destruct (delivered (network j)).
  - intros k msg Hk Hn.
    destruct (regular_range_after_stop network 18 k 22 [] w) as [Hget Hreq];
      [lia | by rewrite Hn |].
    split; [|exact Hreq]. intros j Hj. by rewrite Hmerge, Hget.
Qed.


(** ** The ad-hoc query gate *)

Section GateFacts.
Variable parse : string → res statement.

Lemma interactive_query_ok query w s df w1 :
  parse query = Ret s → execute s w = (Ret df, w1) →
  interactive_query parse query w = (Ret (Some df), print (Frame df) w1).
Proof.
  intros Hp He. unfold interactive_query, try_except, bind, parse_sql.
  by rewrite Hp, He.
Qed.

Lemma interactive_query_rejected query w msg :
  parse query = Raise (Exception msg) →
  interactive_query parse query w
  = (Ret None, print (Text ("Error executing query: " +:+ msg)) w).
Proof.
  intros Hp. unfold interactive_query, try_except, bind, parse_sql.
  by rewrite Hp.
Qed.

Lemma interactive_query_failed query w s msg w1 :
  parse query = Ret s → execute s w = (Raise (Exception msg), w1) →
  interactive_query parse query w
  = (Ret None, print (Text ("Error executing query: " +:+ msg)) w1).
Proof.
  intros Hp He. unfold interactive_query, try_except, bind, parse_sql.
  by rewrite Hp, He.
Qed.

Lemma interactive_query_no_exception query w msg :
  (interactive_query parse query w).1 ≠ Raise (Exception msg).
Proof.
  unfold interactive_query, try_except, bind, parse_sql.
  destruct (parse query) as [s|[m|]]; simpl; [|done|done].
  destruct (execute s w) as [[df|[m|]] w1]; simpl; done.
Qed.

Lemma main_loop_line line answers w0 :
  let query := strip line in
  let r := interactive_query parse query
             (print (Text (nl +:+ "Enter SQL query: ")) w0) in
  query ≠ "" → lower query ≠ "quit" → r.1 ≠ Raise KeyboardInterrupt →
  main_loop parse (Line line :: answers) w0 = main_loop parse answers r.2.
Proof.
  intros query r Hne Hq Hr. subst r. cbn [main_loop]. fold query.
  rewrite bool_decide_eq_false_2, bool_decide_eq_true_2 by done.
  pose proof (interactive_query_no_exception query
                (print (Text (nl +:+ "Enter SQL query: ")) w0)) as Hex.
  destruct (interactive_query parse query _) as [[o|[m|]] w1]; simpl in *.
  - done.
  - by destruct (Hex m).
  - done.
Qed.

Lemma main_loop_blank line answers w0 :
  strip line = "" →
  main_loop parse (Line line :: answers) w0
  = main_loop parse answers (print (Text (nl +:+ "Enter SQL query: ")) w0).
Proof. intros Hb. cbn [main_loop]. rewrite Hb. done. Qed.

Lemma main_loop_keeps_prompting answers w :
  uninterrupted parse → Forall not_quit answers →
  (main_loop parse answers w).1 = Prompting.
Proof.
  intros Hun Hall. revert w.
  induction Hall as [|a answers Ha _ IH]; intros w; [done |].
  destruct a as [line|]; [|done]. simpl in Ha.
  destruct (decide (strip line = "")) as [Hb|Hb].
  - rewrite main_loop_blank by done. apply IH.
  - rewrite main_loop_line; [apply IH | done | done | apply Hun].
Qed.
End GateFacts.

(** C7: an ad-hoc query that the engine runs is printed and returned as a
    table; one that the parser rejects or that fails in the engine has its
    error printed and [None] returned; [interactive_query] raises no
    [Exception]. In the loop, a line that is not blank and not [quit] is run
    and the loop goes on with the next answer, so a rejected query is
    followed by the next prompt; and as long as no answer is [quit] or
    Ctrl-C, the loop is back at the prompt after every answer. *)
Theorem adhoc_gate_catches_engine_errors (parse : string → res statement) :
  (∀ query w,
     let r := interactive_query parse query w in
     (∀ s df w1, parse query = Ret s → execute s w = (Ret df, w1) →
        r = (Ret (Some df), print (Frame df) w1))
     ∧ (∀ msg, parse query = Raise (Exception msg) →
        r = (Ret None, print (Text ("Error executing query: " +:+ msg)) w))
     ∧ (∀ s msg w1, parse query = Ret s →
        execute s w = (Raise (Exception msg), w1) →
        r = (Ret None, print (Text ("Error executing query: " +:+ msg)) w1))
     ∧ (∀ msg, r.1 ≠ Raise (Exception msg)))
  ∧ (∀ line answers w,
       let query := strip line in
       let prompted := print (Text (nl +:+ "Enter SQL query: ")) w in
       query ≠ "" → lower query ≠ "quit" →
       (∀ msg, parse query = Raise (Exception msg) →
          main_loop parse (Line line :: answers) w
          = main_loop parse answers
              (print (Text ("Error executing query: " +:+ msg)) prompted))
       ∧ ((interactive_query parse query prompted).1 ≠ Raise KeyboardInterrupt →
          main_loop parse (Line line :: answers) w
          = main_loop parse answers (interactive_query parse query prompted).2))
  ∧ (∀ answers w, uninterrupted parse → Forall not_quit answers →
       (main_loop parse answers w).1 = Prompting).
Proof.
  split_and!.
  - intros query w r. subst r. split_and!.
    + apply interactive_query_ok.
    + apply interactive_query_rejected.
    + apply interactive_query_failed.
    + apply interactive_query_no_exception.
  - intros line answers w query prompted Hne Hq. split.
    + intros msg Hp. rewrite main_loop_line; fold query; fold prompted.
      * by rewrite (interactive_query_rejected parse query prompted msg).
      * done.
      * done.
      * by rewrite (interactive_query_rejected parse query prompted msg).
    + intros Hr. by apply main_loop_line.
  - apply main_loop_keeps_prompting.
Qed.

(** ** The table after construction *)

Global Instance only_printed_refl : Reflexive only_printed.
Proof. intros w. by unfold only_printed. Qed.

Global Instance only_printed_trans : Transitive only_printed.
Proof.
  intros w1 w2 w3 (? & ? & ? & ? & ? & ?) (? & ? & ? & ? & ? & ?).
  unfold only_printed. split_and!; try congruence. by etrans.
Qed.

Lemma only_printed_print o w : only_printed w (print o w).
Proof. unfold only_printed. simpl. split_and!; try done. by apply prefix_app_r. Qed.

Lemma reads_only_ret {A} (a : A) : reads_only (ret a).
Proof. intros w. done. Qed.

Lemma reads_only_say o : reads_only (say o).
Proof. intros w. apply only_printed_print. Qed.

Lemma reads_only_bind {A B} (c : M A) (k : A → M B) :
  reads_only c → (∀ a, reads_only (k a)) → reads_only (bind c k).
Proof.
  intros Hc Hk w. unfold bind. specialize (Hc w).
  destruct (c w) as [[a|e] w1]; simpl in *; [|done].
  etrans; [exact Hc | apply Hk].
Qed.

Lemma reads_only_try_except {A} (c : M A) (h : string → M A) :
  reads_only c → (∀ msg, reads_only (h msg)) → reads_only (try_except c h).
Proof.
  intros Hc Hh w. unfold try_except. specialize (Hc w).
  destruct (c w) as [[a|[msg|]] w1]; simpl in *; [done | | done].
  etrans; [exact Hc | apply Hh].
Qed.

Lemma reads_only_execute_query q : reads_only (execute (Query q)).
Proof. intros w. done. Qed.

Lemma reads_only_select f : reads_only (execute (select_from_matchups f)).
Proof. apply reads_only_execute_query. Qed.

Create HintDb reads_only.
#[local] Hint Resolve reads_only_ret reads_only_say reads_only_select
  : reads_only.

Ltac reads_only_steps :=
  repeat (apply reads_only_bind; [|intros ?]);
  auto with reads_only; try apply reads_only_execute_query.

Lemma reads_only_run_stat heading f :
  reads_only (run_stat heading (select_from_matchups f)).
Proof. unfold run_stat. reads_only_steps. Qed.

Lemma reads_only_stat_1 : reads_only stat_1_highest_scores_by_week.
Proof.
  unfold stat_1_highest_scores_by_week, stat_1_sql. reads_only_steps.
Qed.

#[local] Hint Resolve reads_only_run_stat reads_only_stat_1 : reads_only.

Lemma reads_only_run_all_stats : reads_only run_all_stats.
Proof.
  unfold run_all_stats, stat_2_top_10_scores_overall,
    stat_3_lowest_scores_by_week, stat_3b_top_10_lowest_scores_overall,
    stat_4_most_wins_vs_lowest_score, stat_5_most_losses_vs_highest_score,
    stat_6_avg_points_in_win, stat_7_avg_points_in_loss, stat_1_sql.
  reads_only_steps.
Qed.

Section GateFrame.
Variable parse : string → res statement.

(** What a query text does to the tables is what its statement does. *)
Lemma interactive_query_db query w :
  self_db (interactive_query parse query w).2
  = match parse query with
    | Ret (Command c) =>
        match c (self_db w) with
        | Ret (d, _) => d
        | Raise _ => self_db w
        end
    | _ => self_db w
    end.
Proof.
  unfold interactive_query, try_except, bind, parse_sql.
  destruct (parse query) as [[q|c]|[msg|]]; simpl; try done.
  - by destruct (q (self_db w)) as [df|[msg|]].
  - by destruct (c (self_db w)) as [[d df]|[msg|]].
Qed.

Lemma interactive_query_reads_only query :
  (∀ c, parse query ≠ Ret (Command c)) →
  reads_only (interactive_query parse query).
Proof.
  intros Hq. unfold interactive_query.
  apply reads_only_try_except.
  - intros w. unfold bind at 1, parse_sql.
    destruct (parse query) as [[q|c]|e] eqn:Hp; simpl; [| |done].
    + apply (reads_only_bind (execute (Query q))).
      * apply reads_only_execute_query.
      * intros df. apply reads_only_bind; [apply reads_only_say |].
        intros _. apply reads_only_ret.
    + by destruct (Hq c).
  - intros msg. apply reads_only_bind; [apply reads_only_say |].
    intros _. apply reads_only_ret.
Qed.

Lemma main_loop_reads_only answers w :
  (∀ query c, parse query ≠ Ret (Command c)) →
  only_printed w (main_loop parse answers w).2.
Proof.
  intros Hq. revert w. induction answers as [|a answers IH]; intros w; [done |].
  cbn [main_loop].
  set (w0 := print (Text (nl +:+ "Enter SQL query: ")) w).
  assert (H0 : only_printed w w0) by apply only_printed_print.
  destruct a as [line|]; [|done].
  case_bool_decide; [done |]. case_bool_decide.
  - pose proof (interactive_query_reads_only (strip line) (Hq _) w0) as Hi.
    destruct (interactive_query parse (strip line) w0) as [[o|[msg|]] w1];
      simpl in Hi.
    + etrans; [exact H0 |]. etrans; [exact Hi | apply IH].
    + etrans; [exact H0 |]. etrans; [exact Hi |].
      etrans; [apply only_printed_print | apply IH].
    + by etrans.
  - etrans; [exact H0 | apply IH].
Qed.
End GateFrame.

(** C9, the claim as stated, fails: the gate hands the operator's text to
    the engine as it is, and a DELETE that the engine accepts empties the
    table. *)
Lemma adhoc_delete_changes_table :
  let w := Sample.built in
  let w' := (interactive_query Sample.parse "DELETE FROM matchups" w).2 in
  length <$> matchups (self_db w) = Some 6%nat
  ∧ matchups (self_db w') = Some []
  ∧ self_db w' ≠ self_db w.
Proof.
  assert (H1 : length <$> matchups (self_db Sample.built) = Some 6%nat)
    by by vm_compute.
  assert (H2 : matchups (self_db (interactive_query Sample.parse
                 "DELETE FROM matchups" Sample.built).2) = Some [])
    by by vm_compute.
  cbv zeta. split_and!; [done | done |].
  intros Heq. rewrite Heq in H2. rewrite H2 in H1. done.
Qed.

(** C9, amended: every query of the library, and [run_all_stats] as a
    whole, leaves the object and its tables as they were and only prints;
    so does an ad-hoc query unless its text is a command, and so does the
    whole interactive loop when no text is one. For a command, the tables
    after the gate are the tables the command leaves. *)
Theorem table_unchanged_by_queries (parse : string → res statement) :
  reads_only stat_1_highest_scores_by_week
  ∧ reads_only stat_2_top_10_scores_overall
  ∧ reads_only stat_3_lowest_scores_by_week
  ∧ reads_only stat_3b_top_10_lowest_scores_overall
  ∧ reads_only stat_4_most_wins_vs_lowest_score
  ∧ reads_only stat_5_most_losses_vs_highest_score
  ∧ reads_only stat_6_avg_points_in_win
  ∧ reads_only stat_7_avg_points_in_loss
  ∧ reads_only run_all_stats
  ∧ (∀ query, (∀ c, parse query ≠ Ret (Command c)) →
       reads_only (interactive_query parse query))
  ∧ (∀ answers w, (∀ query c, parse query ≠ Ret (Command c)) →
       only_printed w (main_loop parse answers w).2)
  ∧ (∀ query c w d df,
       parse query = Ret (Command c) → c (self_db w) = Ret (d, df) →
       self_db (interactive_query parse query w).2 = d).
Proof.
  split_and!;
    try apply reads_only_stat_1; try apply reads_only_run_stat.
  - apply reads_only_run_all_stats.
  - apply interactive_query_reads_only.
  - intros answers w. apply main_loop_reads_only.
  - intros query c w d df Hp Hc. by rewrite interactive_query_db, Hp, Hc.
Qed.


(** ** The theorems on the small league *)

(** Week 1, matchup 1 of the small league: Team A wins with rank 1. *)
Lemma one_winner_per_partition_witness :
  let part := filter (λ r : matchups_row, week r = 1 ∧ matchup_id r = Some 1)
                     (matchups_table Sample.raw) in
  part ≠ []
  ∧ length (filter (λ r, won r = 1) part) = 1%nat
  ∧ rank_in_matchup <$> part = seqZ 1 (Z.of_nat (length part)).
Proof.
  assert (Hne : filter (λ r : matchups_row,
                          week r = 1 ∧ matchup_id r = Some 1)
                  (matchups_table Sample.raw) ≠ [])
    by (vm_compute; discriminate).
  destruct (one_winner_per_partition Sample.raw 1 (Some 1) Hne)
    as (H1 & _ & H3 & _).
  cbv zeta. split_and!; [exact Hne | exact H1 | exact H3].
Defined.

(** Week 5 times out: the weeks 1 to 5 are requested, week 3 (a 404) and
    the weeks from 5 on are missing. *)
Lemma fetch_matchups_stops_at_first_exception_witness :
  let w' := fetch_matchups Sample.network Sample.start in
  requested w' = [1; 2; 3; 4; 5]
  ∧ ∀ j, PyDict.get j (self_matchups w')
         = if decide (1 ≤ j < 5) then delivered (Sample.network j) else None.
Proof.
  assert (Hbefore : ∀ j, 1 ≤ j < 5 → stops (Sample.network j) = false).
  { intros j Hj.
    assert (Hcase : j = 1 ∨ j = 2 ∨ j = 3 ∨ j = 4) by lia.
    destruct Hcase as [ -> | [ -> | [ -> | -> ] ] ]; reflexivity. }
  destruct (fetch_matchups_stops_at_first_exception Sample.network Sample.start)
    as (_ & Hfirst & _).
  destruct (Hfirst 5) as [Hreq Hget]; [lia | reflexivity | exact Hbefore |].
  cbv zeta. split; [exact Hreq | exact Hget].
Defined.

(** Team A: p1 and p2 score, p3 scores 0, p4 has no score and p9 is not
    listed; p2 is the top scorer with 31. *)
Lemma normalize_player_scores_witness :
  let m := Sample.team_a in
  let r := normalize Sample.users Sample.rosters 1 m in
  included m "p2"
  ∧ players_json r = [("p1", (41 # 2)%Q); ("p2", 31%Q)]
  ∧ ∃ top, top_player_id r = Some top
           ∧ included m top
           ∧ has_score m top (top_player_score r)
           ∧ ∀ p s, included m p → has_score m p s →
                    (s <= top_player_score r)%Q.
Proof.
  assert (Hinc : included Sample.team_a "p2").
  { split; [simpl; right; left |].
    exists 31%Q. split; [|reflexivity]. eexists. split; [reflexivity |].
    by vm_compute. }
  destruct (normalize_player_scores Sample.users Sample.rosters 1 Sample.team_a)
    as (_ & _ & _ & Htop & _).
  cbv zeta. split_and!; [exact Hinc | by vm_compute |].
  apply Htop. by exists "p2".
Defined.

(** Roster 5 has no record: its team is [Team_5]. *)
Lemma normalize_team_name_witness :
  Sample.rosters !! 5 = None
  ∧ team_name (normalize Sample.users Sample.rosters 1 Sample.team_d)
    = "Team_5".
Proof.
  assert (Hnone : Sample.rosters !! 5 = None) by reflexivity.
  destruct (normalize_team_name Sample.users Sample.rosters 1 Sample.team_d)
    as (_ & _ & Hmissing & _).
  split; [exact Hnone | exact (Hmissing Hnone)].
Defined.

(** The three wins of 120.1: the average is below the least of them, by
    less than the margin. *)
Lemma avg_points_in_win_and_loss_witness :
  let a := {| ar_team_name := "Team A"; ar_count := 3;
              ar_avg := Some (8451286175737445 # 70368744177664)%Q;
              ar_min := Some Sample.score_120_1;
              ar_max := Some Sample.score_120_1 |} in
  a ∈ stat_6_query Sample.lone_table
  ∧ in_double_range 3 Sample.score_120_1 Sample.score_120_1
  ∧ ∃ avg_win min_win max_win,
      ar_avg a = Some avg_win ∧ ar_min a = Some min_win
      ∧ ar_max a = Some max_win
      ∧ (min_win - rounding_margin 3 min_win max_win <= avg_win)%Q
      ∧ (avg_win <= max_win + rounding_margin 3 min_win max_win)%Q.
Proof.
  set (a := {| ar_team_name := "Team A"; ar_count := 3;
               ar_avg := Some (8451286175737445 # 70368744177664)%Q;
               ar_min := Some Sample.score_120_1;
               ar_max := Some Sample.score_120_1 |}).
  assert (Hin : a ∈ stat_6_query Sample.lone_table).
  { assert (Hq : stat_6_query Sample.lone_table = [a]) by by vm_compute.
    rewrite Hq. left. }
  assert (Hrange : in_double_range 3 Sample.score_120_1 Sample.score_120_1).
  { split; [by vm_compute | by vm_compute]. }
  destruct (avg_points_in_win_and_loss Sample.lone_table) as [Hwin _].
  destruct (Hwin a Hin)
    as (_ & _ & avg & lo & hi & Havg & Hlo & Hhi & _ & _ & _ & Hnear).
  injection Hlo as <-. injection Hhi as <-.
  split_and!; [exact Hin | exact Hrange |].
  exists avg, Sample.score_120_1, Sample.score_120_1.
  split_and!; [exact Havg | done | done | by apply Hnear | by apply Hnear].
Defined.

(** A misspelt query: the error is printed and the loop is at the next
    answer. *)
Lemma adhoc_gate_catches_engine_errors_witness :
  let msg := "Parser Error: syntax error in SELEKT * FROM matchups" in
  main_loop Sample.parse [Line "  SELEKT * FROM matchups "; Line "quit"]
            Sample.built
  = main_loop Sample.parse [Line "quit"]
      (print (Text ("Error executing query: " +:+ msg))
         (print (Text (nl +:+ "Enter SQL query: ")) Sample.built)).
Proof.
  destruct (adhoc_gate_catches_engine_errors Sample.parse) as (_ & Hloop & _).
  destruct (Hloop "  SELEKT * FROM matchups " [Line "quit"] Sample.built)
    as [Hrejected _]; [vm_compute; discriminate | vm_compute; discriminate |].
  cbv zeta. apply Hrejected. reflexivity.
Defined.

(** Week 19 times out: the weeks 18 and 19 are requested, week 18 is
    merged, the weeks from 19 on are not. *)
Lemma fetch_playoff_matchups_same_pattern_witness :
  let w := fetch_matchups Sample.network Sample.start in
  let w' := fetch_playoff_matchups Sample.network w in
  requested w' = requested w ++ [18; 19]
  ∧ ∀ j, 19 ≤ j →
         PyDict.get j (self_matchups w') = PyDict.get j (self_matchups w).
Proof.
  assert (Hbefore : ∀ j, 18 ≤ j < 19 → stops (Sample.network j) = false).
  { intros j Hj. assert (j = 18) as -> by lia. reflexivity. }
  destruct (fetch_playoff_matchups_same_pattern Sample.network
              (fetch_matchups Sample.network Sample.start))
    as (_ & _ & _ & _ & Hfirst & Hraise).
  destruct (Hfirst 19) as [Hreq _]; [lia | reflexivity | exact Hbefore |].
  destruct (Hraise 19 "timed out") as [Hget _]; [lia | reflexivity |].
  cbv zeta. split; [exact Hreq | exact Hget].
Defined.

(** A count is a query: the gate runs it and only prints. *)
Lemma table_unchanged_by_queries_witness :
  let query := "SELECT COUNT(week) FROM matchups" in
  (∀ c, Sample.parse query ≠ Ret (Command c))
  ∧ only_printed Sample.built
      (interactive_query Sample.parse query Sample.built).2.
Proof.
  assert (Hq : ∀ c, Sample.parse "SELECT COUNT(week) FROM matchups"
                    ≠ Ret (Command c)).
  { intros c Hc. vm_compute in Hc. discriminate. }
  destruct (table_unchanged_by_queries Sample.parse)
    as (_ & _ & _ & _ & _ & _ & _ & _ & _ & Hgate & _).
  cbv zeta. split; [exact Hq | exact (Hgate _ Hq Sample.built)].
Defined.

(** Team 3 of week 1 comes without points. *)
Lemma normalize_points_default_witness :
  Entry.points Sample.team_c = None
  ∧ let r := normalize Sample.users Sample.rosters 1 Sample.team_c in
    r ∈ matchup_records Sample.users Sample.rosters [(1, Sample.week_1)]
    ∧ points r = 0%Q.
Proof.
  assert (Hwk : (1, Sample.week_1) ∈ [(1, Sample.week_1)]) by left.
  assert (Hm : Sample.team_c ∈ Sample.week_1) by (do 2 right; left).
  assert (Hp : Entry.points Sample.team_c = None) by reflexivity.
  destruct (normalize_points_default Sample.users Sample.rosters
              [(1, Sample.week_1)] 1 Sample.week_1 Sample.team_c Hwk Hm Hp)
    as (Hin & H0 & _).
  split; [exact Hp |]. cbv zeta. split; [exact Hin | exact H0].
Defined.

(** The top ten of the small league: its six rows, best first. *)
Lemma top_10_and_bottom_10_witness :
  length (stat_2_query Sample.table) = 6%nat
  ∧ StronglySorted (desc_by rs_points) (stat_2_query Sample.table).
Proof.
  destruct (top_10_and_bottom_10 Sample.table) as (Hlen & Hsorted & _).
  split; [exact Hlen | exact Hsorted].
Defined.


(** * Further properties *)

(** ** Groups and windows *)

Section GroupMore.
Context {A K : Type} `{EqDecision K}.
Variable key : A → K.

Lemma bind_filter_keys (ks : list K) (l : list A) :
  NoDup ks → Forall (λ a, key a ∈ ks) l →
  ks ≫= (λ k, filter (λ a, key a = k) l) ≡ₚ l.
Proof.
  intros Hks. revert l. induction Hks as [|k ks Hk _ IH]; intros l Hl.
  - destruct l as [|a l]; [done |].
    apply Forall_cons in Hl as [Ha _]. by apply elem_of_nil in Ha.
  - rewrite bind_cons.
    trans (filter (λ a, key a = k) l ++ filter (λ a, ¬ key a = k) l);
      [|apply filter_app_complement].
    apply Permutation_app; [done |].
    assert (Heq : ks ≫= (λ k', filter (λ a, key a = k') l)
                  = ks ≫= (λ k', filter (λ a, key a = k')
                                   (filter (λ a, ¬ key a = k) l))).
    { apply Forall_bind_ext, Forall_forall.
      intros k' Hk'. rewrite list_filter_filter.
      apply list_filter_iff. intros a. split; [|by intros [? _]].
      intros Ha. split; [done |]. intros Hak. apply Hk. congruence. }
    rewrite Heq. apply IH.
    + apply Forall_forall. intros a Ha.
      apply list_elem_of_filter in Ha as [Hne Ha].
      rewrite Forall_forall in Hl. specialize (Hl a Ha).
      apply elem_of_cons in Hl as [?|?]; done.
Qed.

(** Grouping loses no row and repeats none. *)
Lemma group_by_Permutation (l : list A) :
  group_by key l ≫= snd ≡ₚ l.
Proof.
  unfold group_by. rewrite list_fmap_bind.
  apply (bind_filter_keys (remove_dups (key <$> l)) l).
  - apply NoDup_remove_dups.
  - apply Forall_forall. intros a Ha. apply elem_of_remove_dups.
    by apply list_elem_of_fmap_2.
Qed.

Lemma group_by_keys (l : list A) :
  (group_by key l).*1 = remove_dups (key <$> l).
Proof.
  unfold group_by. rewrite <- list_fmap_compose.
  apply list_fmap_id.
Qed.

Lemma length_bind_const {B C} (f : B → list C) (n : nat) (l : list B) :
  Forall (λ b, length (f b) = n) l →
  length (l ≫= f) = (length l * n)%nat.
Proof.
  induction 1 as [|b l Hb _ IH]; [done |].
  rewrite bind_cons, length_app, Hb, IH. simpl. lia.
Qed.

Lemma row_number_over_Permutation (R : relation A) `{!RelDecision R}
    (l : list A) :
  (row_number_over key R l).*1 ≡ₚ l.
Proof.
  unfold row_number_over.
  rewrite <- (group_by_Permutation l) at 2.
  induction (group_by key l) as [|g gs IH]; [done |].
  rewrite !bind_cons, fmap_app, IH. apply Permutation_app; [|done].
  unfold row_number. by rewrite number_from_fst, merge_sort_Permutation.
Qed.

(** One row per partition gets number 1. *)
Lemma row_number_over_firsts (R : relation A) `{!RelDecision R}
    (l : list A) :
  length (filter (λ rr : A * Z, rr.2 = 1) (row_number_over key R l))
  = length (remove_dups (key <$> l)).
Proof.
  unfold row_number_over. rewrite filter_bind.
  rewrite (length_bind_const _ 1).
  - rewrite <- group_by_keys, length_fmap. lia.
  - apply Forall_forall. intros [k g] Hg.
    apply elem_of_group_by in Hg as [Hk Hg]. simpl in *.
    assert (Hne : merge_sort R g ≠ []).
    { intros Hnil. apply (group_nonempty key l k Hk). rewrite <- Hg.
      apply Permutation_nil_r. by rewrite <- (merge_sort_Permutation R g), Hnil. }
    destruct (merge_sort R g) as [|x s]; [done |].
    by rewrite row_number_first.
Qed.
(** The rows with number 1 are of the partitions, one of each. *)
Lemma row_number_over_first_keys (R : relation A) `{!RelDecision R}
    (l : list A) :
  (λ rr : A * Z, key rr.1)
    <$> filter (λ rr : A * Z, rr.2 = 1) (row_number_over key R l)
  = remove_dups (key <$> l).
Proof.
  unfold row_number_over. rewrite filter_bind, <- group_by_keys.
  assert (Hall : Forall (λ g : K * list A,
            ∃ x, filter (λ rr : A * Z, rr.2 = 1)
                        (row_number (merge_sort R g.2)) = [(x, 1)]
                 ∧ key x = g.1) (group_by key l)).
  { apply Forall_forall. intros [k g] Hg.
    apply elem_of_group_by in Hg as [Hk Hg]. simpl in *.
    assert (Hperm : merge_sort R g ≡ₚ g) by apply merge_sort_Permutation.
    destruct (merge_sort R g) as [|x s] eqn:Hs.
    - exfalso. apply (group_nonempty key l k Hk). rewrite <- Hg.
      symmetry. by apply Permutation_nil_l.
    - exists x. rewrite row_number_first. split; [done |].
      assert (Hx : x ∈ g) by (rewrite <- Hperm; left).
      rewrite Hg in Hx. by apply list_elem_of_filter in Hx as [? _]. }
  induction Hall as [|g gs (x & Hx & Hk) _ IH]; [done |].
  rewrite bind_cons, fmap_app, IH, fmap_cons. simpl. by rewrite Hx, <- Hk.
Qed.

Lemma NoDup_fmap_filter {B} (f : A → B) (P : A → Prop)
    `{!∀ a, Decision (P a)} (l : list A) :
  NoDup (f <$> l) → NoDup (f <$> filter P l).
Proof.
  induction l as [|a l IH]; [done |].
  rewrite fmap_cons, NoDup_cons, filter_cons. intros [Ha Hl].
  destruct (decide (P a)); [|by apply IH].
  rewrite fmap_cons, NoDup_cons. split; [|by apply IH].
  intros Hin. apply Ha. apply list_elem_of_fmap in Hin as (b & -> & Hb).
  apply list_elem_of_filter in Hb as [_ Hb]. by apply list_elem_of_fmap_2.
Qed.
End GroupMore.

(** ** The store as a whole *)

Lemma length_matchup_records users rosters
    (matchups : PyDict.t Z (list Entry.t)) :
  length (matchup_records users rosters matchups)
  = sum_list_with (λ wm : Z * list Entry.t, length wm.2) matchups.
Proof.
  unfold matchup_records. induction matchups as [|[wk es] ms IH]; [done |].
  rewrite bind_cons, length_app, length_fmap, IH. done.
Qed.

Lemma matchups_table_Permutation (raw : list matchup_record) :
  rec <$> matchups_table raw ≡ₚ raw.
Proof.
  unfold matchups_table, ranked_matchups. rewrite <- list_fmap_compose.
  apply (row_number_over_Permutation partition_key (desc_by points) raw).
Qed.

Lemma matchups_table_winners (raw : list matchup_record) :
  length (filter (λ r, won r = 1) (matchups_table raw))
  = length (remove_dups (partition_key <$> raw)).
Proof.
  unfold matchups_table, ranked_matchups.
  rewrite (filter_fmap with_rank (λ r : matchups_row, won r = 1)).
  rewrite length_fmap.
  rewrite <- (row_number_over_firsts partition_key (desc_by points) raw).
  f_equal. apply list_filter_iff. intros [a i]. unfold with_rank. simpl.
  case_bool_decide; split; intros; (done || lia).
Qed.

Lemma matchups_table_won (raw : list matchup_record) :
  Forall (λ r, (won r = 1 ∧ rank_in_matchup r = 1)
               ∨ (won r = 0 ∧ 1 < rank_in_matchup r))
         (matchups_table raw).
Proof.
  unfold matchups_table, ranked_matchups.
  apply Forall_fmap, Forall_forall. intros [a i] Hin.
  unfold row_number_over in Hin.
  apply list_elem_of_bind in Hin as (g & Hin & _).
  apply number_from_ge in Hin. unfold with_rank. simpl.
  case_bool_decide; [left | right]; split; (done || lia).
Qed.

(** The winner of the partition of a record. *)
Lemma matchups_table_one_winner (raw : list matchup_record)
    (r : matchup_record) :
  r ∈ raw →
  length (filter (λ r' : matchups_row,
                    week r' = week r ∧ matchup_id r' = matchup_id r
                    ∧ won r' = 1)
                 (matchups_table raw)) = 1%nat.
Proof.
  intros Hr.
  set (part := filter (λ r' : matchups_row,
                         partition_key r' = (week r, matchup_id r))
                      (matchups_table raw)).
  assert (Hne : part ≠ []).
  { rewrite <- (matchups_table_Permutation raw) in Hr.
    apply list_elem_of_fmap in Hr as (r' & -> & Hr').
    assert (Hin : r' ∈ part) by by apply list_elem_of_filter.
    intros Hnil. rewrite Hnil in Hin. by apply elem_of_nil in Hin. }
  destruct (partition_ranked raw (week r) (matchup_id r) Hne) as [H1 _].
  rewrite <- H1. unfold part. rewrite list_filter_filter. f_equal.
  apply list_filter_iff. intros r'. rewrite partition_key_fields. tauto.
Qed.

(** X1: the table holds the records it was built from, each once; of the
    rows with the week and the matchup id of a record exactly one has
    [won = 1], so that the winners are as many as the pairs of a week and
    a matchup id among the records; and every row has either [won = 1] and
    rank 1, or [won = 0] and a larger rank. *)
Theorem matchups_table_rows (raw : list matchup_record) :
  rec <$> matchups_table raw ≡ₚ raw
  ∧ (∀ r : matchup_record, r ∈ raw →
       length (filter (λ r' : matchups_row,
                         week r' = week r ∧ matchup_id r' = matchup_id r
                         ∧ won r' = 1)
                      (matchups_table raw)) = 1%nat)
  ∧ length (filter (λ r, won r = 1) (matchups_table raw))
    = length (remove_dups ((λ r, (week r, matchup_id r)) <$> raw))
  ∧ Forall (λ r, (won r = 1 ∧ rank_in_matchup r = 1)
                 ∨ (won r = 0 ∧ 1 < rank_in_matchup r))
           (matchups_table raw).
Proof.
  split_and!;
    [apply matchups_table_Permutation | apply matchups_table_one_winner
    | apply matchups_table_winners | apply matchups_table_won].
Qed.

(** X2: on a connection without a [matchups] table and with at least one
    fetched entry, [build_database] returns; the table is built from the
    normalised records of all weeks, the count it reports is the number of
    fetched entries, and nothing else of the object changes. *)
Theorem build_database_loads_every_entry (w : world) :
  let records :=
    matchup_records (self_users w) (self_rosters w) (self_matchups w) in
  let n := sum_list_with (λ wm : Z * list Entry.t, length wm.2)
                         (self_matchups w) in
  records ≠ [] → matchups (self_db w) = None →
  (build_database w).1 = Ret tt
  ∧ self_db (build_database w).2
    = {| matchups_raw := Some records;
         matchups := Some (matchups_table records) |}
  ∧ length (matchups_table records) = n
  ∧ console (build_database w).2
    = console w
      ++ [Text (nl +:+ "Building DuckDB database...");
          Text "Database built successfully!";
          Text ("Loaded " +:+ pretty (Z.of_nat n) +:+ " matchup records")]
  ∧ self_matchups (build_database w).2 = self_matchups w
  ∧ self_users (build_database w).2 = self_users w
  ∧ self_rosters (build_database w).2 = self_rosters w
  ∧ requested (build_database w).2 = requested w.
Proof.
  intros records n Hne Hnone.
  assert (Hlen : length (matchups_table records) = n).
  { rewrite <- (length_fmap rec), matchups_table_Permutation.
    apply length_matchup_records. }
  unfold build_database, bind, say, register_matchups_raw, execute,
    create_matchups, count_matchups, select_from_matchups.
  fold records. cbn [self_db set_db print matchups matchups_raw fst snd].
  rewrite Hnone. destruct records as [|r0 rs] eqn:Hr; [done |].
  cbn [self_db set_db print matchups matchups_raw fst snd first_count
       count_frame rows console self_matchups self_users self_rosters
       requested].
  rewrite Hlen. split_and!; try done.
  by rewrite <- !app_assoc.
Qed.

(** X3: [build_database] on a connection that already has the table raises
    (the statement is a plain CREATE TABLE) and the table stays as it was. *)
Theorem build_database_twice_raises (w : world) :
  is_Some (matchups (self_db w)) →
  (∃ msg, (build_database w).1 = Raise (Exception msg))
  ∧ matchups (self_db (build_database w).2) = matchups (self_db w).
Proof.
  intros [t Ht].
  unfold build_database, bind, say, register_matchups_raw, execute,
    create_matchups.
  cbn [self_db set_db print matchups matchups_raw fst snd].
  rewrite Ht.
  destruct (matchup_records _ _ _) as [|r0 rs];
    cbn [self_db set_db print matchups matchups_raw fst snd]; eauto.
Qed.


(** ** The normaliser: order and ties *)

Section FirstOccurrences.
Context {A : Type} `{EqDecision A}.
Implicit Types l : list A.

Lemma elem_of_first_occurrences l x : x ∈ first_occurrences l ↔ x ∈ l.
Proof.
  induction l as [|y l IH]; [done |]. cbn [first_occurrences].
  rewrite !elem_of_cons, list_elem_of_filter, IH.
  destruct (decide (x = y)); [by split; auto |].
  split; [intros [?|[_ ?]]; auto | intros [?|?]; auto].
Qed.

Lemma NoDup_first_occurrences l : NoDup (first_occurrences l).
Proof.
  induction l as [|y l IH]; [constructor |]. cbn [first_occurrences].
  constructor; [|by apply NoDup_filter].
  rewrite list_elem_of_filter. by intros [? _].
Qed.

Lemma first_occurrences_app l1 l2 :
  first_occurrences (l1 ++ l2)
  = first_occurrences l1
    ++ filter (λ y, y ∉ l1) (first_occurrences l2).
Proof.
  induction l1 as [|x l1 IH].
  - simpl. symmetry. apply filter_all, Forall_forall.
    intros y _. apply not_elem_of_nil.
  - rewrite <- app_comm_cons. cbn [first_occurrences].
    rewrite IH, filter_app, list_filter_filter, <- app_comm_cons.
    do 2 f_equal.
    apply list_filter_iff. intros y. rewrite not_elem_of_cons. tauto.
Qed.

Lemma NoDup_split_unique (a a' b b' : list A) x :
  NoDup (a ++ x :: b) → a ++ x :: b = a' ++ x :: b' → a = a'.
Proof.
  revert a'. induction a as [|y a IH]; intros a' Hnd Heq.
  - destruct a' as [|y' a']; [done |]. simpl in *.
    injection Heq as -> ->. apply NoDup_cons in Hnd as [Hx _].
    exfalso. apply Hx. rewrite elem_of_app, elem_of_cons. auto.
  - destruct a' as [|y' a']; simpl in *.
    + injection Heq as -> <-. apply NoDup_cons in Hnd as [Hx _].
      exfalso. apply Hx. rewrite elem_of_app, elem_of_cons. auto.
    + injection Heq as -> Heq. apply NoDup_cons in Hnd as [_ Hnd].
      f_equal. by apply IH.
Qed.
End FirstOccurrences.

(** [max] keeps the first of the largest: everything before it is strictly
    smaller. *)
Lemma max_from_first {K} (key : K → Q) (best : K) (l : list K) :
  ∃ l1 l2,
    best :: l = l1 ++ max_from key best l :: l2
    ∧ Forall (λ x, (key x < key (max_from key best l))%Q) l1
    ∧ Forall (λ x, (key x <= key (max_from key best l))%Q) l2.
Proof.
  revert best. induction l as [|x l IH]; intros best.
  - exists [], []. simpl. by split_and!.
  - cbn [max_from]. destruct (Qltb (key best) (key x)) eqn:Hlt.
    + destruct (IH x) as (l1 & l2 & Heq & H1 & H2).
      exists (best :: l1), l2. split_and!; [by rewrite Heq | | done].
      constructor; [|done]. apply Qltb_lt in Hlt.
      eapply Qlt_le_trans; [exact Hlt |].
      apply (max_from_spec key x l). left.
    + apply not_true_iff_false in Hlt. rewrite Qltb_lt in Hlt.
      apply Qnot_lt_le in Hlt.
      destruct (IH best) as (l1 & l2 & Heq & H1 & H2).
      destruct l1 as [|b l1]; simpl in Heq.
      * injection Heq as Hb Hl. exists [], (x :: l).
        split_and!; [by rewrite <- Hb | done |].
        constructor; [by rewrite <- Hb | by rewrite <- Hl in H2].
      * injection Heq as <- Hl. exists (best :: x :: l1), l2.
        split_and!; [simpl; by rewrite <- Hl | | done].
        apply Forall_cons in H1 as [Hb H1].
        constructor; [done |]. constructor; [|done].
        eapply Qle_lt_trans; [exact Hlt | exact Hb].
Qed.

Lemma Qlt_decide_Qltb (a b : Q) : (a < b)%Q ↔ Qltb a b = true.
Proof. symmetry. apply Qltb_lt. Qed.

Lemma keys_add_player_score (m : Entry.t) (acc : PyDict.t string Q) x :
  PyDict.keys (add_player_score m acc x)
  = if decide (0 < player_score m x)%Q
    then if decide (x ∈ PyDict.keys acc) then PyDict.keys acc
         else PyDict.keys acc ++ [x]
    else PyDict.keys acc.
Proof.
  unfold add_player_score. destruct (Qltb 0 (player_score m x)) eqn:Hpos.
  - rewrite decide_True by by apply Qltb_lt. apply keys_set.
  - rewrite decide_False; [done |]. rewrite Qlt_decide_Qltb, Hpos. done.
Qed.

Lemma keys_collect (m : Entry.t) (l : list string)
    (acc : PyDict.t string Q) :
  PyDict.keys (foldl (add_player_score m) acc l)
  = PyDict.keys acc
    ++ filter (λ p, p ∉ PyDict.keys acc)
         (first_occurrences (filter (λ p, (0 < player_score m p)%Q) l)).
Proof.
  revert acc. induction l as [|x l IH]; intros acc.
  - simpl. by rewrite app_nil_r.
  - cbn [foldl]. rewrite IH, filter_cons.
    pose proof (keys_add_player_score m acc x) as Hstep.
    set (D := first_occurrences (filter (λ p, (0 < player_score m p)%Q) l)).
    destruct (decide (0 < player_score m x)%Q) as [Hpos|Hpos].
    + cbn [first_occurrences]. fold D. rewrite filter_cons.
      destruct (decide (x ∈ PyDict.keys acc)) as [Hin|Hnin].
      * rewrite decide_False by tauto.
        rewrite (list_filter_iff _ (λ p, p ∉ PyDict.keys acc))
          by (intros y; by rewrite Hstep).
        rewrite Hstep. f_equal.
        rewrite list_filter_filter. apply list_filter_iff.
        intros y. split; [|tauto]. intros Hy. split; [done |]. congruence.
      * rewrite decide_True by done.
        rewrite (list_filter_iff _ (λ p, p ∉ PyDict.keys acc ++ [x]))
          by (intros y; by rewrite Hstep).
        rewrite Hstep, <- app_assoc. simpl.
        do 2 f_equal. rewrite list_filter_filter. apply list_filter_iff.
        intros y. rewrite elem_of_app, list_elem_of_singleton. tauto.
    + fold D.
      rewrite (list_filter_iff _ (λ p, p ∉ PyDict.keys acc))
        by (intros y; by rewrite Hstep).
      by rewrite Hstep.
Qed.

Lemma dict_of_keys {V} (d : PyDict.t string V) (f : string → V) :
  (∀ p v, (p, v) ∈ d → v = f p) → d = (λ p, (p, f p)) <$> PyDict.keys d.
Proof.
  unfold PyDict.keys. induction d as [|[p v] d IH]; intros Hd; [done |].
  rewrite !fmap_cons. simpl. rewrite <- (Hd p v) by left. f_equal.
  apply IH. intros q u Hq. apply Hd. by right.
Qed.

Lemma players_json_scoring users rosters wk (m : Entry.t) :
  players_json (normalize users rosters wk m)
  = (λ p, (p, player_score m p)) <$> scoring_players m.
Proof.
  cbn [players_json normalize].
  assert (Hkeys : PyDict.keys (collect_player_scores m) = scoring_players m).
  { unfold collect_player_scores. rewrite keys_collect. simpl.
    apply filter_all, Forall_forall. intros p _. apply not_elem_of_nil. }
  rewrite <- Hkeys. apply dict_of_keys. intros p v Hp.
  apply elem_of_get_Some in Hp; [|apply NoDup_collect].
  by apply get_collect in Hp as [_ ->].
Qed.

Lemma first_occurrences_filter {A} `{EqDecision A} (P : A → Prop)
    `{!∀ x, Decision (P x)} (l : list A) :
  first_occurrences (filter P l) = filter P (first_occurrences l).
Proof.
  induction l as [|x l IH]; [done |].
  cbn [first_occurrences]. rewrite !filter_cons.
  destruct (decide (P x)) as [HP|HP]; cbn [first_occurrences].
  - rewrite IH. f_equal. rewrite !list_filter_filter.
    apply list_filter_iff. intros y. simpl. split; intros [? ?]; by split.
  - rewrite IH, list_filter_filter. apply list_filter_iff.
    intros y. simpl. split; [|by intros [? _]].
    intros Hy. split; [done | by intros ->].
Qed.

(** X4: the players of the score mapping of a record come in the order in
    which the entry lists them first, each once, and the mapping holds
    exactly the listed players whose score in [players_points] is above 0,
    each with that score. *)
Theorem players_json_in_roster_order users rosters wk (m : Entry.t) :
  let r := normalize users rosters wk m in
  PyDict.keys (players_json r)
    `sublist_of` first_occurrences (default [] (Entry.players m))
  ∧ NoDup (PyDict.keys (players_json r))
  ∧ ∀ p s, (p, s) ∈ players_json r
           ↔ p ∈ default [] (Entry.players m) ∧ has_score m p s ∧ (0 < s)%Q.
Proof.
  cbv zeta. split_and!.
  - rewrite players_json_scoring. unfold PyDict.keys.
    rewrite <- list_fmap_compose.
    change (_ <$> scoring_players m) with (id <$> scoring_players m).
    rewrite list_fmap_id. unfold scoring_players.
    rewrite first_occurrences_filter. apply sublist_filter.
  - cbn [players_json normalize]. apply NoDup_collect.
  - intros p s. cbn [players_json normalize].
    rewrite <- (get_collect_entry m p s). split.
    + apply elem_of_get_Some, NoDup_collect.
    + apply get_Some_elem_of.
Qed.

(** X5: among the players with the largest score the top scorer is the one
    listed first: every player listed before it has a strictly smaller
    score, and no listed player has a larger one. *)
Theorem top_player_is_first_best users rosters wk (m : Entry.t) top :
  top_player_id (normalize users rosters wk m) = Some top →
  ∃ i : nat,
    default [] (Entry.players m) !! i = Some top
    ∧ (0 < player_score m top)%Q
    ∧ (∀ q, q ∈ default [] (Entry.players m) →
            (player_score m q <= player_score m top)%Q)
    ∧ (∀ (j : nat) q, (j < i)%nat →
            default [] (Entry.players m) !! j = Some q →
            (player_score m q < player_score m top)%Q).
Proof.
  cbn [top_player_id normalize].
  set (ps := collect_player_scores m).
  set (players := default [] (Entry.players m)).
  set (key := λ k, default 0%Q (PyDict.get k ps)).
  assert (Hkeys : PyDict.keys ps = scoring_players m).
  { unfold ps, collect_player_scores. rewrite keys_collect. simpl.
    apply filter_all, Forall_forall. intros p _. apply not_elem_of_nil. }
  assert (Hscoring : ∀ p, p ∈ PyDict.keys ps
                          ↔ p ∈ players ∧ (0 < player_score m p)%Q).
  { intros p. rewrite Hkeys. unfold scoring_players.
    rewrite elem_of_first_occurrences, list_elem_of_filter. tauto. }
  assert (Hkey : ∀ p, p ∈ PyDict.keys ps → key p = player_score m p).
  { intros p Hp. apply get_is_Some_keys in Hp as [s Hs]. unfold key.
    rewrite Hs. by apply get_collect in Hs as [_ ->]. }
  destruct (PyDict.keys ps) as [|k ks] eqn:Hks; [done |].
  cbn [py_max]. intros [= <-].
  destruct (max_from_first key k ks) as (l1 & l2 & Hsplit & H1 & H2).
  set (top := max_from key k ks) in *.
  assert (Htop : top ∈ k :: ks).
  { rewrite Hsplit, elem_of_app, elem_of_cons. auto. }
  destruct (proj1 (Hscoring top) Htop) as [Hin Hpos].
  apply list_elem_of_split_l in Hin as (p1 & p2 & Hplayers & Hfirst).
  assert (Hle : ∀ q, q ∈ players →
            (player_score m q <= player_score m top)%Q).
  { intros q Hq.
    destruct (Qlt_le_dec 0 (player_score m q)) as [Hq0|Hq0].
    - assert (Hqk : q ∈ k :: ks) by by apply Hscoring.
      rewrite <- (Hkey q Hqk), <- (Hkey top Htop).
      rewrite Hsplit, elem_of_app, elem_of_cons in Hqk.
      rewrite Forall_forall in H1, H2.
      destruct Hqk as [Hq1|[->|Hq2]];
        [by apply Qlt_le_weak, H1 | apply Qle_refl | by apply H2].
    - eapply Qle_trans; [exact Hq0 | by apply Qlt_le_weak]. }
  exists (length p1). split_and!; [| done | done |].
  - rewrite Hplayers. by apply list_lookup_middle.
  - intros j q Hj Hq. rewrite Hplayers, lookup_app_l in Hq by done.
    apply list_elem_of_lookup_2 in Hq.
    destruct (Qlt_le_dec 0 (player_score m q)) as [Hq0|Hq0];
      [|by eapply Qle_lt_trans].
    set (A1 := filter (λ p, (0 < player_score m p)%Q) p1).
    set (A2 := filter (λ p, (0 < player_score m p)%Q) p2).
    assert (Hdecomp : k :: ks
      = first_occurrences A1
        ++ top :: filter (λ y, y ∉ A1)
                    (filter (λ y, y ≠ top) (first_occurrences A2))).
    { rewrite Hkeys. unfold scoring_players. fold players.
      rewrite Hplayers, filter_app, filter_cons, decide_True by done.
      fold A1 A2. rewrite first_occurrences_app. cbn [first_occurrences].
      rewrite filter_cons, decide_True; [done |].
      unfold A1. rewrite list_elem_of_filter. tauto. }
    assert (Hl1 : first_occurrences A1 = l1).
    { eapply (NoDup_split_unique _ l1 _ l2 top).
      - rewrite <- Hdecomp, Hkeys. apply NoDup_first_occurrences.
      - by rewrite <- Hdecomp, Hsplit. }
    assert (Hq1 : q ∈ l1).
    { rewrite <- Hl1, elem_of_first_occurrences. unfold A1.
      by rewrite list_elem_of_filter. }
    assert (Hqk : q ∈ k :: ks).
    { rewrite Hsplit, elem_of_app. auto. }
    rewrite <- (Hkey q Hqk), <- (Hkey top Htop).
    rewrite Forall_forall in H1. by apply H1.
Qed.

Lemma resolve_team_name_synthetic users rosters rid :
  (∀ t, ¬ metadata_team_name users rosters rid t) →
  resolve_team_name users rosters rid = "Team_" +:+ pretty rid.
Proof.
  intros Hnone. unfold resolve_team_name.
  destruct (rosters !! rid) as [r|] eqn:Hr; simpl; [|done].
  destruct (owner_id r) as [o|] eqn:Ho; simpl; [|done].
  destruct (users !! o) as [u|] eqn:Hu; simpl; [|done].
  destruct (metadata u) as [md|] eqn:Hmd; simpl; [|done].
  destruct (md !! "team_name") as [t|] eqn:Ht; simpl; [|done].
  exfalso. apply (Hnone t). by exists r, o, u, md.
Qed.

(** X6: two records without a metadata team name carry the same team name
    exactly when they are of the same roster, so the queries that group by
    team name keep such rosters apart. *)
Theorem synthetic_team_names_distinct users rosters wk1 wk2
    (m1 m2 : Entry.t) :
  (∀ t, ¬ metadata_team_name users rosters (Entry.roster_id m1) t) →
  (∀ t, ¬ metadata_team_name users rosters (Entry.roster_id m2) t) →
  team_name (normalize users rosters wk1 m1)
  = team_name (normalize users rosters wk2 m2)
  ↔ Entry.roster_id m1 = Entry.roster_id m2.
Proof.
  intros H1 H2. cbn [team_name normalize].
  rewrite !resolve_team_name_synthetic by done.
  split; [|by intros ->].
  intros Heq. apply (inj (String.app "Team_")) in Heq.
  by apply (inj pretty) in Heq.
Qed.


(** ** The fetched weeks, whatever the answers *)

Section DictMore.
Context {K V : Type} `{EqDecision K}.
Implicit Types d : PyDict.t K V.

Lemma keys_update d other :
  NoDup (PyDict.keys other) →
  (∀ k, k ∈ PyDict.keys other → k ∉ PyDict.keys d) →
  PyDict.keys (PyDict.update d other) = PyDict.keys d ++ PyDict.keys other.
Proof.
  unfold PyDict.update, PyDict.keys. revert d.
  induction other as [|[k v] other IH]; intros d Hnd Hdisj.
  - simpl. by rewrite app_nil_r.
  - rewrite fmap_cons in Hnd, Hdisj. apply NoDup_cons in Hnd as [Hk Hnd].
    cbn [foldl fst snd].
    assert (Hset : (PyDict.set k v d).*1 = d.*1 ++ [k]).
    { pose proof (keys_set d k v) as Hs. unfold PyDict.keys in Hs.
      rewrite Hs, decide_False; [done |]. apply Hdisj. left. }
    rewrite IH, Hset, fmap_cons, <- app_assoc; [done | done |].
    intros k' Hk'. rewrite Hset, elem_of_app, list_elem_of_singleton.
    intros [Hd| ->]; [|done]. apply (Hdisj k'); [by right | done].
Qed.
End DictMore.

Section LoopMore.
Variable network : Z → outcome.
Variable loop : list Z → PyDict.t Z (list Entry.t) → world
                → PyDict.t Z (list Entry.t) * world.
Variable at_week : Z → Z.

Hypothesis loop_nil : ∀ acc w, loop [] acc w = (acc, w).
Hypothesis loop_stop : ∀ i ws acc w,
  stops (network (at_week i)) = true →
  ∃ w1, loop (i :: ws) acc w = (acc, w1)
        ∧ requested w1 = requested w ++ [at_week i]
        ∧ self_matchups w1 = self_matchups w.
Hypothesis loop_go : ∀ i ws acc w,
  stops (network (at_week i)) = false →
  ∃ w1, loop (i :: ws) acc w = loop ws (stored network (at_week i) acc) w1
        ∧ requested w1 = requested w ++ [at_week i]
        ∧ self_matchups w1 = self_matchups w.

(** Whatever is stored under a week was there before or was delivered
    for that week. *)
Lemma loop_sound ws acc w j l :
  PyDict.get j (loop ws acc w).1 = Some l →
  PyDict.get j acc = Some l
  ∨ (j ∈ (at_week <$> ws) ∧ delivered (network j) = Some l).
Proof.
  revert acc w. induction ws as [|i ws IH]; intros acc w.
  - rewrite loop_nil. by left.
  - destruct (stops (network (at_week i))) eqn:Hs.
    + destruct (loop_stop i ws acc w Hs) as (w1 & -> & _). by left.
    + destruct (loop_go i ws acc w Hs) as (w1 & -> & _).
      intros Hget. rewrite fmap_cons, elem_of_cons.
      destruct (IH _ _ Hget) as [Hacc|[Hin Hd]]; [|by auto].
      rewrite get_stored in Hacc. case_decide as Hij; [|by left].
      subst j. destruct (delivered (network (at_week i))) as [l'|];
        simpl in Hacc; [right | by left].
      by split; [left |].
Qed.

(** The weeks are stored in the order in which they are requested. *)
Lemma loop_keys ws acc w :
  NoDup (at_week <$> ws) →
  (∀ k, k ∈ (at_week <$> ws) → k ∉ PyDict.keys acc) →
  ∃ ks, PyDict.keys (loop ws acc w).1 = PyDict.keys acc ++ ks
        ∧ ks `sublist_of` (at_week <$> ws).
Proof.
  revert acc w. induction ws as [|i ws IH]; intros acc w Hnd Hdisj.
  - rewrite loop_nil. exists []. by rewrite app_nil_r.
  - rewrite fmap_cons in Hnd, Hdisj. apply NoDup_cons in Hnd as [Hi Hnd].
    destruct (stops (network (at_week i))) eqn:Hs.
    + destruct (loop_stop i ws acc w Hs) as (w1 & -> & _).
      exists []. rewrite app_nil_r. split; [done | apply sublist_nil_l].
    + destruct (loop_go i ws acc w Hs) as (w1 & -> & _).
      assert (Hst : ∃ e, PyDict.keys (stored network (at_week i) acc)
                         = PyDict.keys acc ++ e
                         ∧ e `sublist_of` [at_week i]).
      { unfold stored. destruct (delivered (network (at_week i))); simpl.
        - exists [at_week i]. split; [|done].
          rewrite keys_set, decide_False; [done |]. apply Hdisj. left.
        - exists []. rewrite app_nil_r. split; [done | apply sublist_nil_l]. }
      destruct Hst as (e & He & Hsub).
      destruct (IH (stored network (at_week i) acc) w1) as (ks & Hks & Hsub');
        [done | |].
      { intros k Hk. rewrite He, elem_of_app. intros [Hacc|Hke].
        - apply (Hdisj k); [by right | done].
        - apply (sublist_subseteq _ _ Hsub), list_elem_of_singleton in Hke.
          by subst. }
      exists (e ++ ks). rewrite Hks, He, <- app_assoc, fmap_cons.
      split; [done |]. by apply (sublist_app e [at_week i]).
Qed.
End LoopMore.

Section FetchMore.
Variable network : Z → outcome.

Lemma regular_sound ws acc w j l :
  PyDict.get j (fetch_matchups_loop network ws acc w).1 = Some l →
  PyDict.get j acc = Some l ∨ (j ∈ ws ∧ delivered (network j) = Some l).
Proof.
  intros Hget.
  destruct (loop_sound network (fetch_matchups_loop network) id)
    with (ws := ws) (acc := acc) (w := w) (j := j) (l := l)
    as [?|[Hin ?]];
    [done | apply fetch_matchups_loop_stop | apply fetch_matchups_loop_go
    | done | by left |].
  right. by rewrite list_fmap_id in Hin.
Qed.

Lemma regular_keys ws w :
  NoDup ws →
  PyDict.keys (fetch_matchups_loop network ws [] w).1 `sublist_of` ws.
Proof.
  intros Hnd.
  destruct (loop_keys network (fetch_matchups_loop network) id)
    with (ws := ws) (acc := @nil (Z * list Entry.t)) (w := w)
    as (ks & -> & Hsub);
    [done | apply fetch_matchups_loop_stop | apply fetch_matchups_loop_go
    | by rewrite list_fmap_id | intros k _; apply not_elem_of_nil |].
  by rewrite list_fmap_id in Hsub.
Qed.
End FetchMore.

Lemma fetched_regular_weeks (network : Z → outcome) (w : world) :
  PyDict.keys (self_matchups (fetch_matchups network w))
    `sublist_of` range 1 18
  ∧ ∀ j l, PyDict.get j (self_matchups (fetch_matchups network w)) = Some l →
           1 ≤ j ≤ 17 ∧ delivered (network j) = Some l.
Proof.
  destruct (fetch_matchups_unfold network w) as [-> _]. split.
  - apply regular_keys. unfold range. apply NoDup_seqZ.
  - intros j l Hget.
    apply regular_sound in Hget as [?|[Hin Hd]]; [done |].
    apply elem_of_range in Hin. split; [lia | done].
Qed.

(** X7: whatever the answers and whatever [self.matchups] held before,
    after [fetch_matchups] it holds only weeks from 1 to 17, in ascending
    order, each with the entries of that week's 200 response. *)
Theorem fetch_matchups_sound (network : Z → outcome) (w : world) :
  let got := self_matchups (fetch_matchups network w) in
  PyDict.keys got `sublist_of` range 1 18
  ∧ ∀ j l, PyDict.get j got = Some l →
           1 ≤ j ≤ 17 ∧ delivered (network j) = Some l.
Proof.
  apply fetched_regular_weeks.
Qed.

(** X8: after [fetch_matchups] and then [fetch_playoff_matchups] the weeks
    of [self.matchups] are weeks from 1 to 21 in ascending order, each with
    the entries of its 200 response, and the regular weeks are those that
    [fetch_matchups] left. *)
Theorem fetch_both_sound (network : Z → outcome) (w : world) :
  let w1 := fetch_matchups network w in
  let w2 := fetch_playoff_matchups network w1 in
  PyDict.keys (self_matchups w2) `sublist_of` range 1 22
  ∧ (∀ j l, PyDict.get j (self_matchups w2) = Some l →
            1 ≤ j ≤ 21 ∧ delivered (network j) = Some l)
  ∧ (∀ j, j < 18 →
          PyDict.get j (self_matchups w2) = PyDict.get j (self_matchups w1)).
Proof.
  intros w1 w2. subst w2.
  destruct (fetched_regular_weeks network w) as [Hkeys1 Hsound1].
  fold w1 in Hkeys1, Hsound1.
  destruct (fetch_playoff_matchups_unfold network w1) as [-> _].
  set (playoff := (fetch_matchups_loop network (range 18 22) [] w1).1).
  assert (Hkeys2 : PyDict.keys playoff `sublist_of` range 18 22).
  { apply regular_keys. unfold range. apply NoDup_seqZ. }
  assert (Hsound2 : ∀ j l, PyDict.get j playoff = Some l →
            18 ≤ j ≤ 21 ∧ delivered (network j) = Some l).
  { intros j l Hget.
    apply regular_sound in Hget as [?|[Hin Hd]]; [done |].
    apply elem_of_range in Hin. split; [lia | done]. }
  assert (Hnd : NoDup (PyDict.keys playoff)).
  { apply regular_NoDup. constructor. }
  assert (Hget : ∀ j, PyDict.get j (PyDict.update (self_matchups w1) playoff)
                      = match PyDict.get j playoff with
                        | Some l => Some l
                        | None => PyDict.get j (self_matchups w1)
                        end)
    by (intros j; by apply get_update).
  split_and!.
  - rewrite keys_update; [| done |].
    + change (range 1 22) with (range 1 18 ++ range 18 22).
      by apply sublist_app.
    + intros k Hk2 Hk1.
      apply (sublist_subseteq _ _ Hkeys1), elem_of_range in Hk1.
      apply (sublist_subseteq _ _ Hkeys2), elem_of_range in Hk2. lia.
  - intros j l. rewrite Hget.
    destruct (PyDict.get j playoff) as [l'|] eqn:Hp.
    + intros [= <-]. destruct (Hsound2 j l' Hp). split; [lia | done].
    + intros H1. destruct (Hsound1 j l H1). split; [lia | done].
  - intros j Hj. rewrite Hget.
    destruct (PyDict.get j playoff) as [l'|] eqn:Hp; [|done].
    destruct (Hsound2 j l' Hp). lia.
Qed.


(** ** The query library: what the rows add up to *)

Lemma take_number_from {A} (n : nat) (k : Z) (l : list A) :
  take n (number_from k l) = number_from k (take n l).
Proof.
  revert k l. induction n as [|n IH]; intros k [|a l]; simpl; try done.
  by rewrite IH.
Qed.

Lemma sumZ_Permutation (l1 l2 : list Z) : l1 ≡ₚ l2 → sumZ l1 = sumZ l2.
Proof.
  unfold sumZ. induction 1; simpl; lia.
Qed.

Lemma sumZ_app (l1 l2 : list Z) : sumZ (l1 ++ l2) = sumZ l1 + sumZ l2.
Proof. unfold sumZ. induction l1; simpl; lia. Qed.

Lemma filter_ext_in {A} (P Q : A → Prop)
    `{!∀ a, Decision (P a)} `{!∀ a, Decision (Q a)} (l : list A) :
  Forall (λ a, P a ↔ Q a) l → filter P l = filter Q l.
Proof.
  induction 1 as [|a l Ha _ IH]; [done |].
  rewrite !filter_cons, IH.
  destruct (decide (P a)), (decide (Q a)); tauto || done.
Qed.

Section GroupTotals.
Context {A K : Type} `{EqDecision K}.
Variable key : A → K.

(** The group sizes add up to the number of rows. *)
Lemma sumZ_group_sizes (l : list A) :
  sumZ ((λ g : K * list A, Z.of_nat (length g.2)) <$> group_by key l)
  = Z.of_nat (length l).
Proof.
  rewrite <- (Permutation_length (group_by_Permutation key l)).
  induction (group_by key l) as [|g gs IH]; [done |].
  rewrite fmap_cons, bind_cons, length_app. unfold sumZ in *. simpl.
  rewrite IH. lia.
Qed.

Lemma NoDup_group_keys (l : list A) : NoDup (group_by key l).*1.
Proof. rewrite group_by_keys. apply NoDup_remove_dups. Qed.
End GroupTotals.

Lemma number_from_split {A} (n : Z) (l : list A) (x : A) (k : Z) :
  (x, k) ∈ number_from n l →
  ∃ l1 l2, l = l1 ++ x :: l2 ∧ k = n + Z.of_nat (length l1).
Proof.
  revert n. induction l as [|y l IH]; intros n Hin; simpl in Hin.
  { by apply elem_of_nil in Hin. }
  apply elem_of_cons in Hin as [[= -> ->]|Hin].
  - exists [], l. split; [done | simpl; lia].
  - destruct (IH _ Hin) as (l1 & l2 & -> & ->).
    exists (y :: l1), l2. split; [done | simpl; lia].
Qed.

Lemma length_filter_Permutation {A} (P : A → Prop) `{!∀ a, Decision (P a)}
    (l1 l2 : list A) :
  l1 ≡ₚ l2 → length (filter P l1) = length (filter P l2).
Proof. intros Hl. by rewrite Hl. Qed.

Section Largest.
Variable R : relation matchups_row.
Context `{!RelDecision R, !Transitive R, !Total R}.

(** [ORDER BY ... LIMIT 10] returns ten rows that come first in the
    order. *)
Lemma limit_10_split (t : list matchups_row) :
  ∃ top rest : list matchups_row,
    top ++ rest ≡ₚ t
    ∧ limit 10 (to_ranked_score <$> row_number (merge_sort R t))
      = to_ranked_score <$> row_number top
    ∧ (∀ a r, a ∈ top → r ∈ rest → R a r)
    ∧ (rest ≠ [] → length top = 10%nat).
Proof.
  exists (take 10 (merge_sort R t)), (drop 10 (merge_sort R t)).
  split_and!.
  - by rewrite take_drop, merge_sort_Permutation.
  - unfold limit, row_number. by rewrite <- fmap_take, take_number_from.
  - intros a r Ha Hr.
    apply (StronglySorted_app_1_elem_of R (take 10 (merge_sort R t))
             (drop 10 (merge_sort R t))); [|done|done].
    rewrite take_drop. by apply StronglySorted_merge_sort.
  - intros Hrest. rewrite length_take.
    destruct (decide (length (merge_sort R t) ≤ 10)%nat) as [Hle|Hgt]; [|lia].
    by rewrite drop_ge in Hrest.
Qed.

(** The number of a row in the window order: more than the rows that
    must come before it, and at most the rows that can. *)
Lemma row_number_bracket (t : list matchups_row) (x : matchups_row)
    (k : Z) :
  (x, k) ∈ row_number (merge_sort R t) →
  Z.of_nat (length (filter (λ r, ¬ R x r) t)) < k
  ∧ k ≤ Z.of_nat (length (filter (λ r, R r x) t)).
Proof.
  intros Hin. apply number_from_split in Hin as (l1 & l2 & Hs & ->).
  pose proof (StronglySorted_merge_sort R t) as Hsorted.
  pose proof (merge_sort_Permutation R t) as Hperm.
  rewrite Hs in Hsorted, Hperm.
  assert (Hbefore : Forall (λ r, R r x) l1).
  { apply Forall_forall. intros r Hr.
    apply (StronglySorted_app_1_elem_of R l1 (x :: l2)); [done | done | left]. }
  assert (Hafter : Forall (R x) (x :: l2)).
  { apply StronglySorted_app_1_r in Hsorted.
    apply StronglySorted_inv in Hsorted as [_ Htl].
    constructor; [|done]. by destruct (total R x x). }
  rewrite <- (length_filter_Permutation (λ r, ¬ R x r) _ _ Hperm).
  rewrite <- (length_filter_Permutation (λ r, R r x) _ _ Hperm).
  rewrite !filter_app, !length_app.
  rewrite (filter_none (λ r, ¬ R x r) (x :: l2)).
  2:{ eapply Forall_impl; [exact Hafter |]. simpl. tauto. }
  rewrite (filter_all (λ r, R r x) l1) by done.
  rewrite filter_cons_True by by destruct (total R x x).
  pose proof (length_filter (λ r, ¬ R x r) l1). simpl. lia.
Qed.
End Largest.

Lemma ranked_score_of_row (R : relation matchups_row) `{!RelDecision R}
    (t : list matchups_row) (a : ranked_score) :
  a ∈ limit 10 (to_ranked_score <$> row_number (merge_sort R t)) →
  ∃ x : matchups_row,
    (x, rs_rank a) ∈ row_number (merge_sort R t) ∧ rs_points a = points x.
Proof.
  intros Ha. unfold limit in Ha.
  apply subseteq_take, list_elem_of_fmap in Ha as ([x k] & -> & Hin).
  by exists x.
Qed.

(** X9: the rows of the top-10 query are ten largest: the table splits into
    the returned rows, in their order, and the rest, no row of the rest
    has more points than a returned row, and fewer than ten rows are
    returned only when there is no rest. The rank of a returned row is
    above the number of rows with more points and at most the number of
    rows with as many or more. The lowest-10 query is the same with fewer
    points for more. *)
Theorem top_10_are_the_largest (t : list matchups_row) :
  (∃ top rest : list matchups_row,
     top ++ rest ≡ₚ t
     ∧ (λ a, (rs_team_name a, rs_week a, rs_points a)) <$> stat_2_query t
       = (λ r : matchups_row, (team_name r, week r, points r)) <$> top
     ∧ (∀ a r : matchups_row, a ∈ top → r ∈ rest →
          (points r <= points a)%Q)
     ∧ (rest ≠ [] → length top = 10%nat))
  ∧ (∀ a, a ∈ stat_2_query t →
       Z.of_nat (length (filter (λ r : matchups_row,
                                   (rs_points a < points r)%Q) t))
       < rs_rank a
       ∧ rs_rank a
         ≤ Z.of_nat (length (filter (λ r : matchups_row,
                                       (rs_points a <= points r)%Q) t)))
  ∧ (∃ bottom rest : list matchups_row,
       bottom ++ rest ≡ₚ t
       ∧ (λ a, (rs_team_name a, rs_week a, rs_points a)) <$> stat_3b_query t
         = (λ r : matchups_row, (team_name r, week r, points r)) <$> bottom
       ∧ (∀ a r : matchups_row, a ∈ bottom → r ∈ rest →
            (points a <= points r)%Q)
       ∧ (rest ≠ [] → length bottom = 10%nat))
  ∧ (∀ a, a ∈ stat_3b_query t →
       Z.of_nat (length (filter (λ r : matchups_row,
                                   (points r < rs_points a)%Q) t))
       < rs_rank a
       ∧ rs_rank a
         ≤ Z.of_nat (length (filter (λ r : matchups_row,
                                       (points r <= rs_points a)%Q) t))).
Proof.
  assert (Hcols : ∀ top : list matchups_row,
            (λ a, (rs_team_name a, rs_week a, rs_points a))
              <$> (to_ranked_score <$> row_number top)
            = (λ r : matchups_row, (team_name r, week r, points r)) <$> top).
  { intros top. rewrite <- list_fmap_compose.
    rewrite <- (number_from_fst 1 top) at 2.
    by rewrite <- list_fmap_compose. }
  split_and!.
  - destruct (limit_10_split (desc_by (λ r : matchups_row, points r)) t)
      as (top & rest & H1 & H2 & H3 & H4).
    exists top, rest. unfold stat_2_query. rewrite H2. by split_and!.
  - intros a Ha. apply ranked_score_of_row in Ha as (x & Hx & ->).
    apply (row_number_bracket (desc_by (λ r : matchups_row, points r)))
      in Hx as [Hlo Hhi].
    split; [|exact Hhi].
    erewrite list_filter_iff; [exact Hlo |].
    intros r. unfold desc_by. split; [apply Qlt_not_le | apply Qnot_le_lt].
  - destruct (limit_10_split (asc_by (λ r : matchups_row, points r)) t)
      as (top & rest & H1 & H2 & H3 & H4).
    exists top, rest. unfold stat_3b_query. rewrite H2. by split_and!.
  - intros a Ha. apply ranked_score_of_row in Ha as (x & Hx & ->).
    apply (row_number_bracket (asc_by (λ r : matchups_row, points r)))
      in Hx as [Hlo Hhi].
    split; [|exact Hhi].
    erewrite list_filter_iff; [exact Hlo |].
    intros r. unfold asc_by. split; [apply Qlt_not_le | apply Qnot_le_lt].
Qed.

(** The averages by team for one value of [won]: a row per team that has
    such rows, counting them all. *)
Lemma avg_points_where_won_totals (flag : Z) (t : list matchups_row) :
  sumZ (ar_count <$> avg_points_where_won flag t)
  = Z.of_nat (length (filter (λ r, won r = flag) t))
  ∧ NoDup (ar_team_name <$> avg_points_where_won flag t).
Proof.
  unfold avg_points_where_won.
  set (gs := group_by (λ r : matchups_row, team_name r)
               (filter (λ r, won r = flag) t)).
  split.
  - rewrite (sumZ_Permutation _ (ar_count <$> (aggregate_points <$> gs)))
      by by rewrite merge_sort_Permutation.
    rewrite <- list_fmap_compose. apply sumZ_group_sizes.
  - rewrite (merge_sort_Permutation _ (aggregate_points <$> gs)).
    rewrite <- list_fmap_compose. apply NoDup_group_keys.
Qed.

(** X10: on the built table, the wins of the average-points-in-win result
    add up to the number of pairs of a week and a matchup id among the
    records (the (week, matchup_id) partitions), wins and losses
    of the two results add up to the number of records, and each result has
    one row per team. *)
Theorem wins_and_losses_add_up (raw : list matchup_record) :
  let t := matchups_table raw in
  sumZ (ar_count <$> stat_6_query t)
  = Z.of_nat (length (remove_dups ((λ r, (week r, matchup_id r)) <$> raw)))
  ∧ sumZ (ar_count <$> stat_6_query t) + sumZ (ar_count <$> stat_7_query t)
    = Z.of_nat (length raw)
  ∧ NoDup (ar_team_name <$> stat_6_query t)
  ∧ NoDup (ar_team_name <$> stat_7_query t).
Proof.
  intros t. unfold stat_6_query, stat_7_query.
  destruct (avg_points_where_won_totals 1 t) as [H1 N1].
  destruct (avg_points_where_won_totals 0 t) as [H0 N0].
  rewrite H1, H0. split_and!; [| | done | done].
  - unfold t. by rewrite matchups_table_winners.
  - rewrite <- (Permutation_length (matchups_table_Permutation raw)).
    rewrite length_fmap. fold t.
    rewrite <- (Permutation_length (filter_app_complement (λ r, won r = 1) t)).
    rewrite length_app, Nat2Z.inj_add. do 3 f_equal.
    apply filter_ext_in. unfold t.
    eapply Forall_impl; [apply matchups_table_won |].
    simpl. intros r. lia.
Qed.

Section WeeklyFirsts.
Variable R : relation matchup_record.
Context `{!RelDecision R, !Transitive R, !Total R}.
Variable t : list matchups_row.

Lemma length_first_of_week :
  length (first_of_week R t)
  = length (remove_dups ((λ r : matchups_row, week r) <$> t)).
Proof.
  unfold first_of_week.
  rewrite length_fmap, (row_number_over_firsts week R (rec <$> t)).
  by rewrite <- list_fmap_compose.
Qed.

(** The row kept for a week comes first in the order among all rows of
    that week. *)
Lemma first_of_week_extreme (x : matchup_record) :
  x ∈ first_of_week R t →
  x ∈ rec <$> t
  ∧ ∀ r : matchups_row, r ∈ t → week r = week x → R x r.
Proof.
  unfold first_of_week. intros Hx.
  apply list_elem_of_fmap in Hx as ([x' i] & -> & Hx). simpl.
  apply list_elem_of_filter in Hx as [Hi Hx]. simpl in Hi. subst i.
  assert (Hpart : (x', 1) ∈ filter (λ rr : matchup_record * Z,
                                      week rr.1 = week x')
                             (row_number_over week R (rec <$> t)))
    by by apply list_elem_of_filter.
  rewrite partition_of_row_number_over in Hpart.
  case_decide as Hk; [|by apply elem_of_nil in Hpart].
  set (grp := filter (λ a, week a = week x') (rec <$> t)) in *.
  assert (Hperm : merge_sort R grp ≡ₚ grp) by apply merge_sort_Permutation.
  assert (Hsorted : StronglySorted R (merge_sort R grp))
    by by apply StronglySorted_merge_sort.
  destruct (merge_sort R grp) as [|y s] eqn:Hs;
    [by apply elem_of_nil in Hpart |].
  assert (Hy : x' = y).
  { assert (Hf : (x', 1) ∈ filter (λ rr : matchup_record * Z, rr.2 = 1)
                             (row_number (y :: s)))
      by by apply list_elem_of_filter.
    rewrite row_number_first in Hf.
    by apply list_elem_of_singleton in Hf as [= ->]. }
  subst y. split.
  - assert (Hin : x' ∈ grp) by (rewrite <- Hperm; left).
    by apply list_elem_of_filter in Hin as [_ ?].
  - intros r Hr Hwk.
    assert (Hin : rec r ∈ x' :: s).
    { rewrite Hperm. apply list_elem_of_filter.
      split; [done | by apply list_elem_of_fmap_2]. }
    apply StronglySorted_inv in Hsorted as [_ Hall].
    apply elem_of_cons in Hin as [->|Hin].
    + by destruct (total R x' x').
    + rewrite Forall_forall in Hall. by apply Hall.
Qed.

Lemma NoDup_first_of_week_weeks : NoDup (week <$> first_of_week R t).
Proof.
  unfold first_of_week. rewrite <- list_fmap_compose.
  rewrite (row_number_over_first_keys week R (rec <$> t)).
  apply NoDup_remove_dups.
Qed.

(** The counts by team of the rows kept: a team is counted once for
    every week in which the row kept is its own. *)
Lemma count_first_of_week :
  let counted := merge_sort (count_desc cr_count)
    (count_weeks <$> group_by team_name (first_of_week R t)) in
  sumZ (cr_count <$> counted)
  = Z.of_nat (length (remove_dups ((λ r : matchups_row, week r) <$> t)))
  ∧ NoDup (cr_team_name <$> counted)
  ∧ ∀ a, a ∈ counted →
      ∃ rows : list matchup_record,
        cr_count a = Z.of_nat (length rows)
        ∧ rows ≠ []
        ∧ NoDup (week <$> rows)
        ∧ ∀ x, x ∈ rows →
            x ∈ rec <$> t ∧ team_name x = cr_team_name a
            ∧ ∀ r : matchups_row, r ∈ t → week r = week x → R x r.
Proof.
  intros counted. subst counted.
  set (gs := group_by team_name (first_of_week R t)).
  split_and!.
  - rewrite (sumZ_Permutation _ (cr_count <$> (count_weeks <$> gs)))
      by by rewrite merge_sort_Permutation.
    rewrite <- list_fmap_compose, <- length_first_of_week.
    apply (sumZ_group_sizes team_name).
  - rewrite (merge_sort_Permutation _ (count_weeks <$> gs)).
    rewrite <- list_fmap_compose. apply (NoDup_group_keys team_name).
  - intros a Ha. rewrite merge_sort_Permutation in Ha.
    apply list_elem_of_fmap in Ha as ([k g] & -> & Hg).
    apply elem_of_group_by in Hg as [Hk Hg]. simpl in Hk, Hg.
    cbn [cr_team_name cr_count count_weeks fst snd].
    exists g. split_and!; [done | | |].
    + rewrite Hg. by apply group_nonempty.
    + rewrite Hg. apply NoDup_fmap_filter, NoDup_first_of_week_weeks.
    + intros x Hx. rewrite Hg in Hx.
      apply list_elem_of_filter in Hx as [Hteam Hx].
      destruct (first_of_week_extreme x Hx) as [Hin Hext].
      by split_and!.
Qed.
End WeeklyFirsts.

(** X11: the most-highest-scores query counts every week of the table for
    exactly one team and has one row per team; what it counts for a team
    are rows of that team, of different weeks, each with the highest points
    of its week. The most-lowest-scores query is the same with the lowest
    points. *)
Theorem weekly_extremes_counted_once (t : list matchups_row) :
  let weeks :=
    Z.of_nat (length (remove_dups ((λ r : matchups_row, week r) <$> t))) in
  sumZ (cr_count <$> stat_1_query t) = weeks
  ∧ sumZ (cr_count <$> stat_3_query t) = weeks
  ∧ NoDup (cr_team_name <$> stat_1_query t)
  ∧ NoDup (cr_team_name <$> stat_3_query t)
  ∧ (∀ a, a ∈ stat_1_query t →
       ∃ rows : list matchup_record,
         cr_count a = Z.of_nat (length rows)
         ∧ rows ≠ []
         ∧ NoDup (week <$> rows)
         ∧ ∀ x, x ∈ rows →
             x ∈ rec <$> t ∧ team_name x = cr_team_name a
             ∧ ∀ r : matchups_row, r ∈ t → week r = week x →
                                   (points r <= points x)%Q)
  ∧ (∀ a, a ∈ stat_3_query t →
       ∃ rows : list matchup_record,
         cr_count a = Z.of_nat (length rows)
         ∧ rows ≠ []
         ∧ NoDup (week <$> rows)
         ∧ ∀ x, x ∈ rows →
             x ∈ rec <$> t ∧ team_name x = cr_team_name a
             ∧ ∀ r : matchups_row, r ∈ t → week r = week x →
                                   (points x <= points r)%Q).
Proof.
  intros weeks.
  destruct (count_first_of_week (desc_by points) t) as (H1 & N1 & C1).
  destruct (count_first_of_week (asc_by points) t) as (H3 & N3 & C3).
  by split_and!.
Qed.


(** ** Wins with the lowest score, losses with the highest *)


Lemma sql_max_upper (l : list Q) (v : Q) :
  sql_max l = Some v → Forall (λ y, (y <= v)%Q) l.
Proof.
  destruct l as [|x l]; [done |]. intros [= <-].
  destruct (foldl_Qmax_ge x l). by constructor.
Qed.

(** The rows that the join with a weekly aggregate keeps. *)
Lemma elem_of_join_weekly (flag : Z) (agg : list Q → option Q)
    (t : list matchups_row) (m : matchups_row) :
  m ∈ join_weekly flag (weekly agg t) t →
  m ∈ t ∧ won m = flag
  ∧ ∃ v, agg ((λ r : matchups_row, points r)
                <$> filter (λ r : matchups_row, week r = week m) t) = Some v
         ∧ (points m == v)%Q.
Proof.
  unfold join_weekly, weekly. intros Hm.
  apply list_elem_of_bind in Hm as (m' & Hm & Hm').
  apply list_elem_of_bind in Hm as ([k o] & Hm & Hw).
  apply list_elem_of_fmap in Hw as ([k' g] & [= -> ->] & Hg).
  apply elem_of_group_by in Hg as [_ Hg]. simpl in Hg, Hm.
  destruct (bool_decide (week m' = k')) eqn:Hk; simpl in Hm;
    [|by apply elem_of_nil in Hm].
  apply bool_decide_eq_true in Hk. subst k'.
  destruct (agg _) as [v|] eqn:Hagg; simpl in Hm;
    [|by apply elem_of_nil in Hm].
  destruct (Qeq_bool (points m') v) eqn:Hq; simpl in Hm;
    [|by apply elem_of_nil in Hm].
  destruct (bool_decide (won m' = flag)) eqn:Hf; simpl in Hm;
    [|by apply elem_of_nil in Hm].
  apply list_elem_of_singleton in Hm as ->.
  apply bool_decide_eq_true in Hf. apply Qeq_bool_eq in Hq.
  split_and!; [done | done |]. exists v. by rewrite <- Hg.
Qed.

(** The rows of one partition of the built table: its winner comes first
    and no row of the partition has more points. *)
Lemma partition_winner (raw : list matchup_record) (m : matchups_row) :
  m ∈ matchups_table raw →
  ∃ w0 : matchups_row,
    w0 ∈ matchups_table raw
    ∧ partition_key w0 = partition_key m
    ∧ won w0 = 1 ∧ rank_in_matchup w0 = 1
    ∧ (won m = 1 → m = w0)
    ∧ ∀ r : matchups_row, r ∈ matchups_table raw →
        partition_key r = partition_key m → (points r <= points w0)%Q.
Proof.
  intros Hm.
  set (k := partition_key m).
  set (part := filter (λ r : matchups_row, partition_key r = k)
                      (matchups_table raw)).
  assert (Hmp : m ∈ part) by by apply list_elem_of_filter.
  assert (Hpart : part = if decide (k ∈ partition_key <$> raw)
    then with_rank <$> row_number
           (merge_sort (desc_by points) (filter (λ r, partition_key r = k) raw))
    else []) by apply matchups_table_partition.
  case_decide as Hk; [|rewrite Hpart in Hmp; by apply elem_of_nil in Hmp].
  assert (Hsorted : StronglySorted (desc_by points)
            (merge_sort (desc_by points)
               (filter (λ r, partition_key r = k) raw)))
    by apply (StronglySorted_merge_sort _).
  destruct (merge_sort _ _) as [|x s];
    [rewrite Hpart in Hmp; by apply elem_of_nil in Hmp |].
  assert (Hw0 : with_rank (x, 1) ∈ part) by (rewrite Hpart; left).
  apply list_elem_of_filter in Hw0 as [Hkey Hin].
  exists (with_rank (x, 1)). split_and!; [done | done | done | done | |].
  - intros Hwon. rewrite Hpart in Hmp.
    apply list_elem_of_fmap in Hmp as ([a i] & -> & Hai).
    assert (Hi : i = 1).
    { unfold with_rank in Hwon. simpl in Hwon. by case_bool_decide. }
    subst i.
    assert (Hf : (a, 1) ∈ filter (λ rr : matchup_record * Z, rr.2 = 1)
                             (row_number (x :: s)))
      by by apply list_elem_of_filter.
    rewrite row_number_first in Hf.
    by apply list_elem_of_singleton in Hf as [= ->].
  - intros r Hr Hrk.
    assert (Hrp : r ∈ part) by by apply list_elem_of_filter.
    rewrite Hpart in Hrp.
    apply list_elem_of_fmap in Hrp as ([a i] & -> & Hai).
    apply number_from_elem in Hai. simpl.
    apply StronglySorted_inv in Hsorted as [_ Hall].
    apply elem_of_cons in Hai as [->|Hai]; [apply Qle_refl |].
    rewrite Forall_forall in Hall. by apply Hall.
Qed.

Lemma partition_key_same (r m : matchup_record) :
  partition_key r = partition_key m
  ↔ week r = week m ∧ matchup_id r = matchup_id m.
Proof. apply partition_key_fields. Qed.



(** X13: on the built table, a loss that stat 5 counts (a loss with the
    highest score of its week) is a loss of a record that ties with the
    winner of its matchup, the row of the same week and matchup id with
    [won = 1]; when no record has the points of its matchup's winner but
    the winner, stat 5 is empty. *)
Theorem losses_with_highest_score_are_ties (raw : list matchup_record) :
  let t := matchups_table raw in
  (∀ m : matchups_row, m ∈ losses_vs_highest t →
     m ∈ t ∧ won m = 0
     ∧ ∃ w0 : matchups_row,
         w0 ∈ t ∧ week w0 = week m ∧ matchup_id w0 = matchup_id m
         ∧ won w0 = 1 ∧ (points w0 == points m)%Q)
  ∧ ((∀ m w0 : matchups_row, m ∈ t → w0 ∈ t →
        week w0 = week m → matchup_id w0 = matchup_id m → won w0 = 1 →
        (points w0 == points m)%Q → won m = 1) →
     stat_5_query t = []).
Proof.
  intros t.
  assert (Hties : ∀ m : matchups_row, m ∈ losses_vs_highest t →
     m ∈ t ∧ won m = 0
     ∧ ∃ w0 : matchups_row,
         w0 ∈ t ∧ week w0 = week m ∧ matchup_id w0 = matchup_id m
         ∧ won w0 = 1 ∧ (points w0 == points m)%Q).
  { intros m Hm.
    apply elem_of_join_weekly in Hm as (Hin & Hwon & v & Hv & Hmv).
    apply sql_max_upper in Hv. rewrite Forall_fmap, Forall_forall in Hv.
    split_and!; [done | done |].
    destruct (partition_winner raw m Hin)
      as (w0 & Hw0 & Hk & Hwon0 & _ & _ & Hmax).
    apply partition_key_same in Hk as [Hwk Hmid].
    exists w0. split_and!; [done | done | done | done |].
    apply Qle_antisym.
    - rewrite Hmv. apply (Hv w0). by apply list_elem_of_filter.
    - by apply Hmax. }
  split; [exact Hties |].
  intros Hnoties.
  assert (Hnil : losses_vs_highest t = []).
  { destruct (losses_vs_highest t) as [|m l] eqn:Hl; [done |].
    destruct (Hties m)
      as (Hin & Hwon & w0 & Hw0 & Hwk & Hmid & Hwon0 & Hpts);
      [rewrite ?Hl; left |].
    specialize (Hnoties m w0 Hin Hw0 Hwk Hmid Hwon0 Hpts). lia. }
  unfold losses_vs_highest in Hnil. unfold stat_5_query. by rewrite Hnil.
Qed.


(** ** The interactive loop and the fixed queries as a whole *)

Section LoopExit.
Variable parse : string → res statement.

Lemma main_loop_stop a answers w :
  ¬ not_quit a →
  main_loop parse (a :: answers) w
  = (Exited, print (Text (nl +:+ "Enter SQL query: ")) w).
Proof.
  intros Ha. destruct a as [s|]; [|done]. cbn [main_loop]. simpl in Ha.
  rewrite bool_decide_eq_true_2; [done |].
  by destruct (decide (lower (strip s) = "quit")).
Qed.

Lemma main_loop_go a answers w :
  uninterrupted parse → not_quit a →
  ∃ w', main_loop parse (a :: answers) w = main_loop parse answers w'.
Proof.
  intros Hun Ha. destruct a as [s|]; [|done]. simpl in Ha.
  destruct (decide (strip s = "")) as [Hb|Hb].
  - eexists. by apply main_loop_blank.
  - eexists. apply main_loop_line; [done | done | apply Hun].
Qed.
End LoopExit.

Lemma not_quit_dec a : {not_quit a} + {¬ not_quit a}.
Proof.
  destruct a as [s|]; simpl; [|right; tauto].
  destruct (decide (lower (strip s) = "quit")); [right | left]; tauto.
Qed.

(** X14: as long as the engine is not interrupted, the loop of [main] ends
    exactly when an answer is [quit] (in any case, with blanks around it) or
    Ctrl-C; it ends at the first such answer, and what comes after it has
    no effect. *)
Theorem main_loop_ends_at_first_quit (parse : string → res statement) :
  uninterrupted parse →
  (∀ answers w,
     (main_loop parse answers w).1 = Exited
     ↔ Exists (λ a, ¬ not_quit a) answers)
  ∧ (∀ before a after w,
       Forall not_quit before → ¬ not_quit a →
       main_loop parse (before ++ a :: after) w
       = main_loop parse (before ++ [a]) w
       ∧ (main_loop parse (before ++ a :: after) w).1 = Exited).
Proof.
  intros Hun. split.
  - intros answers. induction answers as [|a answers IH]; intros w.
    + simpl. split; [done | by intros ?%Exists_nil].
    + rewrite Exists_cons. destruct (not_quit_dec a) as [Ha|Ha].
      * destruct (main_loop_go parse a answers w Hun Ha) as [w' ->].
        rewrite IH. tauto.
      * rewrite main_loop_stop by done. simpl. tauto.
  - intros before a after w Hbefore Ha. revert w.
    induction Hbefore as [|b before Hb _ IH]; intros w.
    + rewrite !app_nil_l, !main_loop_stop by done. done.
    + rewrite <- !app_comm_cons.
      destruct b as [s|]; [|done]. simpl in Hb.
      destruct (decide (strip s = "")) as [Hblank|Hblank].
      * rewrite !main_loop_blank by done. apply IH.
      * rewrite !main_loop_line by (done || apply Hun). apply IH.
Qed.

(** ** The fixed queries as a whole *)

Lemma needs_table_ret {A} (a : A) : needs_table (ret a).
Proof. intros w _. by exists a. Qed.

Lemma needs_table_say o : needs_table (say o).
Proof. intros w _. by exists tt. Qed.

Lemma needs_table_select f : needs_table (execute (select_from_matchups f)).
Proof.
  intros w [t Ht]. unfold execute, select_from_matchups. simpl.
  rewrite Ht. by eexists.
Qed.

Lemma needs_table_bind {A B} (c : M A) (k : A → M B) :
  needs_table c → reads_only c → (∀ a, needs_table (k a)) →
  needs_table (bind c k).
Proof.
  intros Hc Hr Hk w Hw. unfold bind.
  destruct (Hc w Hw) as [a Ha]. specialize (Hr w).
  destruct (c w) as [r w1]. simpl in *. subst r.
  apply Hk. destruct Hr as (_ & _ & _ & -> & _). done.
Qed.

Ltac frame_steps :=
  repeat (apply reads_only_bind; [|intros ?]);
  first [ apply reads_only_ret | apply reads_only_say
        | apply reads_only_execute_query ].

Ltac needs_table_steps :=
  repeat (apply needs_table_bind; [| frame_steps |intros ?]);
  first [ apply needs_table_ret | apply needs_table_say
        | apply needs_table_select ].

Lemma needs_table_run_all_stats : needs_table run_all_stats.
Proof.
  unfold run_all_stats, stat_1_highest_scores_by_week,
    stat_2_top_10_scores_overall, stat_3_lowest_scores_by_week,
    stat_3b_top_10_lowest_scores_overall, stat_4_most_wins_vs_lowest_score,
    stat_5_most_losses_vs_highest_score, stat_6_avg_points_in_win,
    stat_7_avg_points_in_loss, run_stat, stat_1_sql.
  needs_table_steps.
Qed.

(** X15: [run_all_stats] returns when the [matchups] table exists; when it
    does not, the error of the first query is not caught: [run_all_stats]
    raises it after the banner and the first heading, and runs no later
    query. *)
Theorem run_all_stats_needs_the_table (w : world) :
  (is_Some (matchups (self_db w)) → (run_all_stats w).1 = Ret tt)
  ∧ (matchups (self_db w) = None →
     (run_all_stats w).1 = Raise (no_table "matchups")
     ∧ console (run_all_stats w).2
       = console w
         ++ [Text (repeat_string "=" 80);
             Text "FANTASY FOOTBALL LEAGUE STATISTICS";
             Text (repeat_string "=" 80);
             Text (nl +:+ "=== STAT 1: Most Highest Scores by Week ===")]).
Proof.
  split.
  - intros Hw. destruct (needs_table_run_all_stats w Hw) as [[] ->]. done.
  - intros Hnone.
    unfold run_all_stats, stat_1_highest_scores_by_week, stat_1_sql,
      select_from_matchups, bind, say, execute.
    cbn [self_db print fst snd]. rewrite Hnone.
    cbn [fst snd console print]. split; [done |].
    by rewrite <- !app_assoc.
Qed.


(** ** Users, rosters and players *)

Section IndexBy.
Context {K V : Type} `{Countable K}.
Implicit Types (items : list (option K * V)) (acc : gmap K V).

(** The last item of a key is the one that stays. *)
Lemma index_by_lookup name items acc m k :
  index_by name items acc = Ret m →
  m !! k = from_option (λ x, Some x.2) (acc !! k)
                       (last (filter (λ x, x.1 = Some k) items)).
Proof.
  revert acc. induction items as [|[[k0|] v] items IH]; intros acc Hm.
  - by injection Hm as <-.
  - cbn [index_by] in Hm. rewrite (IH _ Hm), filter_cons. simpl.
    destruct (decide (Some k0 = Some k)) as [[= ->]|Hne].
    + rewrite last_cons, lookup_insert_eq.
      by destruct (last (filter _ items)).
    + rewrite lookup_insert_ne; [done | congruence].
  - done.
Qed.

Lemma index_by_Ret name items acc :
  Forall (λ x, is_Some x.1) items → ∃ m, index_by name items acc = Ret m.
Proof.
  intros Hall. revert acc.
  induction Hall as [|[[k0|] v] items [? Hk] _ IH]; intros acc;
    [by eexists | apply IH | done].
Qed.

Lemma index_by_Raise name items acc :
  Exists (λ x, x.1 = None) items →
  index_by name items acc = Raise (Exception ("'" +:+ name +:+ "'")).
Proof.
  intros Hex. revert acc.
  induction Hex as [[[k0|] v] items Hk|[[k0|] v] items _ IH]; intros acc;
    simpl in *; done || apply IH.
Qed.
End IndexBy.

(** X16: [fetch_users] looks at no status code; when every listed user has
    a [user_id] it returns and [self.users] maps each id to the last user
    listed with it; when one has none it raises [KeyError]; whenever it
    raises, [self.users] is as before; and it changes nothing else but the
    console. [fetch_rosters] is the same on [roster_id]. *)
Theorem fetch_users_and_rosters_index_by_id
    (ur : reply (list (option string * user)))
    (rr : reply (list (option Z * roster))) (w : world) :
  let u := fetch_users ur w in
  let r := fetch_rosters rr w in
  (∀ status users_list,
     ur = Response status (Ret users_list) →
     Forall (λ x, is_Some x.1) users_list →
     u.1 = Ret (self_users u.2)
     ∧ ∀ uid, self_users u.2 !! uid
              = snd <$> last (filter (λ x, x.1 = Some uid) users_list))
  ∧ (∀ status users_list,
       ur = Response status (Ret users_list) →
       Exists (λ x, x.1 = None) users_list →
       u.1 = Raise (Exception "'user_id'"))
  ∧ (∀ e, u.1 = Raise e → self_users u.2 = self_users w)
  ∧ (self_rosters u.2 = self_rosters w ∧ self_matchups u.2 = self_matchups w
     ∧ self_db u.2 = self_db w ∧ requested u.2 = requested w
     ∧ console u.2 = console w ++ [Text "Fetching users..."])
  ∧ (∀ status rosters_list,
       rr = Response status (Ret rosters_list) →
       Forall (λ x, is_Some x.1) rosters_list →
       r.1 = Ret (self_rosters r.2)
       ∧ ∀ rid, self_rosters r.2 !! rid
                = snd <$> last (filter (λ x, x.1 = Some rid) rosters_list))
  ∧ (∀ status rosters_list,
       rr = Response status (Ret rosters_list) →
       Exists (λ x, x.1 = None) rosters_list →
       r.1 = Raise (Exception "'roster_id'"))
  ∧ (∀ e, r.1 = Raise e → self_rosters r.2 = self_rosters w)
  ∧ (self_users r.2 = self_users w ∧ self_matchups r.2 = self_matchups w
     ∧ self_db r.2 = self_db w ∧ requested r.2 = requested w
     ∧ console r.2 = console w ++ [Text "Fetching rosters..."]).
Proof.
  intros u r. subst u r. unfold fetch_users, fetch_rosters.
  split_and!;
    try (destruct ur as [e'|status [l|e']]; simpl; try done;
         by destruct (index_by "user_id" l ∅));
    try (destruct rr as [e'|status [l|e']]; simpl; try done;
         by destruct (index_by "roster_id" l ∅)).
  - intros status l -> Hall.
    destruct (index_by_Ret "user_id" l ∅ Hall) as [m Hm]. rewrite Hm.
    split; [done |]. intros uid. simpl.
    rewrite (index_by_lookup _ _ _ _ uid Hm), lookup_empty.
    by destruct (last _).
  - intros status l -> Hex. by rewrite index_by_Raise.
  - intros status l -> Hall.
    destruct (index_by_Ret "roster_id" l ∅ Hall) as [m Hm]. rewrite Hm.
    split; [done |]. intros rid. simpl.
    rewrite (index_by_lookup _ _ _ _ rid Hm), lookup_empty.
    by destruct (last _).
  - intros status l -> Hex. by rewrite index_by_Raise.
Qed.

(** X17: [get_player_name] never raises, not even on a keyboard interrupt,
    and leaves the object and the console alone; it returns the value under
    [full_name] of the body when there is one and [Player_<id>] in every
    other case. *)
Theorem get_player_name_never_raises {V} (str : string → V)
    (r : reply (option (option V))) (player_id : string) (w : world) :
  ∃ name,
    get_player_name str r player_id w = (Ret name, w)
    ∧ (∀ status full_name,
         r = Response status (Ret (Some (Some full_name))) →
         name = full_name)
    ∧ ((∀ status full_name,
          r ≠ Response status (Ret (Some (Some full_name)))) →
       name = str ("Player_" +:+ player_id)).
Proof.
  unfold get_player_name, try_except_all, raise, ret.
  destruct r as [e|status [[[n|]|]|e]]; simpl; eexists;
    (split_and!; [done | |]); try (intros; congruence).
  - intros Hno. by destruct (Hno status n).
Qed.


(** ** Build, then report *)

Lemma build_database_db (w : world) :
  matchup_records (self_users w) (self_rosters w) (self_matchups w) ≠ [] →
  matchups (self_db w) = None →
  self_db (build_database w).2
  = {| matchups_raw :=
         Some (matchup_records (self_users w) (self_rosters w)
                               (self_matchups w));
       matchups :=
         Some (matchups_table
                 (matchup_records (self_users w) (self_rosters w)
                                  (self_matchups w))) |}.
Proof.
  intros Hne Hnone.
  unfold build_database, bind, say, register_matchups_raw, execute,
    create_matchups, count_matchups, select_from_matchups.
  cbn [self_db set_db print matchups matchups_raw fst snd].
  rewrite Hnone.
  destruct (matchup_records _ _ _) as [|r0 rs]; [done |].
  by cbn [self_db set_db print matchups matchups_raw fst snd].
Qed.

(** X18: after a [build_database] that found entries, [run_all_stats]
    returns, and it leaves the connection as [build_database] made it: the
    table of the normalised records of all fetched weeks. *)
Theorem report_runs_after_build (w : world) :
  let records :=
    matchup_records (self_users w) (self_rosters w) (self_matchups w) in
  let built := (build_database w).2 in
  records ≠ [] → matchups (self_db w) = None →
  (run_all_stats built).1 = Ret tt
  ∧ self_db (run_all_stats built).2
    = {| matchups_raw := Some records;
         matchups := Some (matchups_table records) |}
  ∧ self_matchups (run_all_stats built).2 = self_matchups built
  ∧ console built `prefix_of` console (run_all_stats built).2.
Proof.
  intros records built Hne Hnone.
  pose proof (build_database_db w Hne Hnone) as Hdb. fold records built in Hdb.
  destruct (reads_only_run_all_stats built) as (_ & _ & Hm & Hd & _ & Hc).
  split_and!; [| by rewrite Hd | done | done].
  destruct (needs_table_run_all_stats built) as [[] Hret]; [|done].
  rewrite Hdb. by eexists.
Qed.


(** ** The further properties on the small league *)

(** The small league has six entries in the weeks that were fetched. *)
Lemma build_database_loads_every_entry_witness :
  (build_database Sample.fetched).1 = Ret tt
  ∧ length (matchups_table Sample.raw) = 6%nat.
Proof.
  assert (Hne : matchup_records (self_users Sample.fetched)
                  (self_rosters Sample.fetched)
                  (self_matchups Sample.fetched) ≠ [])
    by (vm_compute; discriminate).
  assert (Hnone : matchups (self_db Sample.fetched) = None) by reflexivity.
  destruct (build_database_loads_every_entry Sample.fetched Hne Hnone)
    as (Hret & _ & Hlen & _).
  split; [exact Hret | exact Hlen].
Defined.

(** A second [build_database] on the small league. *)
Lemma build_database_twice_raises_witness :
  is_Some (matchups (self_db Sample.built))
  ∧ matchups (self_db (build_database Sample.built).2)
    = matchups (self_db Sample.built).
Proof.
  assert (Hsome : is_Some (matchups (self_db Sample.built)))
    by (vm_compute; eexists; reflexivity).
  destruct (build_database_twice_raises Sample.built Hsome) as [_ Hsame].
  split; [exact Hsome | exact Hsame].
Defined.

(** p1 and p2 both score 20; p1 is listed first. *)
Lemma top_player_is_first_best_witness :
  top_player_id (normalize Sample.users Sample.rosters 1 SampleX.tied_players)
  = Some "p1"
  ∧ ∃ i : nat,
      default [] (Entry.players SampleX.tied_players) !! i = Some "p1"
      ∧ ∀ (j : nat) q, (j < i)%nat →
          default [] (Entry.players SampleX.tied_players) !! j = Some q →
          (player_score SampleX.tied_players q
           < player_score SampleX.tied_players "p1")%Q.
Proof.
  assert (Htop : top_player_id
            (normalize Sample.users Sample.rosters 1 SampleX.tied_players)
            = Some "p1") by (vm_compute; reflexivity).
  destruct (top_player_is_first_best Sample.users Sample.rosters 1
              SampleX.tied_players "p1" Htop) as (i & Hi & _ & _ & Hbefore).
  split; [exact Htop |]. exists i. split; [exact Hi | exact Hbefore].
Defined.

Lemma orphans_have_no_team_name (rid : Z) :
  rid = 4 ∨ rid = 5 →
  ∀ t, ¬ metadata_team_name Sample.users Sample.rosters rid t.
Proof.
  intros [->| ->] t (r & o & u & md & Hr & Ho & _).
  - vm_compute in Hr. injection Hr as <-. discriminate.
  - vm_compute in Hr. discriminate.
Qed.

(** Rosters 4 and 5 are kept apart. *)
Lemma synthetic_team_names_distinct_witness :
  team_name (normalize Sample.users Sample.rosters 1 SampleX.orphan_4)
  ≠ team_name (normalize Sample.users Sample.rosters 1 SampleX.orphan_5).
Proof.
  pose proof (synthetic_team_names_distinct Sample.users Sample.rosters 1 1
                SampleX.orphan_4 SampleX.orphan_5
                (orphans_have_no_team_name 4 (or_introl eq_refl))
                (orphans_have_no_team_name 5 (or_intror eq_refl))) as Hiff.
  intros Heq. apply Hiff in Heq. discriminate.
Defined.

Lemma sample_parse_uninterrupted : uninterrupted Sample.parse.
Proof.
  intros query w.
  unfold interactive_query, try_except, bind, parse_sql, Sample.parse.
  repeat case_bool_decide; simpl; [| | done].
  - unfold count_matchups, select_from_matchups, execute. simpl.
    by destruct (matchups (self_db w)).
  - done.
Qed.

(** What is typed after [quit] has no effect; here [quit] comes in capitals
    after a no-break space (U+00A0). *)
Lemma main_loop_ends_at_first_quit_witness :
  let quit := Line (String (ascii_of_nat 160) " QUIT ") in
  main_loop Sample.parse
    [Line "SELECT COUNT(week) FROM matchups"; quit;
     Line "DELETE FROM matchups"] Sample.built
  = main_loop Sample.parse
      [Line "SELECT COUNT(week) FROM matchups"; quit] Sample.built.
Proof.
  destruct (main_loop_ends_at_first_quit Sample.parse
              sample_parse_uninterrupted) as [_ Hfirst].
  destruct (Hfirst [Line "SELECT COUNT(week) FROM matchups"]
              (Line (String (ascii_of_nat 160) " QUIT "))
              [Line "DELETE FROM matchups"] Sample.built) as [Heq _].
  - constructor; [|constructor]. vm_compute. discriminate.
  - intros Hq. apply Hq. by vm_compute.
  - exact Heq.
Defined.


(** The second record of a dead heat loses with the week's highest score. *)
Lemma losses_with_highest_score_are_ties_witness :
  let t := matchups_table SampleX.dead_heat in
  losses_vs_highest t ≠ []
  ∧ ∀ m : matchups_row, m ∈ losses_vs_highest t →
      ∃ w0 : matchups_row,
        w0 ∈ t ∧ week w0 = week m ∧ matchup_id w0 = matchup_id m
        ∧ won w0 = 1 ∧ (points w0 == points m)%Q.
Proof.
  destruct (losses_with_highest_score_are_ties SampleX.dead_heat)
    as [Hties _].
  cbv zeta. split; [vm_compute; discriminate |].
  intros m Hm. by destruct (Hties m Hm) as (_ & _ & Hw0).
Defined.

(** The report on the small league as fetched. *)
Lemma report_runs_after_build_witness :
  (run_all_stats (build_database Sample.fetched).2).1 = Ret tt.
Proof.
  assert (Hne : matchup_records (self_users Sample.fetched)
                  (self_rosters Sample.fetched)
                  (self_matchups Sample.fetched) ≠ [])
    by (vm_compute; discriminate).
  assert (Hnone : matchups (self_db Sample.fetched) = None) by reflexivity.
  destruct (report_runs_after_build Sample.fetched Hne Hnone) as [Hret _].
  exact Hret.
Defined.
